(** * Text layout core of the text overlay tool

    A shallow embedding of the layout code of [text_overlay_tool]:
    the two wrapping engines and the font loader of
    [render/text_renderer.py], and the box-fit renderers and the
    interactive box editing of [text_overlay_tool_vision.py].  Beside
    them: the older wraps of the canvas, hit testing and the press of
    the mouse, the move by the arrow keys, the export at the resolution
    of the screen, the lines of the OCR and the list of regions.

    Conventions of the embedding.
    - A Python [str] is the list of its code points ([Py.str]); [len] is
      the length of that list.
    - A Python [float] is an exact rational ([Q]); [int(x)] truncates
      towards zero and [//] rounds down.  For the constants of the code
      the idealisation agrees with binary64 on [int(h * 0.6)],
      [int(s * 1.1)] and [s * 0.6 <= w] for integers in range; it can
      differ by one on [int(s * 1.15)].
    - What the code asks of Pillow and of the operating system
      (measuring a line, creating a scratch image, testing and opening
      a font file, joining paths) is a field of [World].
    - A [try ... except Exception] is a computation with an [outcome].
      The [while] loop of the character wrap takes fuel, and the file
      proves that the fuel given is enough; the other loops are
      structural.
    - The renderers return what they decide (lines, sizes, positions,
      drawing operations) together with the calls they make to the font
      loader and to the wrapping engines, in order. *)

From Stdlib Require Import ZArith QArith Qround List String Ascii Bool Lia Arith.
Import ListNotations.

Local Open Scope Z_scope.

(** ** Python strings *)

Module Py.

Definition char := N.
Definition str := list char.

Definition newline : char := 10%N.
Definition space : char := 32%N.

(** [str.isspace] on one character: the white space table of CPython. *)
Definition isspace (c : char) : bool :=
  ((9 <=? c) && (c <=? 13) || (28 <=? c) && (c <=? 32)
   || (c =? 133) || (c =? 160) || (c =? 5760)
   || (8192 <=? c) && (c <=? 8202)
   || (c =? 8232) || (c =? 8233) || (c =? 8239) || (c =? 8287)
   || (c =? 12288))%N.

(** Truth value of a string: [if s:]. *)
Definition truthy (s : str) : bool :=
  match s with [] => false | _ :: _ => true end.

(** [not s or not s.strip()]. *)
Definition is_blank (s : str) : bool := forallb isspace s.

Definition len (s : str) : Z := Z.of_nat (List.length s).

(** [s.split(sep)] for a one-character separator. *)
Fixpoint split_on (sep : char) (s : str) : list str :=
  match s with
  | [] => [[]]
  | c :: tl =>
      if (c =? sep)%N then [] :: split_on sep tl
      else match split_on sep tl with
           | p :: ps => (c :: p) :: ps
           | [] => [[c]]
           end
  end.

(** [s.split()]: the maximal runs of characters that are not white
    space; [cur] is the run being read. *)
Fixpoint split_ws_from (cur : str) (s : str) : list str :=
  match s with
  | [] => if truthy cur then [cur] else []
  | c :: tl =>
      if isspace c
      then (if truthy cur then cur :: split_ws_from [] tl
            else split_ws_from [] tl)
      else split_ws_from (cur ++ [c]) tl
  end.

Definition split_ws (s : str) : list str := split_ws_from [] s.

(** A literal of ASCII characters. *)
Definition lit (s : string) : str :=
  map N_of_ascii (list_ascii_of_string s).

(** [int(x)] of a float. *)
Definition int (x : Q) : Z :=
  if Qle_bool 0 x then Qfloor x else Qceiling x.

(** [x // 2] of a float. *)
Definition floordiv2 (x : Q) : Q := inject_Z (Qfloor (x / 2)).

End Py.

(** ** The outside world *)

Inductive font : Type :=
| FreeTypeFont (path : string) (size : Z)
| DefaultFont.

Record World : Type := {
  (** [os.path.exists] *)
  path_exists : string -> bool;
  (** [ImageFont.truetype(path, size)] returns rather than raises *)
  truetype_ok : string -> Z -> bool;
  (** [os.path.join] *)
  path_join : list string -> string;
  (** [sys._MEIPASS] when frozen, else [os.path.abspath(".")] *)
  base_path : string;
  (** [os.environ.get("LOCALAPPDATA")] *)
  localappdata : option string;
  (** [ImageDraw.textlength]; [None] when it raises *)
  textlength : font -> Py.str -> option Q;
  (** [Image.new("L", (w, h))] returns rather than raises *)
  image_new_ok : Z -> Z -> bool
}.

Inductive outcome (A : Type) : Type :=
| Done (a : A)
| Raised
| OutOfFuel.

Arguments Done {A} a.
Arguments Raised {A}.
Arguments OutOfFuel {A}.

(** The computation came to an end, by a result or by an exception. *)
Definition finished {A : Type} (o : outcome A) : Prop :=
  match o with OutOfFuel => False | _ => True end.

(** ** The wrapping engines of [render/text_renderer.py] *)

Module Wrap.

Import Py.

Definition _is_korean (c : char) : bool :=
  ((44032 <=? c) && (c <=? 55215)
   || (4352 <=? c) && (c <=? 4607)
   || (12592 <=? c) && (c <=? 12687))%N.

(** The local variables of [wrap_text_for_box]; [word] is unbound until
    the first run of word characters has been read. *)
Record locals : Type := {
  lines : list str;
  current_line : str;
  word : option str
}.

Definition in_word (c : char) : bool :=
  negb (isspace c) && negb (_is_korean c).

(** The inner [while]: the run of word characters at the head. *)
Fixpoint read_word (s : str) : str * str :=
  match s with
  | [] => ([], [])
  | c :: tl =>
      if in_word c
      then let (w, r) := read_word tl in (c :: w, r)
      else ([], s)
  end.

(** [len(test_line) * font_size * 0.6] *)
Definition estimated_width (test_line : str) (font_size : Z) : Q :=
  inject_Z (len test_line * font_size) * (6 # 10).

(** [char if _is_korean(char) else word]; [None] is the [NameError] of
    an unbound [word]. *)
Definition unit_of (ch : char) (st : locals) : option str :=
  if _is_korean ch then Some [ch] else word st.

(** The branch taken when the candidate line is too wide.  The flag is
    true when the branch raised; the locals are those at that point. *)
Definition too_wide (ch : char) (st : locals) : locals * bool :=
  if truthy (current_line st) then
    let st' := {| lines := lines st ++ [current_line st];
                  current_line := current_line st;
                  word := word st |} in
    match unit_of ch st with
    | Some u => ({| lines := lines st'; current_line := u;
                    word := word st |}, false)
    | None => (st', true)
    end
  else
    match unit_of ch st with
    | Some u => ({| lines := lines st ++ [u]; current_line := [];
                    word := word st |}, false)
    | None => (st, true)
    end.

Definition keep (test_line : str) (st : locals) : locals :=
  {| lines := lines st; current_line := test_line; word := word st |}.

(** The handler of the inner [try]: the estimate by character count. *)
Definition place_estimated (max_width font_size : Z) (ch : char)
    (test_line : str) (st : locals) : option locals :=
  if Qle_bool (estimated_width test_line font_size) (inject_Z max_width)
  then Some (keep test_line st)
  else let (st', raised) := too_wide ch st in
       if raised then None else Some st'.

(** The inner [try] with its handler; [None] is an exception that
    leaves the handler. *)
Definition place (W : World) (max_width font_size : Z) (f : font)
    (ch : char) (test_line : str) (st : locals) : option locals :=
  match (if image_new_ok W (max_width * 2) (font_size * 2)
         then textlength W f test_line else None) with
  | Some width =>
      if Qle_bool width (inject_Z max_width)
      then Some (keep test_line st)
      else let (st', raised) := too_wide ch st in
           if raised
           then place_estimated max_width font_size ch test_line st'
           else Some st'
  | None => place_estimated max_width font_size ch test_line st
  end.

(** The outer [while i < len(text)], on the text from [i] on. *)
Fixpoint wrap_loop (W : World) (max_width font_size : Z) (f : font)
    (fuel : nat) (rest : str) (st : locals) : outcome locals :=
  match rest with
  | [] => Done st
  | ch :: tl =>
      match fuel with
      | O => OutOfFuel
      | S fuel' =>
          if (ch =? newline)%N then
            wrap_loop W max_width font_size f fuel' tl
              {| lines := lines st ++ [current_line st];
                 current_line := []; word := word st |}
          else if _is_korean ch || isspace ch then
            match place W max_width font_size f ch
                    (current_line st ++ [ch]) st with
            | Some st' => wrap_loop W max_width font_size f fuel' tl st'
            | None => Raised
            end
          else
            let (w, rest') := read_word rest in
            let st1 := {| lines := lines st;
                          current_line := current_line st;
                          word := Some w |} in
            match place W max_width font_size f ch
                    (current_line st ++ w) st1 with
            | Some st' => wrap_loop W max_width font_size f fuel' rest' st'
            | None => Raised
            end
      end
  end.

Definition start : locals :=
  {| lines := []; current_line := []; word := None |}.

(** The body of the outer [try]. *)
Definition wrap_text_for_box_try (W : World) (text : str)
    (max_width font_size : Z) (f : font) : outcome (list str) :=
  if is_blank text then Done [[]]
  else
    match wrap_loop W max_width font_size f (List.length text) text start with
    | Done st =>
        let ls := if truthy (current_line st)
                  then lines st ++ [current_line st] else lines st in
        Done (match ls with [] => [text] | _ :: _ => ls end)
    | Raised => Raised
    | OutOfFuel => OutOfFuel
    end.

Definition wrap_text_for_box (W : World) (text : str)
    (max_width font_size : Z) (f : font) : list str :=
  match wrap_text_for_box_try W text max_width font_size f with
  | Done ls => ls
  | Raised => [text]
  | OutOfFuel => [text]
  end.

(** *** Word-boundary wrap *)

Definition measured_width (W : World) (f : font) (font_size : Z)
    (test_line : str) : Q :=
  match textlength W f test_line with
  | Some width => width
  | None => estimated_width test_line font_size
  end.

(** One turn of [for word in words], on [(lines, current_line)]. *)
Definition add_word (W : World) (max_width font_size : Z) (f : font)
    (acc : list str * str) (w : str) : list str * str :=
  let (ls, cur) := acc in
  let test_line := cur ++ (if truthy cur then [space] else []) ++ w in
  if Qle_bool (measured_width W f font_size test_line) (inject_Z max_width)
  then (ls, test_line)
  else if truthy cur then (ls ++ [cur], w)
  else (ls ++ [w], []).

(** One turn of [for paragraph in paragraphs]. *)
Definition add_paragraph (W : World) (max_width font_size : Z) (f : font)
    (ls : list str) (paragraph : str) : list str :=
  if is_blank paragraph then ls ++ [[]]
  else
    let (ls', cur) :=
      fold_left (add_word W max_width font_size f)
                (split_ws paragraph) (ls, []) in
    if truthy cur then ls' ++ [cur] else ls'.

Definition wrap_text_for_overlay_safe_word_try (W : World) (text : str)
    (max_width font_size : Z) (f : option font) : outcome (list str) :=
  if is_blank text then Done [[]]
  else
    let max_width := Z.max 20 max_width in
    let font_size := Z.max 6 font_size in
    if image_new_ok W (max_width * 2) (font_size * 3) then
      let f := match f with Some f => f | None => DefaultFont end in
      let ls := fold_left (add_paragraph W max_width font_size f)
                          (split_on newline text) [] in
      Done (match ls with [] => [text] | _ :: _ => ls end)
    else Raised.

Definition wrap_text_for_overlay_safe_word (W : World) (text : str)
    (max_width font_size : Z) (f : option font) : list str :=
  match wrap_text_for_overlay_safe_word_try W text max_width font_size f with
  | Done ls => ls
  | Raised => [text]
  | OutOfFuel => [text]
  end.

(** *** Comparing two runs of the word wrap *)

(** [cur2] is what is left of the line [cur1] when some of its leading
    words are dropped. *)
Definition tail_of (cur2 cur1 : str) : Prop :=
  cur2 = [] \/ cur2 = cur1 \/ exists pre, cur1 = pre ++ space :: cur2.

(** The run in state [s2] has used fewer lines than the run in state
    [s1], or as many with a current line that began later. *)
Definition ahead (s2 s1 : list str * str) : Prop :=
  (List.length (fst s2) < List.length (fst s1))%nat
  \/ (List.length (fst s2) = List.length (fst s1)
      /\ tail_of (snd s2) (snd s1)).

End Wrap.

(** ** The font loaders *)

Module Fonts.

Local Open Scope string_scope.

(** [resource_path] of [utils/resource.py]. *)
Definition resource_path (W : World) (relative_path : string) : string :=
  path_join W [base_path W; relative_path].

(** The registry of fonts added by the user: name to file path. *)
Definition dict := list (string * string).

Fixpoint get (d : dict) (k : string) : option string :=
  match d with
  | [] => None
  | (k', v) :: d' => if String.eqb k k' then Some v else get d' k
  end.

(** The first branch of [load_font_for_overlay]: the user's font. *)
Definition load_custom (W : World) (font_family : string) (font_size : Z)
    (custom_fonts : option dict) : option font :=
  match custom_fonts with
  | None => None
  | Some d =>
      match get d font_family with
      | None => None
      | Some custom_font_path =>
          if path_exists W custom_font_path
          then if truetype_ok W custom_font_path font_size
               then Some (FreeTypeFont custom_font_path font_size)
               else None
          else None
      end
  end.

(** [font_paths[font_family]] for a family of [system_fonts]. *)
Definition font_paths (W : World) (font_family : string)
    : option (list string) :=
  if String.eqb font_family "Arial"
  then Some ["fonts/arial.ttf"; "C:/Windows/Fonts/arial.ttf"]
  else if String.eqb font_family "Times New Roman"
  then Some ["fonts/times.ttf"; "C:/Windows/Fonts/times.ttf"]
  else if String.eqb font_family "Courier New"
  then Some ["fonts/cour.ttf"; "C:/Windows/Fonts/cour.ttf"]
  else if String.eqb font_family "굴림"
  then Some [resource_path W "fonts/gulim.ttc"; "C:/Windows/Fonts/gulim.ttc";
             "C:/Windows/Fonts/NGULIM.TTF"]
  else if String.eqb font_family "맑은 고딕"
  then Some [resource_path W "fonts/malgun.ttf"; "C:/Windows/Fonts/malgun.ttf";
             "C:/Windows/Fonts/malgunbd.ttf"; "C:/Windows/Fonts/malgunsl.ttf"]
  else if String.eqb font_family "나눔고딕"
  then Some [resource_path W "fonts/NanumGothic.ttf";
             "C:/Windows/Fonts/NanumGothic.ttf"]
  else None.

Definition default_font_paths (W : World) : list string :=
  [resource_path W "fonts/NanumGothic.ttf";
   resource_path W "fonts/malgun.ttf";
   resource_path W "fonts/gulim.ttc";
   "C:/Windows/Fonts/NanumGothic.ttf";
   "C:/Windows/Fonts/malgun.ttf";
   "C:/Windows/Fonts/gulim.ttc";
   "C:/Windows/Fonts/batang.ttc";
   "C:/Windows/Fonts/dotum.ttc"].

(** [for font_path in paths]: the file is tested under its own name and
    opened under [resource_path(font_path)]; a failure to open goes on
    to the next path. *)
Fixpoint try_paths (W : World) (paths : list string) (font_size : Z)
    : option font :=
  match paths with
  | [] => None
  | font_path :: rest =>
      if path_exists W font_path
      then if truetype_ok W (resource_path W font_path) font_size
           then Some (FreeTypeFont (resource_path W font_path) font_size)
           else try_paths W rest font_size
      else try_paths W rest font_size
  end.

Definition load_font_for_overlay (W : World) (font_family : string)
    (font_size : Z) (custom_fonts : option dict) : font :=
  match load_custom W font_family font_size custom_fonts with
  | Some f => f
  | None =>
      match (match font_paths W font_family with
             | Some paths => try_paths W paths font_size
             | None => None
             end) with
      | Some f => f
      | None =>
          match try_paths W (default_font_paths W) font_size with
          | Some f => f
          | None => DefaultFont
          end
      end
  end.

(** *** [_load_pil_font_with_bold] *)

Definition mem (s : string) (l : list string) : bool :=
  existsb (String.eqb s) l.

Definition local_appdata (W : World) : string :=
  match localappdata W with Some d => d | None => "C:/Users" end.

Definition user_font (W : World) (file : string) : string :=
  path_join W [local_appdata W; "Microsoft"; "Windows"; "Fonts"; file].

Definition base_paths (W : World) (font_family : string) : list string :=
  if mem font_family ["나눔고딕"; "NanumGothic"]
  then [user_font W "NanumGothic.ttf"; resource_path W "fonts/NanumGothic.ttf"]
  else if mem font_family ["맑은 고딕"; "Malgun Gothic"]
  then ["C:/Windows/Fonts/malgun.ttf"; resource_path W "fonts/malgun.ttf"]
  else if mem font_family ["굴림"; "Gulim"]
  then ["C:/Windows/Fonts/gulim.ttc"; resource_path W "fonts/gulim.ttc"]
  else if mem font_family ["Arial"]
  then ["C:/Windows/Fonts/arial.ttf"]
  else if mem font_family ["Times New Roman"]
  then ["C:/Windows/Fonts/times.ttf"]
  else [].

Definition bold_paths (W : World) (font_family : string) : list string :=
  if mem font_family ["나눔고딕"; "NanumGothic"]
  then [user_font W "NanumGothicBold.ttf"]
  else if mem font_family ["맑은 고딕"; "Malgun Gothic"]
  then ["C:/Windows/Fonts/malgunbd.ttf"]
  else if mem font_family ["굴림"; "Gulim"]
  then ["C:/Windows/Fonts/gulim.ttc"]
  else if mem font_family ["Arial"]
  then ["C:/Windows/Fonts/arialbd.ttf"]
  else if mem font_family ["Times New Roman"]
  then ["C:/Windows/Fonts/timesbd.ttf"]
  else [].

Definition extra_paths (W : World) (font_family : string) : list string :=
  if mem font_family ["나눔고딕"; "NanumGothic"]
  then user_font W "NanumGothicExtraBold.ttf" :: bold_paths W font_family
  else bold_paths W font_family.

Definition candidate_paths (W : World) (font_family : string)
    (bold_level : Z) : list string :=
  ((if (2 <=? bold_level)%Z then extra_paths W font_family else [])
   ++ (if (1 <=? bold_level)%Z then bold_paths W font_family else [])
   ++ base_paths W font_family)%list.

(** [for p in candidate_paths]: tested and opened under the same name. *)
Fixpoint try_candidates (W : World) (paths : list string) (font_size : Z)
    : option font :=
  match paths with
  | [] => None
  | p :: rest =>
      if negb (String.eqb p "") && path_exists W p
      then if truetype_ok W p font_size
           then Some (FreeTypeFont p font_size)
           else try_candidates W rest font_size
      else try_candidates W rest font_size
  end.

(** The canvas that the fallback goes through holds the registry. *)
Definition _load_pil_font_with_bold (W : World) (custom_fonts : option dict)
    (font_family : string) (font_size : Z) (bold_level : Z) : font :=
  match try_candidates W (candidate_paths W font_family bold_level)
          font_size with
  | Some f => f
  | None => load_font_for_overlay W font_family font_size custom_fonts
  end.

(** A handle that Pillow has opened, or the built-in font. *)
Definition usable (W : World) (f : font) : Prop :=
  match f with
  | FreeTypeFont p s => truetype_ok W p s = true
  | DefaultFont => True
  end.

(** Two worlds with the same files and the same paths. *)
Definition same_files (W W' : World) : Prop :=
  (forall p, path_exists W p = path_exists W' p)
  /\ (forall p s, truetype_ok W p s = truetype_ok W' p s)
  /\ (forall l, path_join W l = path_join W' l)
  /\ base_path W = base_path W'
  /\ localappdata W = localappdata W'.

End Fonts.

(** ** Interactive editing of a target box *)

Module Edit.

Definition bbox : Type := (Z * Z * Z * Z)%type.

(** The clamp that ends [move_text_box] and [resize_text_box];
    [shape] is [self.image.shape[:2]], height first. *)
Definition safe_clamp (shape : Z * Z) (b : bbox) : bbox :=
  let '(img_h, img_w) := shape in
  let '(x1, y1, x2, y2) := b in
  let x1 := Z.max 0 (Z.min x1 (img_w - 2)) in
  let y1 := Z.max 0 (Z.min y1 (img_h - 2)) in
  let x2 := Z.max (x1 + 1) (Z.min x2 (img_w - 1)) in
  let y2 := Z.max (y1 + 1) (Z.min y2 (img_h - 1)) in
  (x1, y1, x2, y2).

(** [move_text_box] once the drag has started: the new [target_bbox],
    or [None] when the pointer has not moved.  [_img_size] is the cached
    shape; both handlers run only while an image is loaded. *)
Definition move_text_box (_img_size shape : Z * Z) (drag_start_bbox : bbox)
    (dx dy : Z) : option bbox :=
  if (dx =? 0) && (dy =? 0) then None
  else
    let '(x1, y1, x2, y2) := drag_start_bbox in
    let new_x1 := x1 + dx in
    let new_y1 := y1 + dy in
    let '(img_h, img_w) := _img_size in
    let width := x2 - x1 in
    let height := y2 - y1 in
    let new_x1 := Z.max 0 (Z.min new_x1 (img_w - width)) in
    let new_y1 := Z.max 0 (Z.min new_y1 (img_h - height)) in
    let new_x2 := new_x1 + width in
    let new_y2 := new_y1 + height in
    Some (safe_clamp shape (new_x1, new_y1, new_x2, new_y2)).

Inductive handle : Type := SE | NE | SW | NW.

Definition min_size : Z := 30.

(** The corner arithmetic of [resize_text_box]. *)
Definition resize_corner (_img_size : Z * Z) (h : handle)
    (resize_start_bbox : bbox) (dx dy : Z) : bbox :=
  let '(x1, y1, x2, y2) := resize_start_bbox in
  let '(img_height, img_width) := _img_size in
  match h with
  | SE =>
      let new_x2 := Z.max (x1 + min_size) (x2 + dx) in
      let new_y2 := Z.max (y1 + min_size) (y2 + dy) in
      let new_x2 := Z.max (x1 + min_size) (Z.min new_x2 img_width) in
      let new_y2 := Z.max (y1 + min_size) (Z.min new_y2 img_height) in
      (x1, y1, new_x2, new_y2)
  | NE =>
      let new_x2 := Z.max (x1 + min_size) (x2 + dx) in
      let new_y1 := Z.min (y2 - min_size) (y1 + dy) in
      let new_x2 := Z.max (x1 + min_size) (Z.min new_x2 img_width) in
      let new_y1 := Z.max 0 (Z.min new_y1 (y2 - min_size)) in
      (x1, new_y1, new_x2, y2)
  | SW =>
      let new_x1 := Z.min (x2 - min_size) (x1 + dx) in
      let new_y2 := Z.max (y1 + min_size) (y2 + dy) in
      let new_x1 := Z.max 0 (Z.min new_x1 (x2 - min_size)) in
      let new_y2 := Z.max (y1 + min_size) (Z.min new_y2 img_height) in
      (new_x1, y1, x2, new_y2)
  | NW =>
      let new_x1 := Z.min (x2 - min_size) (x1 + dx) in
      let new_y1 := Z.min (y2 - min_size) (y1 + dy) in
      let new_x1 := Z.max 0 (Z.min new_x1 (x2 - min_size)) in
      let new_y1 := Z.max 0 (Z.min new_y1 (y2 - min_size)) in
      (new_x1, new_y1, x2, y2)
  end.

Definition resize_text_box (_img_size shape : Z * Z) (h : handle)
    (resize_start_bbox : bbox) (dx dy : Z) : option bbox :=
  if (dx =? 0) && (dy =? 0) then None
  else Some (safe_clamp shape
               (resize_corner _img_size h resize_start_bbox dx dy)).

(** The box lies on pixels of the image. *)
Definition within (shape : Z * Z) (b : bbox) : Prop :=
  let '(img_h, img_w) := shape in
  let '(x1, y1, x2, y2) := b in
  0 <= x1 /\ x1 < x2 /\ x2 <= img_w - 1
  /\ 0 <= y1 /\ y1 < y2 /\ y2 <= img_h - 1.

(** [int(x1 * scale)] and so on, for the export. *)
Definition scaled (scale : Z) (b : bbox) : bbox :=
  let '(x1, y1, x2, y2) := b in
  (x1 * scale, y1 * scale, x2 * scale, y2 * scale).

Definition width (b : bbox) : Z := let '(x1, _, x2, _) := b in x2 - x1.
Definition height (b : bbox) : Z := let '(_, y1, _, y2) := b in y2 - y1.

End Edit.

(** ** Text regions *)

Module Region.

Record t : Type := {
  text : Py.str;
  font_size : Z;
  font_family : string;
  margin : Z;
  color : Z * Z * Z;
  wrap_mode : string;
  bold : bool;
  bold_level : Z;
  line_spacing : Q;
  text_align : string;
  bg_color : option (Z * Z * Z * Z);
  stroke_color : option (Z * Z * Z);
  stroke_width : Z;
  target_bbox : option Edit.bbox;
  is_positioned : bool;
  image_filename : option string;
  visible : bool
}.

End Region.

(** ** Box-fit rendering *)

Module BoxFit.

Import Py.

(** What a renderer asks of the font loader and of the wrapping
    engines, in the order of the calls. *)
Inductive call : Type :=
| LoadFont (font_family : string) (font_size : Z)
| LoadBoldFont (font_family : string) (font_size : Z) (bold_level : Z)
| WrapText (wrap_mode : string) (max_width font_size : Z) (f : font).

Definition M (A : Type) : Type := (A * list call)%type.

Definition ret {A : Type} (a : A) : M A := (a, []).

Definition bind {A B : Type} (m : M A) (k : A -> M B) : M B :=
  let (a, t1) := m in
  let (b, t2) := k a in
  (b, t1 ++ t2).

Notation "x <- m ;; k" := (bind m (fun x => k))
  (at level 61, m at next level, right associativity).

Definition value {A : Type} (m : M A) : A := fst m.
Definition calls {A : Type} (m : M A) : list call := snd m.


Inductive draw_op : Type :=
| Rectangle (x1 y1 x2 y2 : Z) (fill : Z * Z * Z * Z)
| Text (x : Q) (y : Z) (s : str) (f : font) (fill : Z * Z * Z)
       (stroke : option (Z * (Z * Z * Z)))
| PutText (s : str) (x y : Z).

(** What a renderer has decided for one region. *)
Record layout : Type := {
  font_used : font;
  font_size_used : Z;
  text_lines : list str;
  line_height : Z;
  start_y : Z;
  ops : list draw_op
}.

Section Renderer.

Variable W : World.
Variable custom_fonts : option Fonts.dict.

Definition load_font_for_overlay (font_family : string) (font_size : Z)
    : M font :=
  (Fonts.load_font_for_overlay W font_family font_size custom_fonts,
   [LoadFont font_family font_size]).

Definition _load_pil_font_with_bold (font_family : string)
    (font_size bold_level : Z) : M font :=
  (Fonts._load_pil_font_with_bold W custom_fonts font_family font_size
     bold_level,
   [LoadBoldFont font_family font_size bold_level]).

(** [if region.wrap_mode == "word": ... else: ...] *)
Definition wrap (r : Region.t) (wrap_width font_size : Z) (f : font)
    : M (list str) :=
  (if String.eqb (Region.wrap_mode r) "word"
   then Wrap.wrap_text_for_overlay_safe_word W (Region.text r) wrap_width
          font_size (Some f)
   else Wrap.wrap_text_for_box W (Region.text r) wrap_width font_size f,
   [WrapText (Region.wrap_mode r) wrap_width font_size f]).

(** The clamp that opens every renderer. *)
Definition clamp_box (img_width img_height : Z) (b : Edit.bbox)
    : Edit.bbox :=
  let '(x1, y1, x2, y2) := b in
  let x1 := Z.max 0 (Z.min x1 (img_width - 2)) in
  let y1 := Z.max 0 (Z.min y1 (img_height - 2)) in
  let x2 := Z.max (x1 + 2) (Z.min x2 (img_width - 1)) in
  let y2 := Z.max (y1 + 2) (Z.min y2 (img_height - 1)) in
  (x1, y1, x2, y2).

(** [max(8, min(int(box_height * 0.6), size))] *)
Definition box_font_size (box_height size : Z) : Z :=
  Z.max 8 (Z.min (int (inject_Z box_height * (6 # 10))) size).

(** The rectangle of the text: the box less the margin, or the fallback
    rectangle when that is empty. *)
Definition text_rect (b : Edit.bbox) (margin font_size : Z) : Edit.bbox :=
  let '(x1, y1, x2, y2) := b in
  let text_x1 := x1 + margin in
  let text_y1 := y1 + margin in
  let text_x2 := x2 - margin in
  let text_y2 := y2 - margin in
  if (text_x2 <=? text_x1) || (text_y2 <=? text_y1) then
    let min_width := Z.max 20 (font_size * 2) in
    let min_height := Z.max 15 font_size in
    (x1, y1, Z.max (x1 + min_width) x2, Z.max (y1 + min_height) y2)
  else (text_x1, text_y1, text_x2, text_y2).

Definition wrap_width_of (text_x1 text_x2 margin : Z) : Z :=
  let box_width := Z.max 10 (text_x2 - text_x1) in
  if margin <? 0 then box_width - margin * 2 else box_width.

Definition count (ls : list str) : Z := Z.of_nat (List.length ls).

Record fitted : Type := {
  fit_font : font;
  fit_font_size : Z;
  fit_lines : list str;
  fit_line_height : Z;
  fit_total : Z
}.

(** The overflow block of the two preview renderers. *)
Definition fit_height (r : Region.t) (wrap_width available_height : Z)
    (font_size : Z) (f : font) (text_lines : list str) : M fitted :=
  let base_line_height := int (inject_Z font_size * 1) in
  let line_height :=
    int (inject_Z base_line_height * Region.line_spacing r) in
  let total_text_height := count text_lines * line_height in
  if available_height <? total_text_height then
    let line_height :=
      Z.max font_size (available_height / count text_lines) in
    let total_text_height := count text_lines * line_height in
    if available_height <? total_text_height then
      let scale_factor :=
        (inject_Z available_height / inject_Z total_text_height)%Q in
      let font_size := Z.max 8 (int (inject_Z font_size * scale_factor)) in
      f <- load_font_for_overlay (Region.font_family r) font_size ;;
      text_lines <- wrap r wrap_width font_size f ;;
      let line_height :=
        Z.max font_size (available_height / count text_lines) in
      let total_text_height := count text_lines * line_height in
      ret {| fit_font := f; fit_font_size := font_size;
             fit_lines := text_lines; fit_line_height := line_height;
             fit_total := total_text_height |}
    else
      ret {| fit_font := f; fit_font_size := font_size;
             fit_lines := text_lines; fit_line_height := line_height;
             fit_total := total_text_height |}
  else
    ret {| fit_font := f; fit_font_size := font_size;
           fit_lines := text_lines; fit_line_height := line_height;
           fit_total := total_text_height |}.

(** The width of a line as drawn: measured, else estimated. *)
Definition line_width (f : font) (font_size : Z) (s : str) : Q :=
  match textlength W f s with
  | Some width => width
  | None => (inject_Z (len s * font_size) * (6 # 10))%Q
  end.

Definition centered (text_x1 text_x2 : Z) (width : Q) : Q :=
  (inject_Z text_x1 + floordiv2 (inject_Z (text_x2 - text_x1) - width))%Q.

Definition aligned (r : Region.t) (text_x1 text_x2 : Z) (text_width : Q)
    : Q :=
  if String.eqb (Region.text_align r) "left" then inject_Z text_x1
  else if String.eqb (Region.text_align r) "right"
  then (inject_Z text_x2 - text_width)%Q
  else centered text_x1 text_x2 text_width.

Definition ellipsis : str := lit "...".

(** [text_y + font_size > text_y2 + tolerance] *)
Definition overflows (text_y font_size text_y2 tolerance : Z) : bool :=
  text_y2 + tolerance <? text_y + font_size.

(** The truncation [while]; [truncated_text] is [line_text[:n]]. *)
Fixpoint truncate (f : font) (font_size text_x1 text_x2 : Z)
    (over : bool) (line_text : str) (n : nat) (text_x : Q) : nat * Q :=
  match n with
  | O => (O, text_x)
  | S m =>
      if over then
        let truncated_text := firstn m line_text in
        let text_x :=
          if truthy truncated_text
          then centered text_x1 text_x2
                 (line_width f font_size (truncated_text ++ ellipsis))
          else text_x in
        truncate f font_size text_x1 text_x2 over line_text m text_x
      else (n, text_x)
  end.

Definition stroke_of (r : Region.t) : option (Z * (Z * Z * Z)) :=
  match Region.stroke_color r with
  | Some c => if 0 <? Region.stroke_width r
              then Some (Region.stroke_width r, c) else None
  | None => None
  end.

Definition text_color (r : Region.t) : Z * Z * Z :=
  let '(b, g, red) := Region.color r in (red, g, b).

Definition within_tolerance (text_x text_width : Q)
    (text_x1 text_x2 text_y text_y2 tolerance : Z) : bool :=
  Qle_bool (inject_Z (text_x1 - tolerance)) text_x
  && Qle_bool (text_x + text_width) (inject_Z (text_x2 + tolerance))
  && (text_y <=? text_y2 + tolerance).

(** One turn of the drawing loop of the two preview renderers. *)
Definition draw_line (r : Region.t) (f : font) (font_size : Z)
    (text_x1 text_x2 text_y2 start_y line_height : Z)
    (line_idx : Z) (line_text : str) : list draw_op :=
  if is_blank line_text then []
  else
    let text_width := line_width f font_size line_text in
    let text_x := aligned r text_x1 text_x2 text_width in
    let text_y := start_y + line_idx * line_height in
    let tolerance := 20 in
    if within_tolerance text_x text_width text_x1 text_x2 text_y text_y2
         tolerance
    then
      if negb (overflows text_y font_size text_y2 tolerance)
      then [Text text_x text_y line_text f (text_color r) (stroke_of r)]
      else
        let (n, text_x) :=
          truncate f font_size text_x1 text_x2
            (overflows text_y font_size text_y2 tolerance)
            line_text (List.length line_text) text_x in
        let truncated_text := firstn n line_text in
        if truthy truncated_text
        then [Text text_x text_y (truncated_text ++ ellipsis) f
                (text_color r) (stroke_of r)]
        else []
    else [].

(** [for line_idx, line_text in enumerate(text_lines)] *)
Fixpoint draw_lines (draw : Z -> str -> list draw_op) (line_idx : Z)
    (text_lines : list str) : list draw_op :=
  match text_lines with
  | [] => []
  | line_text :: rest =>
      draw line_idx line_text ++ draw_lines draw (line_idx + 1) rest
  end.

Definition background (r : Region.t) (b : Edit.bbox) : list draw_op :=
  let '(x1, y1, x2, y2) := b in
  match Region.bg_color r with
  | Some (red, g, bl, a) =>
      if 0 <? a then [Rectangle x1 y1 x2 y2 (red, g, bl, a)] else []
  | None => []
  end.

(** The four corner handles of the selected box. *)
Definition handles (b : Edit.bbox) (box_width box_height : Z)
    : list draw_op :=
  let '(x1, y1, x2, y2) := b in
  let handle_size := Z.min 15 (Z.min box_width box_height / 4) in
  let handle_color := (0, 0, 0, 255) in
  [Rectangle (x2 - handle_size) (y2 - handle_size) x2 y2 handle_color;
   Rectangle (x2 - handle_size) y1 x2 (y1 + handle_size) handle_color;
   Rectangle x1 (y2 - handle_size) (x1 + handle_size) y2 handle_color;
   Rectangle x1 y1 (x1 + handle_size) (y1 + handle_size) handle_color].

Inductive rendered : Type :=
| Nothing
| Basic (ops : list draw_op)
| Laid (l : layout).

(** [draw_korean_text], the renderer kept beside the optimized one;
    [shape] is [display_img.shape[:2]]. *)
Definition draw_korean_text (shape : Z * Z) (r : Region.t) (b : Edit.bbox)
    : M rendered :=
  let '(img_height, img_width) := shape in
  let '(x1, y1, x2, y2) := clamp_box img_width img_height b in
  if (x2 - x1 <? 2) || (y2 - y1 <? 2) then ret Nothing
  else
    let box_height := y2 - y1 in
    let font_size := box_font_size box_height (Region.font_size r) in
    let margin := Region.margin r in
    let '(text_x1, text_y1, text_x2, text_y2) :=
      text_rect (x1, y1, x2, y2) margin font_size in
    f <- load_font_for_overlay (Region.font_family r) font_size ;;
    let wrap_width := wrap_width_of text_x1 text_x2 margin in
    text_lines <- wrap r wrap_width font_size f ;;
    let available_height := text_y2 - text_y1 in
    fit <- fit_height r wrap_width available_height font_size f text_lines ;;
    let start_y := text_y1 + (available_height - fit_total fit) / 2 in
    ret (Laid {| font_used := fit_font fit;
                 font_size_used := fit_font_size fit;
                 text_lines := fit_lines fit;
                 line_height := fit_line_height fit;
                 start_y := start_y;
                 ops := draw_lines
                          (draw_line r (fit_font fit) (fit_font_size fit)
                             text_x1 text_x2 text_y2 start_y
                             (fit_line_height fit))
                          0 (fit_lines fit) |}).

(** [draw_korean_text_optimized], the renderer of the live preview.
    [pil] says that the caller could build the Pillow image and its
    drawing context; [show] is [is_selected and self.show_handles]. *)
Definition draw_korean_text_optimized (shape : Z * Z) (pil show : bool)
    (r : Region.t) (b : Edit.bbox) : M rendered :=
  let '(img_height, img_width) := shape in
  let '(x1, y1, x2, y2) := clamp_box img_width img_height b in
  if (x2 - x1 <? 2) || (y2 - y1 <? 2) then ret Nothing
  else if negb pil
  then ret (Basic [PutText (Region.text r) (x1 + 5) (y1 + 20)])
  else
    let box_height := y2 - y1 in
    let font_size := box_font_size box_height (Region.font_size r) in
    let margin := Region.margin r in
    let '(text_x1, text_y1, text_x2, text_y2) :=
      text_rect (x1, y1, x2, y2) margin font_size in
    f <- load_font_for_overlay (Region.font_family r) font_size ;;
    f <- (if Region.bold r
          then let bold_font_size := int (inject_Z font_size * (11 # 10)) in
               load_font_for_overlay (Region.font_family r) bold_font_size
          else ret f) ;;
    let box_width := Z.max 10 (text_x2 - text_x1) in
    let wrap_width := wrap_width_of text_x1 text_x2 margin in
    text_lines <- wrap r wrap_width font_size f ;;
    let available_height := text_y2 - text_y1 in
    fit <- fit_height r wrap_width available_height font_size f text_lines ;;
    let start_y := text_y1 + (available_height - fit_total fit) / 2 in
    ret (Laid {| font_used := fit_font fit;
                 font_size_used := fit_font_size fit;
                 text_lines := fit_lines fit;
                 line_height := fit_line_height fit;
                 start_y := start_y;
                 ops := background r (x1, y1, x2, y2)
                        ++ draw_lines
                             (draw_line r (fit_font fit) (fit_font_size fit)
                                text_x1 text_x2 text_y2 start_y
                                (fit_line_height fit))
                             0 (fit_lines fit)
                        ++ (if show
                            then handles (x1, y1, x2, y2) box_width box_height
                            else []) |}).

(** *** The export at twice the resolution *)

(** The overflow block of [save_with_pil_hires]: the first line height
    comes from the inflated size, and the font is loaded again with the
    preview's rule for bold. *)
Definition fit_height_hires (r : Region.t)
    (wrap_width available_height : Z) (font_size effective_font_size : Z)
    (f : font) (text_lines : list str) : M fitted :=
  let base_line_height := int (inject_Z effective_font_size * 1) in
  let line_height :=
    int (inject_Z base_line_height * Region.line_spacing r) in
  let total_text_height := count text_lines * line_height in
  if available_height <? total_text_height then
    let line_height :=
      Z.max font_size (available_height / count text_lines) in
    let total_text_height := count text_lines * line_height in
    if available_height <? total_text_height then
      let scale_factor :=
        (inject_Z available_height / inject_Z total_text_height)%Q in
      let font_size := Z.max 8 (int (inject_Z font_size * scale_factor)) in
      f <- load_font_for_overlay (Region.font_family r) font_size ;;
      f <- (if Region.bold r
            then let bold_font_size :=
                   int (inject_Z font_size * (11 # 10)) in
                 load_font_for_overlay (Region.font_family r) bold_font_size
            else ret f) ;;
      text_lines <- wrap r wrap_width font_size f ;;
      let line_height :=
        Z.max font_size (available_height / count text_lines) in
      let total_text_height := count text_lines * line_height in
      ret {| fit_font := f; fit_font_size := font_size;
             fit_lines := text_lines; fit_line_height := line_height;
             fit_total := total_text_height |}
    else
      ret {| fit_font := f; fit_font_size := font_size;
             fit_lines := text_lines; fit_line_height := line_height;
             fit_total := total_text_height |}
  else
    ret {| fit_font := f; fit_font_size := font_size;
           fit_lines := text_lines; fit_line_height := line_height;
           fit_total := total_text_height |}.

(** One turn of the drawing loop of the export: no truncation. *)
Definition draw_line_hires (r : Region.t) (f : font) (font_size : Z)
    (text_x1 text_x2 text_y2 start_y line_height scale : Z)
    (line_idx : Z) (line_text : str) : list draw_op :=
  if is_blank line_text then []
  else
    let text_width := line_width f font_size line_text in
    let text_x := aligned r text_x1 text_x2 text_width in
    let text_y := start_y + line_idx * line_height in
    let tolerance := 20 * scale in
    if within_tolerance text_x text_width text_x1 text_x2 text_y text_y2
         tolerance
    then
      if negb (overflows text_y font_size text_y2 tolerance)
      then [Text text_x text_y line_text f (text_color r) (stroke_of r)]
      else []
    else [].

(** The body of [for region in current_text_regions] of
    [save_with_pil_hires]; [shape] is the shape of the target image. *)
Definition hires_region (shape : Z * Z) (r : Region.t) : M rendered :=
  let scale := 2 in
  let '(img_height, img_width) := shape in
  let img_width_scaled := img_width * scale in
  let img_height_scaled := img_height * scale in
  match Region.target_bbox r with
  | None => ret Nothing
  | Some b =>
      if negb (Region.is_positioned r) then ret Nothing
      else
        let '(x1, y1, x2, y2) :=
          clamp_box img_width_scaled img_height_scaled
            (Edit.scaled scale b) in
        if (x2 - x1 <? 2) || (y2 - y1 <? 2) then ret Nothing
        else
          let box_height := y2 - y1 in
          let font_size :=
            box_font_size box_height (Region.font_size r * scale) in
          let margin := Region.margin r * scale in
          let '(text_x1, text_y1, text_x2, text_y2) :=
            text_rect (x1, y1, x2, y2) margin font_size in
          let bold_level := Region.bold_level r in
          let effective_font_size := font_size in
          let effective_font_size :=
            if 1 <=? bold_level
            then int (inject_Z effective_font_size * (11 # 10))
            else effective_font_size in
          let effective_font_size :=
            if 2 <=? bold_level
            then int (inject_Z effective_font_size * (115 # 100))
            else effective_font_size in
          f <- _load_pil_font_with_bold (Region.font_family r)
                 effective_font_size bold_level ;;
          let wrap_width := wrap_width_of text_x1 text_x2 margin in
          text_lines <- wrap r wrap_width font_size f ;;
          let available_height := text_y2 - text_y1 in
          fit <- fit_height_hires r wrap_width available_height font_size
                   effective_font_size f text_lines ;;
          let start_y := text_y1 + (available_height - fit_total fit) / 2 in
          ret (Laid {| font_used := fit_font fit;
                       font_size_used := fit_font_size fit;
                       text_lines := fit_lines fit;
                       line_height := fit_line_height fit;
                       start_y := start_y;
                       ops := background r (x1, y1, x2, y2)
                              ++ draw_lines
                                   (draw_line_hires r (fit_font fit)
                                      (fit_font_size fit) text_x1 text_x2
                                      text_y2 start_y (fit_line_height fit)
                                      scale)
                                   0 (fit_lines fit) |})
  end.

End Renderer.

End BoxFit.

(** ** The fallback chain of the font loaders, as one ordered list *)

Module Chain.

Import Fonts.

(** A candidate: the name the file is tested under and the name it is
    opened under. *)
Definition candidate : Type := (string * string)%type.

Fixpoint first_loadable (W : World) (cands : list candidate) (size : Z)
    : font :=
  match cands with
  | [] => DefaultFont
  | (tested, opened) :: rest =>
      if path_exists W tested && truetype_ok W opened size
      then FreeTypeFont opened size
      else first_loadable W rest size
  end.

Definition custom_candidates (font_family : string)
    (custom_fonts : option dict) : list candidate :=
  match custom_fonts with
  | Some d => match get d font_family with
              | Some p => [(p, p)]
              | None => []
              end
  | None => []
  end.

Definition bundled (W : World) (paths : list string) : list candidate :=
  map (fun p => (p, resource_path W p)) paths.

Definition direct (paths : list string) : list candidate :=
  map (fun p => (p, p))
      (filter (fun p => negb (String.eqb p "")) paths).

Definition family_candidates (W : World) (font_family : string)
    : list candidate :=
  match font_paths W font_family with
  | Some paths => bundled W paths
  | None => []
  end.

(** Registry, then family, then defaults. *)
Definition plain_chain (W : World) (font_family : string)
    (custom_fonts : option dict) : list candidate :=
  custom_candidates font_family custom_fonts
  ++ family_candidates W font_family
  ++ bundled W (default_font_paths W).

(** Weights of the family from the heaviest asked for down to the base
    weight, then the plain chain. *)
Definition bold_chain (W : World) (font_family : string) (bold_level : Z)
    (custom_fonts : option dict) : list candidate :=
  direct (candidate_paths W font_family bold_level)
  ++ plain_chain W font_family custom_fonts.

(** The order in which the registry comes first also when a weight is
    asked for. *)
Definition registry_first_chain (W : World) (font_family : string)
    (bold_level : Z) (custom_fonts : option dict) : list candidate :=
  custom_candidates font_family custom_fonts
  ++ direct (candidate_paths W font_family bold_level)
  ++ family_candidates W font_family
  ++ bundled W (default_font_paths W).

End Chain.

(** ** Sample worlds and regions *)

Module Sample.

Import Py.

(** No font file on disk; every character is six pixels wide, which is
    also the estimate of the code at font size ten. *)
Definition monospace : World :=
  {| path_exists := fun _ => false;
     truetype_ok := fun _ _ => false;
     path_join := String.concat "/";
     base_path := ".";
     localappdata := None;
     textlength := fun _ s => Some (inject_Z (6 * len s));
     image_new_ok := fun w h => (0 <=? w) && (0 <=? h)
                                && (w * h <? 2 ^ 31) |}.

(** A registry entry named after a system family, and that family's
    system file, both on disk and both loadable. *)
Definition with_arial : World :=
  {| path_exists := fun p => String.eqb p "D:/fonts/Arial.ttf"
                             || String.eqb p "C:/Windows/Fonts/arial.ttf";
     truetype_ok := fun p s => (String.eqb p "D:/fonts/Arial.ttf"
                                || String.eqb p "C:/Windows/Fonts/arial.ttf")
                               && (0 <? s);
     path_join := String.concat "/";
     base_path := ".";
     localappdata := None;
     textlength := fun _ s => Some (inject_Z (6 * len s));
     image_new_ok := fun w h => (0 <=? w) && (0 <=? h)
                                && (w * h <? 2 ^ 31) |}.

Definition registry : Fonts.dict := [("Arial", "D:/fonts/Arial.ttf")]%string.

(** A bold one-letter region in a 200 by 100 box. *)
Definition bold_letter : Region.t :=
  {| Region.text := lit "A";
     Region.font_size := 20;
     Region.font_family := "Arial";
     Region.margin := 0;
     Region.color := (0, 0, 0);
     Region.wrap_mode := "word";
     Region.bold := true;
     Region.bold_level := 1;
     Region.line_spacing := 1;
     Region.text_align := "center";
     Region.bg_color := None;
     Region.stroke_color := None;
     Region.stroke_width := 0;
     Region.target_bbox := Some (0, 0, 200, 100);
     Region.is_positioned := true;
     Region.image_filename := None;
     Region.visible := true |}.

(** The same letter asked for at size 100. *)
Definition bold_headline : Region.t :=
  {| Region.text := lit "A";
     Region.font_size := 100;
     Region.font_family := "Arial";
     Region.margin := 0;
     Region.color := (0, 0, 0);
     Region.wrap_mode := "word";
     Region.bold := true;
     Region.bold_level := 1;
     Region.line_spacing := 1;
     Region.text_align := "center";
     Region.bg_color := None;
     Region.stroke_color := None;
     Region.stroke_width := 0;
     Region.target_bbox := Some (0, 0, 200, 100);
     Region.is_positioned := true;
     Region.image_filename := None;
     Region.visible := true |}.

(** Five short lines in a box 40 pixels high. *)
Definition five_lines : Region.t :=
  {| Region.text := lit "aa
bb
cc
dd
ee";
     Region.font_size := 20;
     Region.font_family := "Arial";
     Region.margin := 0;
     Region.color := (0, 0, 0);
     Region.wrap_mode := "word";
     Region.bold := false;
     Region.bold_level := 0;
     Region.line_spacing := 12 # 10;
     Region.text_align := "center";
     Region.bg_color := None;
     Region.stroke_color := None;
     Region.stroke_width := 0;
     Region.target_bbox := Some (0, 0, 200, 40);
     Region.is_positioned := true;
     Region.image_filename := None;
     Region.visible := true |}.

(** The characters of a text that are not white space, in order. *)
Definition visible_chars (s : str) : str :=
  filter (fun c => negb (isspace c)) s.

End Sample.

(** ** More of Python's strings *)

Module PyText.

Import Py.

(** [s.lstrip()] *)
Fixpoint lstrip (s : str) : str :=
  match s with
  | [] => []
  | c :: tl => if isspace c then lstrip tl else s
  end.

(** [s.rstrip()] *)
Definition rstrip (s : str) : str := rev (lstrip (rev s)).

(** [s.strip()] *)
Definition strip (s : str) : str := rstrip (lstrip s).

(** The text with its line breaks taken out. *)
Definition without_newlines (s : str) : str :=
  filter (fun c => negb (c =? newline)%N) s.

(** ["\n".join(parts)] *)
Fixpoint join_lines (parts : list str) : str :=
  match parts with
  | [] => []
  | [p] => p
  | p :: rest => p ++ newline :: join_lines rest
  end.

(** No character of the line is white space. *)
Definition no_space (l : str) : bool := forallb (fun c => negb (isspace c)) l.

(** The only white space of the text is the line break. *)
Definition breaks_only (s : str) : bool :=
  forallb (fun c => negb (isspace c) || (c =? newline)%N) s.

(** A line fits the width, or is one word. *)
Definition fits_or_word (W : World) (f : font) (font_size max_width : Z)
    (l : str) : Prop :=
  Qle_bool (Wrap.measured_width W f font_size l) (inject_Z max_width) = true
  \/ no_space l = true.

(** The lines in hand in the word wrap: those closed and the one being
    filled. *)
Definition in_hand (s : list str * str) : nat :=
  (List.length (fst s) + (if truthy (snd s) then 1 else 0))%nat.

End PyText.

(** ** The other methods of the canvas *)

Module Canvas.

Import Py.

(** *** The wraps by character count, [wrap_text] and
    [wrap_text_for_overlay] *)

(** One turn of [for char in text], on [(lines, current_line)]. *)
Definition count_step (chars_per_line : Z) (acc : list str * str)
    (ch : char) : list str * str :=
  let (lines, current_line) := acc in
  if (ch =? newline)%N then (lines ++ [current_line], [])
  else if chars_per_line <=? len current_line
  then (lines ++ [current_line], [ch])
  else (lines, current_line ++ [ch]).

(** The two methods differ in the least width only, [least]; the clamp
    of [font_size] has no effect on what they return. *)
Definition wrap_by_count (least : Z) (text : str) (max_width font_size : Z)
    : list str :=
  if negb (truthy text) then [[]]
  else
    let max_width :=
      if 0 <? max_width then Z.max least max_width else 100 in
    let chars_per_line := Z.max 1 (max_width / 8) in
    let (lines, current_line) :=
      fold_left (count_step chars_per_line) text ([], []) in
    let lines :=
      if truthy current_line then lines ++ [current_line] else lines in
    match lines with [] => [text] | _ :: _ => lines end.

Definition wrap_text : str -> Z -> Z -> list str := wrap_by_count 20.

Definition wrap_text_for_overlay : str -> Z -> Z -> list str :=
  wrap_by_count 10.

(** The width that [wrap_by_count] ends up counting with. *)
Definition chars_per_line (least max_width : Z) : Z :=
  Z.max 1 ((if 0 <? max_width then Z.max least max_width else 100) / 8).

(** *** The measured wrap by character, [wrap_text_for_overlay_safe] *)

(** One turn of [for char in text]. *)
Definition safe_step (W : World) (max_width font_size : Z) (f : font)
    (acc : list str * str) (ch : char) : list str * str :=
  let (lines, current_line) := acc in
  if (ch =? newline)%N then (lines ++ [current_line], [])
  else
    let test_line := current_line ++ [ch] in
    let width := Wrap.measured_width W f font_size test_line in
    if negb (Qle_bool width (inject_Z max_width)) && truthy current_line
    then (lines ++ [current_line], [ch])
    else (lines, test_line).

Definition wrap_text_for_overlay_safe (W : World) (text : str)
    (max_width font_size : Z) (font_path : string) : list str :=
  if is_blank text then [[]]
  else
    let max_width := Z.max 20 max_width in
    let font_size := Z.max 6 font_size in
    if image_new_ok W (max_width * 2) (font_size * 3) then
      let f :=
        if truetype_ok W (Fonts.resource_path W font_path) font_size
        then FreeTypeFont (Fonts.resource_path W font_path) font_size
        else DefaultFont in
      let (lines, current_line) :=
        fold_left (safe_step W max_width font_size f) text ([], []) in
      let lines :=
        if truthy current_line then lines ++ [current_line] else lines in
      match lines with [] => [text] | _ :: _ => lines end
    else [text].

(** The font that [wrap_text_for_overlay_safe] measures with. *)
Definition safe_font (W : World) (font_size : Z) (font_path : string)
    : font :=
  if truetype_ok W (Fonts.resource_path W font_path) (Z.max 6 font_size)
  then FreeTypeFont (Fonts.resource_path W font_path) (Z.max 6 font_size)
  else DefaultFont.

(** A line fits the width, or is one character. *)
Definition fits_or_single (W : World) (f : font) (font_size max_width : Z)
    (l : str) : Prop :=
  Qle_bool (Wrap.measured_width W f font_size l) (inject_Z max_width) = true
  \/ (List.length l <= 1)%nat.

(** *** Hit testing *)

(** The test in the loop of [get_text_at_position]. *)
Definition hit (current_filename : string) (x y : Z) (r : Region.t)
    : bool :=
  match Region.image_filename r with
  | Some n => String.eqb n current_filename
  | None => false
  end
  && Region.is_positioned r
  && match Region.target_bbox r with
     | Some (x1, y1, x2, y2) =>
         (x1 <=? x) && (x <=? x2) && (y1 <=? y) && (y <=? y2)
     | None => false
     end.

(** [for i in range(n - 1, -1, -1)] *)
Fixpoint scan_down (current_filename : string) (x y : Z)
    (text_regions : list Region.t) (n : nat) : Z :=
  match n with
  | O => -1
  | S i =>
      match nth_error text_regions i with
      | Some r =>
          if hit current_filename x y r then Z.of_nat i
          else scan_down current_filename x y text_regions i
      | None => scan_down current_filename x y text_regions i
      end
  end.

(** [jp_image_path] is the path of the target image, if one is open;
    [basename] is [os.path.basename]. *)
Definition get_text_at_position (basename : string -> string)
    (jp_image_path : option string) (text_regions : list Region.t)
    (pos : Z * Z) : Z :=
  match jp_image_path with
  | None => -1
  | Some path =>
      if String.eqb path "" then -1
      else
        let (x, y) := pos in
        scan_down (basename path) x y text_regions
          (List.length text_regions)
  end.

Definition in_zone (x y zx1 zy1 zx2 zy2 : Z) : bool :=
  (zx1 <=? x) && (x <=? zx2) && (zy1 <=? y) && (y <=? zy2).

(** The zone tests of [get_resize_handle], in their order. *)
Definition handle_at (b : Edit.bbox) (pos : Z * Z) : option Edit.handle :=
  let (x, y) := pos in
  let '(x1, y1, x2, y2) := b in
  let handle_size := 15 in
  let handle_margin := 5 in
  let effective_size := handle_size + handle_margin in
  if in_zone x y (x2 - effective_size) (y2 - effective_size) x2 y2
  then Some Edit.SE
  else if in_zone x y (x2 - effective_size) y1 x2 (y1 + effective_size)
  then Some Edit.NE
  else if in_zone x y x1 (y2 - effective_size) (x1 + effective_size) y2
  then Some Edit.SW
  else if in_zone x y x1 y1 (x1 + effective_size) (y1 + effective_size)
  then Some Edit.NW
  else None.

Definition get_resize_handle (basename : string -> string)
    (jp_image_path : option string) (text_regions : list Region.t)
    (pos : Z * Z) (text_index : Z) : option Edit.handle :=
  if (text_index <? 0) || (Z.of_nat (List.length text_regions) <=? text_index)
  then None
  else
    match nth_error text_regions (Z.to_nat text_index) with
    | None => None
    | Some region =>
        if negb (Region.is_positioned region) then None
        else
          match Region.target_bbox region with
          | None => None
          | Some b =>
              match jp_image_path with
              | None => None
              | Some path =>
                  if String.eqb path "" then None
                  else
                    match Region.image_filename region with
                    | Some n =>
                        if String.eqb n (basename path)
                        then handle_at b pos else None
                    | None => None
                    end
              end
          end
    end.

(** *** From the widget to the image *)

(** [_get_image_position]: [image] is the shape of the image shown,
    [pixmap] the size of the pixmap of the label, width first, [label]
    the size of the label, [widget_pos] the position of the pointer.
    The quotient [pixmap_x * img_width / pixmap_width] is a float in
    the code and an exact rational here. *)
Definition _get_image_position (image : option (Z * Z))
    (pixmap : option (Z * Z)) (label : Z * Z) (widget_pos : Z * Z)
    : option (Z * Z) :=
  match image with
  | None => None
  | Some (img_height, img_width) =>
      match pixmap with
      | None => None
      | Some (pixmap_width, pixmap_height) =>
          let (label_width, label_height) := label in
          let (wx, wy) := widget_pos in
          let offset_x := Z.max 0 ((label_width - pixmap_width) / 2) in
          let offset_y := Z.max 0 ((label_height - pixmap_height) / 2) in
          let pixmap_x := wx - offset_x in
          let pixmap_y := wy - offset_y in
          if (0 <=? pixmap_x) && (pixmap_x <? pixmap_width)
             && (0 <=? pixmap_y) && (pixmap_y <? pixmap_height)
          then
            let img_x :=
              int (inject_Z (pixmap_x * img_width) / inject_Z pixmap_width) in
            let img_y :=
              int (inject_Z (pixmap_y * img_height)
                   / inject_Z pixmap_height) in
            if (0 <=? img_x) && (img_x <? img_width)
               && (0 <=? img_y) && (img_y <? img_height)
            then Some (img_x, img_y)
            else None
          else None
      end
  end.

(** *** Pressing the left button on the target canvas *)

Inductive grab : Type :=
| Resizing (h : Edit.handle)
| Moving.

(** What [mousePressEvent] selects: the index of the region and what
    the drag that follows will do to it; [None] when nothing is hit. *)
Definition mousePressEvent (basename : string -> string)
    (jp_image_path : option string) (text_regions : list Region.t)
    (img_pos : option (Z * Z)) : option (Z * grab) :=
  match img_pos with
  | None => None
  | Some pos =>
      let clicked_text_index :=
        get_text_at_position basename jp_image_path text_regions pos in
      if 0 <=? clicked_text_index then
        match get_resize_handle basename jp_image_path text_regions pos
                clicked_text_index with
        | Some h => Some (clicked_text_index, Resizing h)
        | None => Some (clicked_text_index, Moving)
        end
      else None
  end.

End Canvas.

(** ** The line split of [ocr/cloud_vision.py] *)

Module Ocr.

Import Py PyText.

(** [[line.strip() for line in full_text.split('\n') if line.strip()]] *)
Definition text_lines (full_text : str) : list str :=
  map strip
    (filter (fun line => truthy (strip line)) (split_on newline full_text)).

(** What [extract_text_full_image_vision] returns for a response whose
    first annotation has the description [description]; [None] is a
    response without annotations. *)
Definition texts_of (description : option str) : list str :=
  match description with
  | None => []
  | Some full_text => if truthy full_text then text_lines full_text else []
  end.

End Ocr.

(** ** The list of regions of the main window *)

Module Tool.

Import Py PyText.

(** [TextRegion(text, bbox=None, font_size, color, font_family, margin)]
    with the defaults of the constructor, on the fields of [Region.t]. *)
Definition TextRegion (text : str) (font_size : Z) (color : Z * Z * Z)
    (font_family : string) (margin : Z) : Region.t :=
  {| Region.text := text;
     Region.font_size := font_size;
     Region.font_family := font_family;
     Region.margin := margin;
     Region.color := color;
     Region.wrap_mode := "word";
     Region.bold := false;
     Region.bold_level := 0;
     Region.line_spacing := 12 # 10;
     Region.text_align := "center";
     Region.bg_color := Some (255, 255, 255, 255);
     Region.stroke_color := None;
     Region.stroke_width := 0;
     Region.target_bbox := None;
     Region.is_positioned := false;
     Region.image_filename := None;
     Region.visible := true |}.

(** The three assignments that place or unplace a region. *)
Definition placed (r : Region.t) (target_bbox : option Edit.bbox)
    (is_positioned : bool) (image_filename : option string) : Region.t :=
  {| Region.text := Region.text r;
     Region.font_size := Region.font_size r;
     Region.font_family := Region.font_family r;
     Region.margin := Region.margin r;
     Region.color := Region.color r;
     Region.wrap_mode := Region.wrap_mode r;
     Region.bold := Region.bold r;
     Region.bold_level := Region.bold_level r;
     Region.line_spacing := Region.line_spacing r;
     Region.text_align := Region.text_align r;
     Region.bg_color := Region.bg_color r;
     Region.stroke_color := Region.stroke_color r;
     Region.stroke_width := Region.stroke_width r;
     Region.target_bbox := target_bbox;
     Region.is_positioned := is_positioned;
     Region.image_filename := image_filename;
     Region.visible := Region.visible r |}.

(** A region that has no place on an image. *)
Definition unplaced (r : Region.t) : Prop :=
  Region.is_positioned r = false /\ Region.target_bbox r = None
  /\ Region.image_filename r = None.

(** [l[i] = a] for an index in range. *)
Fixpoint assign {A : Type} (l : list A) (i : nat) (a : A) : list A :=
  match l, i with
  | [], _ => []
  | _ :: tl, O => a :: tl
  | x :: tl, S j => x :: assign tl j a
  end.

(** The loop of [on_vision_ocr_completed]: one unplaced region for
    every line that is not blank, appended in order. *)
Definition on_vision_ocr_completed (default_font_size : Z)
    (current_color : Z * Z * Z) (default_font_family : string)
    (text_regions : list Region.t) (text_lines : list str)
    : list Region.t :=
  fold_left
    (fun regions text_line =>
       if truthy (strip text_line)
       then regions
            ++ [placed (TextRegion (strip text_line) default_font_size
                          current_color default_font_family 2)
                  None false None]
       else regions)
    text_lines text_regions.

(** [on_text_dropped]: the region is given its box on the image that
    is open. *)
Definition on_text_dropped (basename : string -> string)
    (jp_image_path : option string) (text_regions : list Region.t)
    (text_index : Z) (bbox : option Edit.bbox) : list Region.t :=
  if (0 <=? text_index)
     && (text_index <? Z.of_nat (List.length text_regions))
  then
    match nth_error text_regions (Z.to_nat text_index) with
    | None => text_regions
    | Some region =>
        let image_filename :=
          match jp_image_path with
          | Some path =>
              if String.eqb path "" then Region.image_filename region
              else Some (basename path)
          | None => Region.image_filename region
          end in
        assign text_regions (Z.to_nat text_index)
          (placed region bbox true image_filename)
    end
  else text_regions.

(** [reset_text_position] for the row [current_row]; [reply] is the
    answer to the confirmation dialog. *)
Definition reset_text_position (text_regions : list Region.t)
    (current_row : Z) (reply : bool) : list Region.t :=
  if (current_row <? 0)
     || (Z.of_nat (List.length text_regions) <=? current_row)
  then text_regions
  else
    match nth_error text_regions (Z.to_nat current_row) with
    | None => text_regions
    | Some region =>
        if negb (Region.is_positioned region) then text_regions
        else if reply
        then assign text_regions (Z.to_nat current_row)
               (placed region None false None)
        else text_regions
    end.

(** The arithmetic of [move_selected_text_box]; [jp_image] is the
    shape of the target image, if one is loaded. *)
Definition nudged (jp_image : option (Z * Z)) (b : Edit.bbox) (dx dy : Z)
    : Edit.bbox :=
  let '(x1, y1, x2, y2) := b in
  let width := x2 - x1 in
  let height := y2 - y1 in
  let new_x1 := x1 + dx in
  let new_y1 := y1 + dy in
  let new_x2 := new_x1 + width in
  let new_y2 := new_y1 + height in
  match jp_image with
  | Some (img_h, img_w) =>
      let new_x1 := Z.max 0 (Z.min new_x1 (img_w - width)) in
      let new_y1 := Z.max 0 (Z.min new_y1 (img_h - height)) in
      let new_x2 := new_x1 + width in
      let new_y2 := new_y1 + height in
      (new_x1, new_y1, new_x2, new_y2)
  | None => (new_x1, new_y1, new_x2, new_y2)
  end.

(** [move_selected_text_box], the move by the arrow keys. *)
Definition move_selected_text_box (basename : string -> string)
    (jp_image_path : option string) (jp_image : option (Z * Z))
    (text_regions : list Region.t) (selected_index : Z) (dx dy : Z)
    : list Region.t :=
  if (selected_index <? 0)
     || (Z.of_nat (List.length text_regions) <=? selected_index)
  then text_regions
  else
    match nth_error text_regions (Z.to_nat selected_index) with
    | None => text_regions
    | Some region =>
        if negb (Region.is_positioned region) then text_regions
        else
          match Region.target_bbox region with
          | None => text_regions
          | Some b =>
              match jp_image_path with
              | None => text_regions
              | Some path =>
                  if String.eqb path "" then text_regions
                  else
                    match Region.image_filename region with
                    | Some n =>
                        if String.eqb n (basename path)
                        then assign text_regions (Z.to_nat selected_index)
                               (placed region
                                  (Some (nudged jp_image b dx dy))
                                  (Region.is_positioned region)
                                  (Region.image_filename region))
                        else text_regions
                    | None => text_regions
                    end
              end
          end
    end.

End Tool.

(** ** The export at the resolution of the screen *)

Module SaveScreen.

Import Py BoxFit.

Section Body.

Variable W : World.
Variable custom_fonts : option Fonts.dict.

(** One turn of the drawing loop of [save_with_pil_screen]. *)
Definition draw_line_screen (r : Region.t) (f : font) (font_size : Z)
    (text_x1 text_x2 text_y2 start_y line_height : Z)
    (line_idx : Z) (line_text : str) : list draw_op :=
  if is_blank line_text then []
  else
    let text_width := line_width W f font_size line_text in
    let text_x := aligned r text_x1 text_x2 text_width in
    let text_y := start_y + line_idx * line_height in
    let tolerance := 20 in
    if within_tolerance text_x text_width text_x1 text_x2 text_y text_y2
         tolerance
    then
      if negb (overflows text_y font_size text_y2 tolerance)
      then [Text text_x text_y line_text f (text_color r) (stroke_of r)]
      else []
    else [].

(** The body of [for region in current_text_regions] of
    [save_with_pil_screen]; [shape] is the shape of the target image. *)
Definition screen_region (shape : Z * Z) (r : Region.t) : M rendered :=
  let '(img_height, img_width) := shape in
  if negb (Region.visible r) then ret Nothing
  else
    match Region.target_bbox r with
    | None => ret Nothing
    | Some b =>
        if negb (Region.is_positioned r) then ret Nothing
        else
          let '(x1, y1, x2, y2) := clamp_box img_width img_height b in
          if (x2 - x1 <? 2) || (y2 - y1 <? 2) then ret Nothing
          else
            let box_height := y2 - y1 in
            let font_size := box_font_size box_height (Region.font_size r) in
            let margin := Region.margin r in
            let '(text_x1, text_y1, text_x2, text_y2) :=
              text_rect (x1, y1, x2, y2) margin font_size in
            let bold_level := Region.bold_level r in
            let effective_font_size := font_size in
            let effective_font_size :=
              if 1 <=? bold_level
              then int (inject_Z effective_font_size * (11 # 10))
              else effective_font_size in
            let effective_font_size :=
              if 2 <=? bold_level
              then int (inject_Z effective_font_size * (115 # 100))
              else effective_font_size in
            f <- _load_pil_font_with_bold W custom_fonts
                   (Region.font_family r) effective_font_size bold_level ;;
            let wrap_width := wrap_width_of text_x1 text_x2 margin in
            text_lines <- wrap W r wrap_width font_size f ;;
            let available_height := text_y2 - text_y1 in
            fit <- fit_height_hires W custom_fonts r wrap_width
                     available_height font_size effective_font_size f
                     text_lines ;;
            let start_y :=
              text_y1 + (available_height - fit_total fit) / 2 in
            ret (Laid {| font_used := fit_font fit;
                         font_size_used := fit_font_size fit;
                         text_lines := fit_lines fit;
                         line_height := fit_line_height fit;
                         start_y := start_y;
                         ops := background r (x1, y1, x2, y2)
                                ++ draw_lines
                                     (draw_line_screen r (fit_font fit)
                                        (fit_font_size fit) text_x1 text_x2
                                        text_y2 start_y
                                        (fit_line_height fit))
                                     0 (fit_lines fit) |})
    end.

(** The body of [for i, region in enumerate(text_regions)] of
    [update_display_with_preview]; [shape] is the shape of the image
    shown, [pil] and [show] are as for [draw_korean_text_optimized]. *)
Definition preview_region (shape : Z * Z) (pil show : bool) (r : Region.t)
    : M rendered :=
  if negb (Region.visible r) then ret Nothing
  else if Region.is_positioned r then
    match Region.target_bbox r with
    | Some b => draw_korean_text_optimized W custom_fonts shape pil show r b
    | None => ret Nothing
    end
  else ret Nothing.

(** What a renderer may ask for: a font of size eight at least, a wrap
    to a width of ten at least. *)
Definition sane_call (c : call) : Prop :=
  match c with
  | LoadFont _ font_size => 8 <= font_size
  | LoadBoldFont _ font_size _ => 8 <= font_size
  | WrapText _ max_width font_size _ => 10 <= max_width /\ 8 <= font_size
  end.

(** [current_text_regions] of the two exports. *)
Definition current_text_regions (current_filename : option string)
    (text_regions : list Region.t) : list Region.t :=
  filter
    (fun region =>
       match Region.image_filename region, current_filename with
       | Some n, Some m => String.eqb n m
       | None, None => true
       | _, _ => false
       end)
    text_regions.

End Body.

End SaveScreen.

(** ** A page with one note *)

Module Fixture.

Import Py.

(** [os.path.basename] on a bare file name. *)
Definition basename (p : string) : string := p.

Definition page : string := "page.png".

(** A line as the OCR hands it over, not placed yet. *)
Definition loose_note : Region.t :=
  Tool.TextRegion (lit "ab cd") 18 (0, 0, 0) "Courier New" 2.

(** The same note placed on the page, in a box of 30 by 30. *)
Definition note : Region.t :=
  Tool.placed loose_note (Some (10, 10, 40, 40)) true (Some page).

End Fixture.

(** * Proofs *)

(** ** Arithmetic of the modelled floats *)

Lemma int_inject_Z (z : Z) : Py.int (inject_Z z) = z.
Proof.
  unfold Py.int. destruct (Qle_bool 0 (inject_Z z)).
  - apply Qfloor_Z.
  - apply Qceiling_Z.
Qed.

Lemma int_nonneg (x : Q) : (0 <= x)%Q -> Py.int x = Qfloor x.
Proof.
  intros H. unfold Py.int. apply Qle_bool_iff in H. now rewrite H.
Qed.


Lemma int_scaled (a p : Z) (q : positive) :
  0 <= a -> 0 <= p -> Py.int (inject_Z a * (p # q)) = a * p / Zpos q.
Proof.
  intros Ha Hp. rewrite int_nonneg.
  - unfold Qfloor, Qmult, inject_Z. simpl. reflexivity.
  - unfold Qle, Qmult, inject_Z. simpl. nia.
Qed.

Lemma int_ratio (a b c : Z) :
  0 <= a -> 0 <= b -> 0 < c ->
  Py.int (inject_Z a * (inject_Z b / inject_Z c)) = a * b / c.
Proof.
  intros Ha Hb Hc. destruct c as [|c|c]; try lia.
  rewrite int_nonneg.
  - unfold Qfloor, Qmult, Qdiv, Qinv, inject_Z. simpl.
    rewrite Z.mul_1_r. reflexivity.
  - unfold Qle, Qmult, Qdiv, Qinv, inject_Z. simpl. nia.
Qed.

(** ** The wrapping engines *)

Section Wrapping.

Import Py Wrap Sample.

Lemma read_word_rest_length (s : str) :
  (List.length (snd (read_word s)) <= List.length s)%nat.
Proof.
  induction s as [|c tl IH]; simpl; [lia|].
  destruct (in_word c); simpl; [|lia].
  destruct (read_word tl) as [w r]. simpl in *. lia.
Qed.

Lemma wrap_loop_finishes W max_width font_size f :
  forall fuel rest st,
    (List.length rest <= fuel)%nat ->
    finished (wrap_loop W max_width font_size f fuel rest st).
Proof.
  induction fuel as [|fuel IH]; intros rest st Hlen.
  - destruct rest; simpl in *; [exact I | lia].
  - destruct rest as [|ch tl]; [exact I|].
    cbn [wrap_loop]. simpl in Hlen.
    destruct (ch =? newline)%N.
    + apply IH. lia.
    + destruct (_is_korean ch || isspace ch) eqn:Hk.
      * destruct (place _ _ _ _ _ _ _); [apply IH; lia | exact I].
      * apply orb_false_iff in Hk. destruct Hk as [Hk Hs].
        pose proof (read_word_rest_length tl) as Hr.
        cbn [read_word]. unfold in_word. rewrite Hk, Hs. cbn [negb andb].
        destruct (read_word tl) as [w r]. cbn [snd] in Hr.
        destruct (place _ _ _ _ _ _ _); [apply IH; lia | exact I].
Qed.

Lemma wrap_text_for_box_try_finishes W text max_width font_size f :
  finished (wrap_text_for_box_try W text max_width font_size f).
Proof.
  unfold wrap_text_for_box_try.
  destruct (is_blank text); [exact I|].
  pose proof (wrap_loop_finishes W max_width font_size f
                (List.length text) text start (le_n _)) as H.
  destruct (wrap_loop _ _ _ _ _ _ _); [exact I | exact I | exact H].
Qed.

Lemma wrap_text_for_box_nonempty W text max_width font_size f :
  wrap_text_for_box W text max_width font_size f <> [].
Proof.
  unfold wrap_text_for_box, wrap_text_for_box_try.
  destruct (is_blank text); [discriminate|].
  destruct (wrap_loop _ _ _ _ _ _ _) as [st| |]; try discriminate.
  destruct (truthy (current_line st)).
  - destruct (lines st ++ [current_line st]) eqn:E; [|discriminate].
    now apply app_eq_nil in E.
  - destruct (lines st); discriminate.
Qed.

Lemma wrap_text_for_overlay_safe_word_nonempty W text max_width font_size f :
  wrap_text_for_overlay_safe_word W text max_width font_size f <> [].
Proof.
  unfold wrap_text_for_overlay_safe_word, wrap_text_for_overlay_safe_word_try.
  destruct (is_blank text); [discriminate|].
  destruct (image_new_ok _ _ _); [|discriminate].
  destruct (fold_left _ _ _); discriminate.
Qed.

Lemma wrap_blank W text max_width font_size f fo :
  is_blank text = true ->
  wrap_text_for_box W text max_width font_size f = [[]]
  /\ wrap_text_for_overlay_safe_word W text max_width font_size fo = [[]].
Proof.
  intros H.
  unfold wrap_text_for_box, wrap_text_for_box_try,
    wrap_text_for_overlay_safe_word, wrap_text_for_overlay_safe_word_try.
  now rewrite H.
Qed.

Lemma visible_chars_app (a b : str) :
  visible_chars (a ++ b) = visible_chars a ++ visible_chars b.
Proof. apply filter_app. Qed.

Lemma visible_chars_blank (s : str) :
  is_blank s = true -> visible_chars s = [].
Proof.
  induction s as [|c tl IH]; simpl; [reflexivity|].
  intros H. apply andb_true_iff in H. destruct H as [Hc Htl].
  rewrite Hc. simpl. auto.
Qed.

Lemma visible_chars_space (c : char) (s : str) :
  isspace c = true -> visible_chars (c :: s) = visible_chars s.
Proof. intros H. unfold visible_chars. simpl. now rewrite H. Qed.

Lemma visible_chars_split_ws_from (s : str) :
  forall cur,
    visible_chars (List.concat (split_ws_from cur s)) = visible_chars (cur ++ s).
Proof.
  induction s as [|c tl IH]; intros cur; cbn [split_ws_from].
  - destruct cur; cbn [truthy List.concat]; now rewrite !app_nil_r.
  - destruct (isspace c) eqn:Hc.
    + rewrite visible_chars_app, (visible_chars_space c tl Hc).
      destruct cur as [|d cur']; cbn [truthy List.concat].
      * now rewrite IH.
      * now rewrite visible_chars_app, IH.
    + now rewrite IH, <- app_assoc.
Qed.

Lemma split_on_nonempty sep (s : str) : split_on sep s <> [].
Proof.
  destruct s as [|c tl]; simpl; [discriminate|].
  destruct (c =? sep)%N; [discriminate|].
  destruct (split_on sep tl); discriminate.
Qed.

Lemma visible_chars_split_on_newline (s : str) :
  visible_chars (List.concat (split_on newline s)) = visible_chars s.
Proof.
  induction s as [|c tl IH]; [reflexivity|].
  cbn [split_on]. destruct (c =? newline)%N eqn:Hc.
  - apply N.eqb_eq in Hc. subst c. cbn [List.concat app].
    now rewrite visible_chars_space.
  - pose proof (split_on_nonempty newline tl) as Hne.
    destruct (split_on newline tl) as [|p ps]; [contradiction|].
    cbn [List.concat] in *.
    change ((c :: p) ++ List.concat ps) with ([c] ++ (p ++ List.concat ps)).
    change (c :: tl) with ([c] ++ tl).
    now rewrite !(visible_chars_app [c]), IH.
Qed.

Lemma add_word_visible W max_width font_size f ls cur w :
  let (ls', cur') := add_word W max_width font_size f (ls, cur) w in
  visible_chars (List.concat ls' ++ cur')
  = visible_chars (List.concat ls ++ cur) ++ visible_chars w.
Proof.
  unfold add_word.
  destruct (Qle_bool _ _).
  - destruct (truthy cur).
    + rewrite !visible_chars_app.
      rewrite (visible_chars_space space []) by reflexivity.
      cbn [visible_chars filter app]. now rewrite <- app_assoc.
    + cbn [app]. now rewrite !visible_chars_app, <- app_assoc.
  - destruct cur as [|d cur']; cbn [truthy].
    + rewrite concat_app. cbn [List.concat].
      now rewrite !app_nil_r, visible_chars_app.
    + rewrite concat_app. cbn [List.concat].
      now rewrite !app_nil_r, !visible_chars_app.
Qed.

Lemma add_words_visible W max_width font_size f (ws : list str) :
  forall ls cur,
    let (ls', cur') :=
      fold_left (add_word W max_width font_size f) ws (ls, cur) in
    visible_chars (List.concat ls' ++ cur')
    = visible_chars (List.concat ls ++ cur) ++ visible_chars (List.concat ws).
Proof.
  induction ws as [|w ws IH]; intros ls cur; cbn [fold_left List.concat].
  - now rewrite app_nil_r.
  - pose proof (add_word_visible W max_width font_size f ls cur w) as Hw.
    destruct (add_word W max_width font_size f (ls, cur) w) as [ls1 cur1].
    specialize (IH ls1 cur1).
    destruct (fold_left _ ws (ls1, cur1)) as [ls2 cur2].
    rewrite IH, Hw, (visible_chars_app w), <- app_assoc. reflexivity.
Qed.

Lemma add_paragraph_visible W max_width font_size f ls p :
  visible_chars (List.concat (add_paragraph W max_width font_size f ls p))
  = visible_chars (List.concat ls) ++ visible_chars p.
Proof.
  unfold add_paragraph. destruct (is_blank p) eqn:Hb.
  - rewrite concat_app, visible_chars_app. simpl.
    now rewrite (visible_chars_blank p Hb).
  - pose proof (add_words_visible W max_width font_size f
                  (split_ws p) ls []) as H.
    destruct (fold_left _ _ _) as [ls' cur'].
    rewrite !app_nil_r in H.
    unfold split_ws in H. rewrite visible_chars_split_ws_from in H.
    simpl in H. rewrite <- H.
    destruct cur' as [|d c']; simpl.
    + now rewrite app_nil_r.
    + rewrite concat_app. simpl. now rewrite app_nil_r.
Qed.

Lemma add_paragraphs_visible W max_width font_size f (ps : list str) :
  forall ls,
    visible_chars
      (List.concat (fold_left (add_paragraph W max_width font_size f) ps ls))
    = visible_chars (List.concat ls) ++ visible_chars (List.concat ps).
Proof.
  induction ps as [|p ps IH]; intros ls; simpl.
  - now rewrite app_nil_r.
  - rewrite IH, add_paragraph_visible, visible_chars_app, <- app_assoc.
    reflexivity.
Qed.

Lemma word_wrap_keeps_visible_chars W text max_width font_size fo :
  visible_chars
    (List.concat (wrap_text_for_overlay_safe_word W text max_width font_size fo))
  = visible_chars text.
Proof.
  unfold wrap_text_for_overlay_safe_word, wrap_text_for_overlay_safe_word_try.
  destruct (is_blank text) eqn:Hb.
  - simpl. now rewrite (visible_chars_blank text Hb).
  - destruct (image_new_ok _ _ _).
    + match goal with
      | |- context [fold_left ?g ?ps ?l0] =>
          pose proof (add_paragraphs_visible W (Z.max 20 max_width)
                        (Z.max 6 font_size)
                        (match fo with Some f => f | None => DefaultFont end)
                        ps l0) as H
      end.
      simpl in H. rewrite visible_chars_split_on_newline in H.
      destruct (fold_left _ _ _) as [|l ls] eqn:E.
      * simpl. now rewrite app_nil_r.
      * exact H.
    + simpl. now rewrite app_nil_r.
Qed.

(** ** The word wrap never needs more lines in a wider box

    This holds for a font in which dropping leading characters never
    widens a line, and when the scratch image can be made. *)

Section Monotone.

Variable W : World.
Variable f : font.
Variable font_size : Z.
Variables w1 w2 : Z.

Hypothesis narrower :
  forall pre s,
    (measured_width W f font_size s
     <= measured_width W f font_size (pre ++ s))%Q.
Hypothesis wider : w1 <= w2.

Lemma fits_wider a b :
  (exists pre, a = pre ++ b) ->
  Qle_bool (measured_width W f font_size a) (inject_Z w1) = true ->
  Qle_bool (measured_width W f font_size b) (inject_Z w2) = true.
Proof.
  intros [pre ->] H. apply Qle_bool_iff in H. apply Qle_bool_iff.
  eapply Qle_trans; [apply narrower|].
  eapply Qle_trans; [exact H|].
  rewrite <- Zle_Qle. exact wider.
Qed.

Lemma tail_of_test_line cur2 cur1 w :
  tail_of cur2 cur1 ->
  tail_of (cur2 ++ (if truthy cur2 then [space] else []) ++ w)
          (cur1 ++ (if truthy cur1 then [space] else []) ++ w)
  /\ exists pre,
       cur1 ++ (if truthy cur1 then [space] else []) ++ w
       = pre ++ cur2 ++ (if truthy cur2 then [space] else []) ++ w.
Proof.
  intros [-> | [-> | [pre ->]]].
  - cbn [truthy app]. split.
    + destruct cur1 as [|c cur1]; cbn [truthy].
      * right. left. reflexivity.
      * right. right. exists (c :: cur1). reflexivity.
    + exists (cur1 ++ (if truthy cur1 then [space] else [])).
      now rewrite <- app_assoc.
  - split; [right; left; reflexivity | exists []; reflexivity].
  - assert (Ht : truthy (pre ++ space :: cur2) = true)
      by (destruct pre; reflexivity).
    rewrite Ht.
    destruct cur2 as [|c cur2]; cbn [truthy].
    + split.
      * right. right. exists (pre ++ [space]).
        rewrite <- !app_assoc. reflexivity.
      * exists (pre ++ [space] ++ [space]).
        rewrite <- !app_assoc. reflexivity.
    + split.
      * right. right. exists pre.
        rewrite <- !app_assoc. reflexivity.
      * exists (pre ++ [space]). rewrite <- !app_assoc. reflexivity.
Qed.

Lemma add_word_ahead s2 s1 w :
  ahead s2 s1 ->
  ahead (add_word W w2 font_size f s2 w) (add_word W w1 font_size f s1 w).
Proof.
  destruct s2 as [ls2 cur2], s1 as [ls1 cur1]. unfold ahead.
  cbn [fst snd]. intros [Hlt | [Heq Ht]].
  - unfold add_word.
    destruct (Qle_bool _ (inject_Z w2)); destruct (Qle_bool _ (inject_Z w1));
      cbn [fst snd].
    + left. exact Hlt.
    + left. destruct (truthy cur1); cbn [fst snd];
        rewrite length_app; cbn [List.length]; lia.
    + destruct (truthy cur2) eqn:E2; cbn [fst snd];
        rewrite length_app; cbn [List.length].
      * destruct (Nat.eq_dec (List.length ls2 + 1) (List.length ls1))
          as [He | Hne]; [|left; lia].
        right. split; [exact He|].
        destruct cur1 as [|c cur1]; cbn [truthy app].
        -- right. left. reflexivity.
        -- right. right. exists (c :: cur1). reflexivity.
      * destruct (Nat.eq_dec (List.length ls2 + 1) (List.length ls1))
          as [He | Hne]; [|left; lia].
        right. split; [exact He | left; reflexivity].
    + left.
      destruct (truthy cur2); destruct (truthy cur1); cbn [fst snd];
        rewrite !length_app; cbn [List.length]; lia.
  - pose proof (tail_of_test_line cur2 cur1 w Ht) as [Htl Hsuf].
    unfold add_word.
    destruct (Qle_bool _ (inject_Z w1)) eqn:F1.
    + rewrite (fits_wider _ _ Hsuf F1). cbn [fst snd].
      right. split; [exact Heq | exact Htl].
    + destruct (Qle_bool _ (inject_Z w2)) eqn:F2.
      * left. destruct (truthy cur1); cbn [fst snd];
          rewrite length_app; cbn [List.length]; lia.
      * right.
        destruct cur1 as [|c1 cur1].
        -- assert (cur2 = []) as ->.
           { destruct Ht as [H | [H | [pre H]]]; try exact H.
             destruct pre; discriminate. }
           cbn [truthy fst snd]. rewrite !length_app. cbn [List.length].
           split; [lia | left; reflexivity].
        -- destruct cur2 as [|c2 cur2]; cbn [truthy fst snd];
             rewrite !length_app; cbn [List.length].
           ++ split; [lia | left; reflexivity].
           ++ split; [lia | right; left; reflexivity].
Qed.

Lemma add_words_ahead (ws : list str) :
  forall s2 s1,
    ahead s2 s1 ->
    ahead (fold_left (add_word W w2 font_size f) ws s2)
          (fold_left (add_word W w1 font_size f) ws s1).
Proof.
  induction ws as [|w ws IH]; intros s2 s1 H; cbn [fold_left];
    [exact H|].
  apply IH. now apply add_word_ahead.
Qed.

Lemma add_paragraph_length ls2 ls1 p :
  (List.length ls2 <= List.length ls1)%nat ->
  (List.length (add_paragraph W w2 font_size f ls2 p)
   <= List.length (add_paragraph W w1 font_size f ls1 p))%nat.
Proof.
  intros H. unfold add_paragraph.
  destruct (is_blank p).
  - rewrite !length_app. cbn [List.length]. lia.
  - assert (Ha : ahead (ls2, []) (ls1, [])).
    { unfold ahead. cbn [fst snd].
      destruct (Nat.eq_dec (List.length ls2) (List.length ls1));
        [right; split; [assumption | left; reflexivity] | left; lia]. }
    apply (add_words_ahead (split_ws p)) in Ha.
    destruct (fold_left (add_word W w2 font_size f) _ _) as [l2 c2].
    destruct (fold_left (add_word W w1 font_size f) _ _) as [l1 c1].
    unfold ahead in Ha. cbn [fst snd] in Ha.
    destruct Ha as [Hlt | [Heq Ht]].
    + destruct (truthy c2); destruct (truthy c1);
        rewrite ?length_app; cbn [List.length]; lia.
    + destruct c2 as [|d c2]; cbn [truthy].
      * destruct (truthy c1); rewrite ?length_app; cbn [List.length]; lia.
      * assert (truthy c1 = true) as ->.
        { destruct Ht as [H1 | [<- | [pre ->]]];
            [discriminate | reflexivity | destruct pre; reflexivity]. }
        rewrite !length_app. cbn [List.length]. lia.
Qed.

Lemma add_paragraphs_length (ps : list str) :
  forall ls2 ls1,
    (List.length ls2 <= List.length ls1)%nat ->
    (List.length (fold_left (add_paragraph W w2 font_size f) ps ls2)
     <= List.length (fold_left (add_paragraph W w1 font_size f) ps ls1))%nat.
Proof.
  induction ps as [|p ps IH]; intros ls2 ls1 H; cbn [fold_left];
    [exact H|].
  apply IH. now apply add_paragraph_length.
Qed.

End Monotone.

Lemma word_wrap_monotone W text fo font_size w1 w2 :
  (forall pre s,
     (measured_width W
        (match fo with Some f => f | None => DefaultFont end)
        (Z.max 6 font_size) s
      <= measured_width W
           (match fo with Some f => f | None => DefaultFont end)
           (Z.max 6 font_size) (pre ++ s))%Q) ->
  image_new_ok W (Z.max 20 w1 * 2) (Z.max 6 font_size * 3) = true ->
  w1 <= w2 ->
  (List.length (wrap_text_for_overlay_safe_word W text w2 font_size fo)
   <= List.length
        (wrap_text_for_overlay_safe_word W text w1 font_size fo))%nat.
Proof.
  intros Hn Himg Hw.
  unfold wrap_text_for_overlay_safe_word,
    wrap_text_for_overlay_safe_word_try.
  destruct (is_blank text); [reflexivity|].
  rewrite Himg.
  pose proof (add_paragraphs_length W _ _ (Z.max 20 w1) (Z.max 20 w2) Hn
                ltac:(lia) (split_on newline text) [] []
                (le_n _)) as H.
  destruct (image_new_ok W (Z.max 20 w2 * 2) _).
  - destruct (fold_left _ _ _) as [|a l2];
      destruct (fold_left _ _ _) as [|b l1]; cbn [List.length] in *; lia.
  - clear H.
    destruct (fold_left _ _ _) as [|b l1]; cbn [List.length]; lia.
Qed.

Lemma monospace_narrower f font_size pre s :
  (measured_width monospace f font_size s
   <= measured_width monospace f font_size (pre ++ s))%Q.
Proof.
  unfold measured_width, monospace. cbn [textlength].
  rewrite <- Zle_Qle. unfold len. rewrite length_app. lia.
Qed.

Lemma word_wrap_monotone_monospace text fo font_size w1 w2 :
  0 <= w1 <= 1000 -> 0 <= font_size <= 1000 -> w1 <= w2 ->
  (List.length (wrap_text_for_overlay_safe_word monospace text w2 font_size fo)
   <= List.length
        (wrap_text_for_overlay_safe_word monospace text w1 font_size fo))%nat.
Proof.
  intros H1 Hs Hw. apply word_wrap_monotone; [|  | exact Hw].
  - intros pre s. apply monospace_narrower.
  - unfold monospace. cbn [image_new_ok].
    apply andb_true_iff. split; [apply andb_true_iff; split|].
    + apply Z.leb_le. lia.
    + apply Z.leb_le. lia.
    + apply Z.ltb_lt. change (2 ^ 31) with 2147483648. nia.
Qed.

End Wrapping.

(** ** The font loaders follow their chains *)

Lemma try_paths_chain W size rest :
  forall paths,
    Chain.first_loadable W (Chain.bundled W paths ++ rest) size
    = match Fonts.try_paths W paths size with
      | Some f => f
      | None => Chain.first_loadable W rest size
      end.
Proof.
  induction paths as [|p ps IH]; [reflexivity|].
  cbn [Chain.bundled map app Chain.first_loadable Fonts.try_paths].
  destruct (path_exists W p); cbn [andb]; [|exact IH].
  destruct (truetype_ok W (Fonts.resource_path W p) size);
    [reflexivity | exact IH].
Qed.

Lemma try_candidates_chain W size rest :
  forall paths,
    Chain.first_loadable W (Chain.direct paths ++ rest) size
    = match Fonts.try_candidates W paths size with
      | Some f => f
      | None => Chain.first_loadable W rest size
      end.
Proof.
  induction paths as [|p ps IH]; [reflexivity|].
  unfold Chain.direct in *.
  cbn [filter Fonts.try_candidates].
  destruct (negb (String.eqb p "")); cbn [andb]; [|exact IH].
  cbn [map app Chain.first_loadable].
  destruct (path_exists W p); cbn [andb]; [|exact IH].
  destruct (truetype_ok W p size); [reflexivity | exact IH].
Qed.

Lemma load_font_for_overlay_chain W font_family font_size custom_fonts :
  Fonts.load_font_for_overlay W font_family font_size custom_fonts
  = Chain.first_loadable W
      (Chain.plain_chain W font_family custom_fonts) font_size.
Proof.
  unfold Fonts.load_font_for_overlay, Chain.plain_chain.
  assert (Hc : forall rest,
             Chain.first_loadable W
               (Chain.custom_candidates font_family custom_fonts ++ rest)
               font_size
             = match Fonts.load_custom W font_family font_size custom_fonts
               with
               | Some f => f
               | None => Chain.first_loadable W rest font_size
               end).
  { intros rest. unfold Chain.custom_candidates, Fonts.load_custom.
    destruct custom_fonts as [d|]; [|reflexivity].
    destruct (Fonts.get d font_family) as [p|]; [|reflexivity].
    cbn [app Chain.first_loadable].
    destruct (path_exists W p); cbn [andb]; [|reflexivity].
    destruct (truetype_ok W p font_size); reflexivity. }
  rewrite Hc.
  destruct (Fonts.load_custom W font_family font_size custom_fonts);
    [reflexivity|].
  unfold Chain.family_candidates.
  destruct (Fonts.font_paths W font_family) as [paths|].
  - rewrite try_paths_chain.
    destruct (Fonts.try_paths W paths font_size); [reflexivity|].
    rewrite <- (app_nil_r (Chain.bundled W (Fonts.default_font_paths W))).
    rewrite try_paths_chain. reflexivity.
  - cbn [app].
    rewrite <- (app_nil_r (Chain.bundled W (Fonts.default_font_paths W))).
    rewrite try_paths_chain. reflexivity.
Qed.

Lemma load_pil_font_with_bold_chain W custom_fonts font_family font_size
    bold_level :
  Fonts._load_pil_font_with_bold W custom_fonts font_family font_size
    bold_level
  = Chain.first_loadable W
      (Chain.bold_chain W font_family bold_level custom_fonts) font_size.
Proof.
  unfold Fonts._load_pil_font_with_bold, Chain.bold_chain.
  rewrite try_candidates_chain, load_font_for_overlay_chain. reflexivity.
Qed.

Lemma first_loadable_usable W size :
  forall cands, Fonts.usable W (Chain.first_loadable W cands size).
Proof.
  induction cands as [|[tested opened] rest IH]; [exact I|].
  cbn [Chain.first_loadable].
  destruct (path_exists W tested); cbn [andb]; [|exact IH].
  destruct (truetype_ok W opened size) eqn:E; [exact E | exact IH].
Qed.

Lemma first_loadable_same_files W W' size :
  Fonts.same_files W W' ->
  forall cands,
    Chain.first_loadable W cands size = Chain.first_loadable W' cands size.
Proof.
  intros (He & Ht & _) cands.
  induction cands as [|[tested opened] rest IH]; [reflexivity|].
  cbn [Chain.first_loadable]. now rewrite He, Ht, IH.
Qed.

Lemma resource_path_same_files W W' p :
  Fonts.same_files W W' -> Fonts.resource_path W p = Fonts.resource_path W' p.
Proof.
  intros (_ & _ & Hj & Hb & _). unfold Fonts.resource_path.
  now rewrite Hj, Hb.
Qed.

Lemma plain_chain_same_files W W' font_family custom_fonts :
  Fonts.same_files W W' ->
  Chain.plain_chain W font_family custom_fonts
  = Chain.plain_chain W' font_family custom_fonts.
Proof.
  intros H. unfold Chain.plain_chain, Chain.family_candidates,
    Fonts.font_paths, Fonts.default_font_paths, Chain.bundled.
  rewrite !(resource_path_same_files W W' _ H).
  f_equal. f_equal.
  - repeat (match goal with
            | |- context [if ?b then _ else _] => destruct b
            end; try (apply map_ext; intros;
                      now rewrite (resource_path_same_files W W' _ H))).
    reflexivity.
  - apply map_ext. intros.
    now rewrite (resource_path_same_files W W' _ H).
Qed.

Lemma candidate_paths_same_files W W' font_family bold_level :
  Fonts.same_files W W' ->
  Fonts.candidate_paths W font_family bold_level
  = Fonts.candidate_paths W' font_family bold_level.
Proof.
  intros H. pose proof H as (_ & _ & Hj & _ & Hl).
  unfold Fonts.candidate_paths, Fonts.extra_paths, Fonts.bold_paths,
    Fonts.base_paths, Fonts.user_font, Fonts.local_appdata.
  now rewrite !(resource_path_same_files W W' _ H), !Hj, Hl.
Qed.

Lemma loaders_same_files W W' custom_fonts font_family font_size bold_level :
  Fonts.same_files W W' ->
  Fonts.load_font_for_overlay W font_family font_size custom_fonts
  = Fonts.load_font_for_overlay W' font_family font_size custom_fonts
  /\ Fonts._load_pil_font_with_bold W custom_fonts font_family font_size
       bold_level
     = Fonts._load_pil_font_with_bold W' custom_fonts font_family font_size
         bold_level.
Proof.
  intros H.
  rewrite !load_pil_font_with_bold_chain, !load_font_for_overlay_chain.
  unfold Chain.bold_chain.
  rewrite (plain_chain_same_files W W' _ _ H),
    (candidate_paths_same_files W W' _ _ H).
  split; apply first_loadable_same_files; exact H.
Qed.

(** ** Editing and box fit *)

Section Fitting.

Import Py BoxFit.

(** C6 *)
Lemma safe_clamp_within img_h img_w b :
  2 <= img_h -> 2 <= img_w ->
  Edit.within (img_h, img_w) (Edit.safe_clamp (img_h, img_w) b)
  /\ 1 <= Edit.width (Edit.safe_clamp (img_h, img_w) b)
  /\ 1 <= Edit.height (Edit.safe_clamp (img_h, img_w) b).
Proof.
  intros Hh Hw. destruct b as [[[x1 y1] x2] y2].
  unfold Edit.within, Edit.safe_clamp, Edit.width, Edit.height. lia.
Qed.

Lemma box_font_size_bounds box_height size :
  8 <= box_font_size box_height size
  /\ box_font_size box_height size
     <= Z.max 8 (int (inject_Z box_height * (6 # 10))).
Proof. unfold box_font_size. lia. Qed.

Lemma box_cap_from_14 box_height :
  14 <= box_height -> 8 <= int (inject_Z box_height * (6 # 10)).
Proof.
  intros H. rewrite int_scaled by lia.
  apply Z.div_le_lower_bound; lia.
Qed.

Lemma text_rect_positive x1 y1 x2 y2 margin font_size :
  let '(text_x1, text_y1, text_x2, text_y2) :=
    text_rect (x1, y1, x2, y2) margin font_size in
  text_x1 < text_x2 /\ text_y1 < text_y2.
Proof.
  unfold text_rect.
  destruct ((x2 - margin <=? x1 + margin) || (y2 - margin <=? y1 + margin))
    eqn:E.
  - lia.
  - apply orb_false_iff in E. lia.
Qed.

Lemma scaled_down font_size available_height total :
  8 <= font_size -> 0 < available_height -> available_height < total ->
  let s := Z.max 8
             (int (inject_Z font_size
                   * (inject_Z available_height / inject_Z total))) in
  s = Z.max 8 (font_size * available_height / total)
  /\ 8 <= s <= font_size.
Proof.
  intros Hf Ha Ht. cbv zeta. rewrite int_ratio by lia.
  split; [reflexivity|]. split; [lia|].
  apply Z.max_lub; [lia|].
  apply Z.div_le_upper_bound; [lia|]. nia.
Qed.

Lemma fit_height_bounds W cf r wrap_width available_height font_size f ls :
  8 <= font_size -> 0 < available_height ->
  8 <= fit_font_size
         (value (fit_height W cf r wrap_width available_height font_size f ls))
    <= font_size.
Proof.
  intros Hf Ha. unfold fit_height, value.
  destruct (available_height <? _); [|simpl; lia].
  destruct (available_height <? _) eqn:E; [|simpl; lia].
  apply Z.ltb_lt in E.
  pose proof (scaled_down font_size available_height _ Hf Ha E) as [_ Hs].
  cbv zeta in Hs. simpl. exact Hs.
Qed.

Lemma fit_height_hires_bounds W cf r wrap_width available_height font_size
    eff f ls :
  8 <= font_size -> 0 < available_height ->
  8 <= fit_font_size
         (value (fit_height_hires W cf r wrap_width available_height
                   font_size eff f ls))
    <= font_size.
Proof.
  intros Hf Ha. unfold fit_height_hires, value.
  destruct (available_height <? _); [|simpl; lia].
  destruct (available_height <? _) eqn:E; [|simpl; lia].
  apply Z.ltb_lt in E.
  pose proof (scaled_down font_size available_height _ Hf Ha E) as [_ Hs].
  cbv zeta in Hs. destruct (Region.bold r); simpl; exact Hs.
Qed.

Lemma clamp_box_size img_width img_height b :
  let '(x1, y1, x2, y2) := clamp_box img_width img_height b in
  2 <= x2 - x1 /\ 2 <= y2 - y1.
Proof.
  destruct b as [[[x1 y1] x2] y2]. unfold clamp_box. lia.
Qed.

Lemma draw_korean_text_font_size W cf img_h img_w r b l c :
  draw_korean_text W cf (img_h, img_w) r b = (Laid l, c) ->
  let '(x1, y1, x2, y2) := clamp_box img_w img_h b in
  8 <= font_size_used l <= box_font_size (y2 - y1) (Region.font_size r).
Proof.
  unfold draw_korean_text.
  pose proof (clamp_box_size img_w img_h b) as Hb.
  destruct (clamp_box img_w img_h b) as [[[x1 y1] x2] y2].
  destruct ((x2 - x1 <? 2) || (y2 - y1 <? 2)); [discriminate|].
  pose proof (text_rect_positive x1 y1 x2 y2 (Region.margin r)
                (box_font_size (y2 - y1) (Region.font_size r))) as Hr.
  destruct (text_rect _ _ _) as [[[tx1 ty1] tx2] ty2].
  unfold bind, load_font_for_overlay, wrap, ret.
  match goal with
  | |- context [fit_height ?a ?b ?c ?d ?e ?f ?g ?h] =>
      pose proof (fit_height_bounds a b c d e f g h
                    (proj1 (box_font_size_bounds _ _)) ltac:(lia)) as Hf;
      unfold value in Hf;
      destruct (fit_height a b c d e f g h) as [fit t]
  end.
  intros H. injection H as H _. subst l. cbn [font_size_used].
  exact Hf.
Qed.

Lemma draw_korean_text_optimized_font_size W cf img_h img_w pil show r b l c :
  draw_korean_text_optimized W cf (img_h, img_w) pil show r b = (Laid l, c) ->
  let '(x1, y1, x2, y2) := clamp_box img_w img_h b in
  8 <= font_size_used l <= box_font_size (y2 - y1) (Region.font_size r).
Proof.
  unfold draw_korean_text_optimized.
  pose proof (clamp_box_size img_w img_h b) as Hb.
  destruct (clamp_box img_w img_h b) as [[[x1 y1] x2] y2].
  destruct ((x2 - x1 <? 2) || (y2 - y1 <? 2)); [discriminate|].
  destruct pil; cbn [negb]; [|discriminate].
  pose proof (text_rect_positive x1 y1 x2 y2 (Region.margin r)
                (box_font_size (y2 - y1) (Region.font_size r))) as Hr.
  destruct (text_rect _ _ _) as [[[tx1 ty1] tx2] ty2].
  unfold bind, load_font_for_overlay, wrap, ret.
  destruct (Region.bold r);
    match goal with
    | |- context [fit_height ?a ?b ?c ?d ?e ?f ?g ?h] =>
        pose proof (fit_height_bounds a b c d e f g h
                      (proj1 (box_font_size_bounds _ _)) ltac:(lia)) as Hf;
        unfold value in Hf;
        destruct (fit_height a b c d e f g h) as [fit t]
    end;
    intros H; injection H as H _; subst l; cbn [font_size_used];
    exact Hf.
Qed.

Lemma hires_region_font_size W cf img_h img_w r b l c :
  hires_region W cf (img_h, img_w) r = (Laid l, c) ->
  Region.target_bbox r = Some b ->
  let '(bx1, by1, bx2, by2) := b in
  let '(x1, y1, x2, y2) :=
    clamp_box (img_w * 2) (img_h * 2) (bx1 * 2, by1 * 2, bx2 * 2, by2 * 2) in
  8 <= font_size_used l <= box_font_size (y2 - y1) (Region.font_size r * 2).
Proof.
  unfold hires_region. intros H Hb. rewrite Hb in H.
  destruct b as [[[bx1 by1] bx2] by2].
  destruct (Region.is_positioned r); cbn [negb] in H; [|discriminate].
  pose proof (clamp_box_size (img_w * 2) (img_h * 2)
                (bx1 * 2, by1 * 2, bx2 * 2, by2 * 2)) as Hc.
  destruct (clamp_box _ _ _) as [[[x1 y1] x2] y2].
  destruct ((x2 - x1 <? 2) || (y2 - y1 <? 2)); [discriminate|].
  pose proof (text_rect_positive x1 y1 x2 y2 (Region.margin r * 2)
                (box_font_size (y2 - y1) (Region.font_size r * 2))) as Hr.
  destruct (text_rect _ _ _) as [[[tx1 ty1] tx2] ty2].
  unfold bind, _load_pil_font_with_bold, wrap, ret in H.
  match type of H with
  | context [fit_height_hires ?a ?b ?c ?d ?e ?f ?g ?h ?i] =>
      pose proof (fit_height_hires_bounds a b c d e f g h i
                    (proj1 (box_font_size_bounds _ _)) ltac:(lia)) as Hf;
      unfold value in Hf;
      destruct (fit_height_hires a b c d e f g h i) as [fit t]
  end.
  injection H as H _. subst l. cbn [font_size_used]. exact Hf.
Qed.

Lemma cap_cases box_height :
  0 <= box_height ->
  Z.max 8 (int (inject_Z box_height * (6 # 10)))
  = if 14 <=? box_height then int (inject_Z box_height * (6 # 10)) else 8.
Proof.
  intros H. destruct (14 <=? box_height) eqn:E.
  - apply Z.leb_le in E. pose proof (box_cap_from_14 _ E). lia.
  - apply Z.leb_gt in E. rewrite int_scaled by lia.
    assert (box_height * 6 / 10 < 8)
      by (apply Z.div_lt_upper_bound; lia).
    lia.
Qed.

(** C4 *)
Lemma truncate_over W f font_size text_x1 text_x2 line_text :
  forall n text_x,
    fst (truncate W f font_size text_x1 text_x2 true line_text n text_x)
    = 0%nat.
Proof.
  induction n as [|m IH]; intros text_x; [reflexivity|].
  cbn [truncate]. apply IH.
Qed.




End Fitting.

(** * The claims *)

Section Claims.

Import Py BoxFit Sample.

Lemma word_wrap_one_letter W max_width font_size fo :
  Wrap.wrap_text_for_overlay_safe_word W (lit "A") max_width font_size fo
  = [lit "A"].
Proof.
  unfold Wrap.wrap_text_for_overlay_safe_word,
    Wrap.wrap_text_for_overlay_safe_word_try.
  change (is_blank (lit "A")) with false. cbv iota.
  destruct (image_new_ok W _ _); [|reflexivity].
  change (split_on newline (lit "A")) with [lit "A"].
  cbn [fold_left]. unfold Wrap.add_paragraph.
  change (is_blank (lit "A")) with false. cbv iota.
  change (split_ws (lit "A")) with [lit "A"].
  cbn [fold_left]. unfold Wrap.add_word. cbn [truthy app].
  destruct (Qle_bool _ _); reflexivity.
Qed.

(** C1.  The render paths do not agree.  For a bold one-letter region in
    a 200 by 100 box, whatever the fonts on disk and whatever their
    metrics: the three paths break the text into the same single line,
    but the preview opens the font at size 22 where the older renderer
    opens it at 20, and the export at twice the resolution takes its
    line height from the inflated size, so that its line height and its
    first line position are not twice those of the preview. *)
Theorem render_paths_disagree_on_bold W cf :
  exists lp cp ll cl lh ch,
    draw_korean_text_optimized W cf (400, 400) true false bold_letter
      (0, 0, 200, 100) = (Laid lp, cp)
    /\ draw_korean_text W cf (400, 400) bold_letter (0, 0, 200, 100)
       = (Laid ll, cl)
    /\ hires_region W cf (400, 400) bold_letter = (Laid lh, ch)
    /\ text_lines lp = [lit "A"] /\ text_lines ll = [lit "A"]
    /\ text_lines lh = [lit "A"]
    /\ font_size_used lp = 20 /\ font_size_used lh = 2 * 20
    /\ line_height lp = 20 /\ line_height lh = 44
    /\ start_y lp = 40 /\ start_y lh = 78
    /\ line_height lh <> 2 * line_height lp
    /\ start_y lh <> 2 * start_y lp
    /\ In (LoadFont "Arial" 22) cp /\ ~ In (LoadFont "Arial" 22) cl.
Proof.
  unfold draw_korean_text_optimized, draw_korean_text, hires_region.
  cbn -[Fonts.load_font_for_overlay Fonts._load_pil_font_with_bold
        Wrap.wrap_text_for_overlay_safe_word draw_lines lit].
  rewrite !word_wrap_one_letter.
  cbn -[Fonts.load_font_for_overlay Fonts._load_pil_font_with_bold
        Wrap.wrap_text_for_overlay_safe_word draw_lines lit].
  do 6 eexists.
  repeat (split; [reflexivity|]).
  cbn [line_height start_y].
  split; [discriminate|]. split; [discriminate|]. split.
  - right. left. reflexivity.
  - intros [H | [H | []]]; discriminate.
Qed.

(** C2.  The character wrap repeats a word.  With characters six pixels
    wide, "ab cd" wrapped at twelve pixels comes back as "ab", "ab",
    "cd": the white space that does not fit is replaced by the word
    read before it, so the visible characters of the lines are "ababcd"
    and not "abcd". *)
Theorem char_wrap_repeats_word :
  Wrap.wrap_text_for_box monospace (lit "ab cd") 12 10 DefaultFont
  = [lit "ab"; lit "ab"; lit "cd"]
  /\ visible_chars
       (List.concat
          (Wrap.wrap_text_for_box monospace (lit "ab cd") 12 10 DefaultFont))
     = lit "ababcd"
  /\ visible_chars (lit "ab cd") = lit "abcd".
Proof. repeat split; vm_compute; reflexivity. Qed.

(** C3, amended.  In each of the three renderers the font size of the
    layout starts as max(8, min(floor(0.6 h), size)) for the clamped box
    height h and the size asked for, and the size the layout ends with
    lies between 8 and that start.  The start is at most
    max(8, floor(0.6 h)), which is floor(0.6 h) from h = 14 on and 8
    below. *)
Theorem box_fit_font_size_bounds W cf img_h img_w pil show r b box size l c :
  (draw_korean_text W cf (img_h, img_w) r b = (Laid l, c)
   /\ box = clamp_box img_w img_h b /\ size = Region.font_size r)
  \/ (draw_korean_text_optimized W cf (img_h, img_w) pil show r b
      = (Laid l, c)
      /\ box = clamp_box img_w img_h b /\ size = Region.font_size r)
  \/ (hires_region W cf (img_h, img_w) r = (Laid l, c)
      /\ Region.target_bbox r = Some b
      /\ box = clamp_box (img_w * 2) (img_h * 2) (Edit.scaled 2 b)
      /\ size = Region.font_size r * 2) ->
  let cap := Edit.height box * 6 / 10 in
  let initial := Z.max 8 (Z.min cap size) in
  box_font_size (Edit.height box) size = initial
  /\ 8 <= font_size_used l <= initial
  /\ initial <= Z.max 8 cap
  /\ Z.max 8 cap = (if 14 <=? Edit.height box then cap else 8).
Proof.
  intros H. cbv zeta.
  assert (Hh : 2 <= Edit.height box
               /\ 8 <= font_size_used l
                  <= box_font_size (Edit.height box) size).
  { destruct H as [(H & -> & ->) | [(H & -> & ->) | (H & Hb & -> & ->)]].
    - apply draw_korean_text_font_size in H.
      pose proof (clamp_box_size img_w img_h b) as Hs.
      destruct (clamp_box img_w img_h b) as [[[x1 y1] x2] y2].
      cbn [Edit.height]. split; [lia | exact H].
    - apply draw_korean_text_optimized_font_size in H.
      pose proof (clamp_box_size img_w img_h b) as Hs.
      destruct (clamp_box img_w img_h b) as [[[x1 y1] x2] y2].
      cbn [Edit.height]. split; [lia | exact H].
    - apply (hires_region_font_size _ _ _ _ _ b) in H; [|exact Hb].
      destruct b as [[[bx1 by1] bx2] by2]. cbn [Edit.scaled].
      pose proof (clamp_box_size (img_w * 2) (img_h * 2)
                    (bx1 * 2, by1 * 2, bx2 * 2, by2 * 2)) as Hs.
      destruct (clamp_box _ _ _) as [[[x1 y1] x2] y2].
      cbn [Edit.height]. split; [lia | exact H]. }
  destruct Hh as [Hbox Hs].
  assert (Hi : box_font_size (Edit.height box) size
               = Z.max 8 (Z.min (Edit.height box * 6 / 10) size)).
  { unfold box_font_size. now rewrite int_scaled by lia. }
  rewrite Hi in *. split; [reflexivity|]. split; [exact Hs|].
  split; [lia|].
  pose proof (cap_cases (Edit.height box) ltac:(lia)) as Hc.
  rewrite int_scaled in Hc by lia. exact Hc.
Qed.

Lemma box_fit_font_size_bounds_witness :
  (draw_korean_text monospace None (400, 400) bold_letter (0, 0, 200, 10)
   = (Laid {| font_used := DefaultFont; font_size_used := 8;
              text_lines := [lit "A"]; line_height := 8; start_y := 1;
              ops := [Text 97 1 (lit "A") DefaultFont (0, 0, 0) None] |},
      [LoadFont "Arial" 8; WrapText "word" 200 8 DefaultFont])
   /\ (0, 0, 200, 10) = clamp_box 400 400 (0, 0, 200, 10)
   /\ 20 = Region.font_size bold_letter)
  /\ box_font_size 10 20 = Z.max 8 (Z.min (10 * 6 / 10) 20)
  /\ 8 <= 8 <= Z.max 8 (Z.min (10 * 6 / 10) 20)
  /\ Z.max 8 (Z.min (10 * 6 / 10) 20) <= Z.max 8 (10 * 6 / 10)
  /\ Z.max 8 (10 * 6 / 10) = 8.
Proof.
  assert (H : draw_korean_text monospace None (400, 400) bold_letter
                (0, 0, 200, 10)
              = (Laid {| font_used := DefaultFont; font_size_used := 8;
                         text_lines := [lit "A"]; line_height := 8;
                         start_y := 1;
                         ops := [Text 97 1 (lit "A") DefaultFont (0, 0, 0)
                                   None] |},
                 [LoadFont "Arial" 8; WrapText "word" 200 8 DefaultFont])
              /\ (0, 0, 200, 10) = clamp_box 400 400 (0, 0, 200, 10)
              /\ 20 = Region.font_size bold_letter).
  { repeat split; vm_compute; reflexivity. }
  split; [exact H|].
  exact (box_fit_font_size_bounds monospace None 400 400 true false
           bold_letter (0, 0, 200, 10) (0, 0, 200, 10) 20 _ _ (or_introl H)).
Defined.

(** C3 as stated fails: in a box ten pixels high the preview lays the
    text out at size 8, above 60% of the height, which is 6. *)
Lemma small_box_font_size_above_cap :
  exists l c,
    draw_korean_text_optimized monospace None (400, 400) true false
      bold_letter (0, 0, 200, 10) = (Laid l, c)
    /\ Edit.height (clamp_box 400 400 (0, 0, 200, 10)) = 10
    /\ int (inject_Z 10 * (6 # 10)) = 6
    /\ ~ (8 <= font_size_used l <= int (inject_Z 10 * (6 # 10))).
Proof.
  do 2 eexists. split; [vm_compute; reflexivity|].
  split; [reflexivity|]. split; [reflexivity|].
  cbn [font_size_used]. vm_compute. intros [_ H]. apply H. reflexivity.
Qed.

(** The size a bold font is opened at is above the cap as well: at size
    100 in a box 100 pixels high the layout size is 60 and the preview
    opens the font at 66. *)
Lemma bold_font_opened_above_cap W cf :
  In (LoadFont "Arial" 66)
     (calls (draw_korean_text_optimized W cf (400, 400) true false
               bold_headline (0, 0, 200, 100))).
Proof.
  unfold draw_korean_text_optimized, calls.
  cbn -[Fonts.load_font_for_overlay Wrap.wrap_text_for_overlay_safe_word
        draw_lines lit].
  rewrite !word_wrap_one_letter.
  cbn -[Fonts.load_font_for_overlay Wrap.wrap_text_for_overlay_safe_word
        draw_lines lit].
  right. left. reflexivity.
Qed.








(** C7, amended.  Both loaders always return a handle that Pillow has
    opened or the built-in font, and the handle depends on the files
    only.  [load_font_for_overlay] returns the first loadable candidate
    of: the registry entry, the paths of the family, the default paths.
    [_load_pil_font_with_bold] returns the first loadable candidate of:
    the extra-bold, bold and base files of the family, as far as the
    weight asked for goes, and only then the chain of
    [load_font_for_overlay], registry included. *)
Theorem font_loaders_total_and_ordered W W' custom_fonts font_family
    font_size bold_level :
  Fonts.same_files W W' ->
  let plain :=
    Fonts.load_font_for_overlay W font_family font_size custom_fonts in
  let bold :=
    Fonts._load_pil_font_with_bold W custom_fonts font_family font_size
      bold_level in
  Fonts.usable W plain /\ Fonts.usable W bold
  /\ plain = Chain.first_loadable W
               (Chain.plain_chain W font_family custom_fonts) font_size
  /\ bold = Chain.first_loadable W
              (Chain.direct (Fonts.candidate_paths W font_family bold_level)
               ++ Chain.plain_chain W font_family custom_fonts) font_size
  /\ Fonts.candidate_paths W font_family bold_level
     = (if 2 <=? bold_level then Fonts.extra_paths W font_family else [])
       ++ (if 1 <=? bold_level then Fonts.bold_paths W font_family else [])
       ++ Fonts.base_paths W font_family
  /\ Fonts.load_font_for_overlay W' font_family font_size custom_fonts = plain
  /\ Fonts._load_pil_font_with_bold W' custom_fonts font_family font_size
       bold_level = bold.
Proof.
  intros H. cbv zeta.
  pose proof (loaders_same_files W W' custom_fonts font_family font_size
                bold_level H) as [Hp Hb].
  rewrite <- Hp, <- Hb.
  rewrite load_pil_font_with_bold_chain, load_font_for_overlay_chain.
  unfold Chain.bold_chain.
  repeat split; try reflexivity; apply first_loadable_usable.
Qed.

Lemma font_loaders_total_and_ordered_witness :
  Fonts.same_files with_arial with_arial
  /\ Fonts.load_font_for_overlay with_arial "Arial" 12 (Some registry)
     = FreeTypeFont "D:/fonts/Arial.ttf" 12
  /\ Fonts._load_pil_font_with_bold with_arial (Some registry) "Arial" 12 2
     = FreeTypeFont "C:/Windows/Fonts/arial.ttf" 12.
Proof.
  assert (H : Fonts.same_files with_arial with_arial)
    by (repeat split; reflexivity).
  split; [exact H|].
  pose proof (font_loaders_total_and_ordered with_arial with_arial
                (Some registry) "Arial" 12 2 H) as Ht.
  cbv zeta in Ht. destruct Ht as (_ & _ & Hp & Hb & _).
  split; [rewrite Hp | rewrite Hb]; reflexivity.
Defined.

(** C7 as stated fails: with a font registered under the name Arial and
    the system file of Arial both loadable, the loader for weights
    returns the system file although the registry would come first. *)
Lemma bold_loader_passes_over_registry :
  Fonts._load_pil_font_with_bold with_arial (Some registry) "Arial" 12 0
  = FreeTypeFont "C:/Windows/Fonts/arial.ttf" 12
  /\ Chain.first_loadable with_arial
       (Chain.registry_first_chain with_arial "Arial" 0 (Some registry)) 12
     = FreeTypeFont "D:/fonts/Arial.ttf" 12
  /\ Fonts._load_pil_font_with_bold with_arial (Some registry) "Arial" 12 0
     <> Chain.first_loadable with_arial
          (Chain.registry_first_chain with_arial "Arial" 0 (Some registry))
          12.
Proof.
  split; [reflexivity|]. split; [reflexivity|].
  vm_compute. discriminate.
Qed.

(** C8.  Both wrap functions return on every input.  Either the body
    runs to its end and the function returns its lines, or the body
    raises and the function returns the text as its only line; the
    second case does occur, for the character wrap on a leading space
    that does not fit, and for the word wrap when the scratch image
    cannot be made. *)
Theorem wrap_functions_total W text max_width font_size f fo :
  ((exists ls,
      Wrap.wrap_text_for_box_try W text max_width font_size f = Done ls
      /\ Wrap.wrap_text_for_box W text max_width font_size f = ls)
   \/ (Wrap.wrap_text_for_box_try W text max_width font_size f = Raised
       /\ Wrap.wrap_text_for_box W text max_width font_size f = [text]))
  /\ ((exists ls,
         Wrap.wrap_text_for_overlay_safe_word_try W text max_width font_size
           fo = Done ls
         /\ Wrap.wrap_text_for_overlay_safe_word W text max_width font_size
              fo = ls)
      \/ (Wrap.wrap_text_for_overlay_safe_word_try W text max_width
            font_size fo = Raised
          /\ Wrap.wrap_text_for_overlay_safe_word W text max_width font_size
               fo = [text]))
  /\ Wrap.wrap_text_for_box_try monospace (lit " a") 1 10 DefaultFont = Raised
  /\ Wrap.wrap_text_for_box monospace (lit " a") 1 10 DefaultFont
     = [lit " a"]
  /\ Wrap.wrap_text_for_overlay_safe_word_try monospace (lit "a") (2 ^ 31) 10
       None = Raised
  /\ Wrap.wrap_text_for_overlay_safe_word monospace (lit "a") (2 ^ 31) 10
       None = [lit "a"].
Proof.
  split; [|split].
  - pose proof (wrap_text_for_box_try_finishes W text max_width font_size f)
      as H.
    unfold Wrap.wrap_text_for_box.
    destruct (Wrap.wrap_text_for_box_try W text max_width font_size f)
      as [ls| |]; [left; eauto | right; auto | destruct H].
  - unfold Wrap.wrap_text_for_overlay_safe_word,
      Wrap.wrap_text_for_overlay_safe_word_try.
    destruct (is_blank text); [left; eauto|].
    destruct (image_new_ok W _ _); [left; eauto | right; auto].
  - repeat split; vm_compute; reflexivity.
Qed.

(** C9.  A wider box can give more lines.  With characters six pixels
    wide, the character wrap breaks "abcdef g" into two lines at twelve
    pixels and into three at thirty-six, where the space that does not
    fit is replaced by the word before it. *)
Theorem char_wrap_wider_more_lines :
  Wrap.wrap_text_for_box monospace (lit "abcdef g") 12 10 DefaultFont
  = [lit "abcdef"; lit " g"]
  /\ Wrap.wrap_text_for_box monospace (lit "abcdef g") 36 10 DefaultFont
     = [lit "abcdef"; lit "abcdef"; lit "g"]
  /\ (List.length
        (Wrap.wrap_text_for_box monospace (lit "abcdef g") 12 10 DefaultFont)
      < List.length
          (Wrap.wrap_text_for_box monospace (lit "abcdef g") 36 10
             DefaultFont))%nat.
Proof. repeat split; vm_compute; reflexivity. Qed.

(** C10.  The word wrap raises its width to 20 and its font size to 6
    before it wraps: any width up to 20 gives the lines of width 20, and
    any font size up to 6 the lines of size 6.  The character wrap does
    neither: on two Hangul syllables six pixels wide each, it gives two
    lines at width 6 and one line at width 20, where the word wrap
    gives one line at both. *)
Theorem word_wrap_clamps_inputs W text fo max_width font_size w s :
  max_width <= 20 -> font_size <= 6 ->
  Wrap.wrap_text_for_overlay_safe_word W text max_width s fo
  = Wrap.wrap_text_for_overlay_safe_word W text 20 s fo
  /\ Wrap.wrap_text_for_overlay_safe_word W text w font_size fo
     = Wrap.wrap_text_for_overlay_safe_word W text w 6 fo
  /\ Wrap.wrap_text_for_box monospace [44032; 45208]%N 6 10 DefaultFont
     = [[44032%N]; [45208%N]]
  /\ Wrap.wrap_text_for_box monospace [44032; 45208]%N 20 10 DefaultFont
     = [[44032; 45208]%N]
  /\ Wrap.wrap_text_for_overlay_safe_word monospace [44032; 45208]%N 6 10
       (Some DefaultFont) = [[44032; 45208]%N]
  /\ Wrap.wrap_text_for_overlay_safe_word monospace [44032; 45208]%N 20 10
       (Some DefaultFont) = [[44032; 45208]%N].
Proof.
  intros Hw Hs.
  unfold Wrap.wrap_text_for_overlay_safe_word,
    Wrap.wrap_text_for_overlay_safe_word_try.
  rewrite (Z.max_l 20 max_width) by lia.
  rewrite (Z.max_l 6 font_size) by lia.
  change (Z.max 20 20) with 20. change (Z.max 6 6) with 6.
  repeat split; vm_compute; reflexivity.
Qed.

Lemma word_wrap_clamps_inputs_witness :
  6 <= 20 /\ 4 <= 6
  /\ Wrap.wrap_text_for_overlay_safe_word monospace (lit "ab cd") 6 10
       (Some DefaultFont)
     = Wrap.wrap_text_for_overlay_safe_word monospace (lit "ab cd") 20 10
         (Some DefaultFont)
  /\ Wrap.wrap_text_for_overlay_safe_word monospace (lit "ab cd") 12 4
       (Some DefaultFont)
     = Wrap.wrap_text_for_overlay_safe_word monospace (lit "ab cd") 12 6
         (Some DefaultFont).
Proof.
  assert (H1 : 6 <= 20) by (vm_compute; discriminate).
  assert (H2 : 4 <= 6) by (vm_compute; discriminate).
  split; [exact H1|]. split; [exact H2|].
  pose proof (word_wrap_clamps_inputs monospace (lit "ab cd")
                (Some DefaultFont) 6 4 12 10 H1 H2) as (Ha & Hb & _).
  split; [exact Ha | exact Hb].
Defined.

End Claims.

(** * Further properties of the code *)

(** ** The wraps of the canvas that count or measure characters *)

Section OlderWraps.

Import Py PyText Canvas.

Lemma without_newlines_app (a b : str) :
  without_newlines (a ++ b) = without_newlines a ++ without_newlines b.
Proof. apply filter_app. Qed.

Lemma concat_snoc (ls : list str) (l : str) :
  List.concat (ls ++ [l]) = List.concat ls ++ l.
Proof. rewrite concat_app. simpl. now rewrite app_nil_r. Qed.

Lemma count_step_text cpl (text : str) :
  forall ls cur,
    let (ls', cur') := fold_left (count_step cpl) text (ls, cur) in
    List.concat ls' ++ cur'
    = List.concat ls ++ cur ++ without_newlines text.
Proof.
  induction text as [|ch tl IH]; intros ls cur.
  - simpl. now rewrite app_nil_r.
  - cbn [fold_left]. unfold count_step at 2.
    unfold without_newlines. cbn [filter]. fold (without_newlines tl).
    destruct (ch =? newline)%N; cbn [negb].
    + specialize (IH (ls ++ [cur]) []).
      destruct (fold_left _ tl _) as [ls' cur'].
      rewrite IH, concat_snoc. now rewrite <- app_assoc.
    + destruct (cpl <=? len cur).
      * specialize (IH (ls ++ [cur]) [ch]).
        destruct (fold_left _ tl _) as [ls' cur'].
        rewrite IH, concat_snoc. now rewrite <- app_assoc.
      * specialize (IH ls (cur ++ [ch])).
        destruct (fold_left _ tl _) as [ls' cur'].
        rewrite IH. now rewrite <- app_assoc.
Qed.

Lemma len_snoc (cur : str) (ch : char) : len (cur ++ [ch]) = len cur + 1.
Proof. unfold len. rewrite length_app. simpl. lia. Qed.

Lemma count_step_length cpl (text : str) :
  1 <= cpl ->
  forall ls cur,
    Forall (fun l => len l <= cpl) ls -> len cur <= cpl ->
    let (ls', cur') := fold_left (count_step cpl) text (ls, cur) in
    Forall (fun l => len l <= cpl) ls' /\ len cur' <= cpl.
Proof.
  intros Hcpl.
  induction text as [|ch tl IH]; intros ls cur Hls Hcur.
  - simpl. auto.
  - cbn [fold_left]. unfold count_step at 2.
    destruct (ch =? newline)%N.
    + apply IH.
      * apply Forall_app. split; [exact Hls | constructor; [exact Hcur | constructor]].
      * unfold len. simpl. lia.
    + destruct (cpl <=? len cur) eqn:E.
      * apply IH.
        -- apply Forall_app. split; [exact Hls | constructor; [exact Hcur | constructor]].
        -- unfold len. simpl. lia.
      * apply Z.leb_gt in E. apply IH; [exact Hls|].
        rewrite len_snoc. lia.
Qed.

Lemma count_step_some cpl (text : str) :
  forall ls cur,
    (text <> [] \/ ls <> [] \/ cur <> []) ->
    let (ls', cur') := fold_left (count_step cpl) text (ls, cur) in
    ls' <> [] \/ cur' <> [].
Proof.
  induction text as [|ch tl IH]; intros ls cur H.
  - simpl. destruct H as [H|H]; [congruence | exact H].
  - cbn [fold_left]. unfold count_step at 2.
    destruct (ch =? newline)%N; [|destruct (cpl <=? len cur)];
      apply IH; right.
    + left. now destruct ls.
    + left. now destruct ls.
    + right. now destruct cur.
Qed.

Lemma wrap_by_count_spec least (text : str) max_width font_size :
  List.concat (wrap_by_count least text max_width font_size)
  = without_newlines text
  /\ Forall (fun l => len l <= chars_per_line least max_width)
       (wrap_by_count least text max_width font_size).
Proof.
  unfold wrap_by_count, chars_per_line.
  destruct text as [|c tl]; [simpl; split; [reflexivity|]|].
  { constructor; [|constructor]. unfold len. simpl. lia. }
  cbn [truthy negb]. cbv zeta.
  set (cpl := Z.max 1 _).
  assert (Hcpl : 1 <= cpl) by (unfold cpl; lia).
  pose proof (count_step_text cpl (c :: tl) [] []) as Ht.
  pose proof (count_step_length cpl (c :: tl) Hcpl [] [] (Forall_nil _)
                ltac:(unfold len; simpl; lia)) as Hl.
  pose proof (count_step_some cpl (c :: tl) [] []
                ltac:(left; discriminate)) as Hs.
  destruct (fold_left _ _ _) as [ls cur].
  destruct Hl as [Hls Hcur]. cbn [List.concat app] in Ht.
  destruct cur as [|d cur]; cbn [truthy].
  - destruct ls as [|l ls]; [destruct Hs; congruence|].
    rewrite app_nil_r in Ht. split; [exact Ht | exact Hls].
  - match goal with
    | |- context [match ?x with [] => _ | _ :: _ => _ end] =>
        destruct x eqn:E
    end.
    + now apply app_eq_nil in E.
    + rewrite <- E. rewrite concat_snoc. split; [exact Ht|].
      apply Forall_app. split; [exact Hls | constructor; [exact Hcur | constructor]].
Qed.

Lemma safe_step_text W mw fs f (text : str) :
  forall ls cur,
    let (ls', cur') := fold_left (safe_step W mw fs f) text (ls, cur) in
    List.concat ls' ++ cur'
    = List.concat ls ++ cur ++ without_newlines text.
Proof.
  induction text as [|ch tl IH]; intros ls cur.
  - simpl. now rewrite app_nil_r.
  - cbn [fold_left]. unfold safe_step at 2.
    unfold without_newlines. cbn [filter]. fold (without_newlines tl).
    destruct (ch =? newline)%N; cbn [negb].
    + specialize (IH (ls ++ [cur]) []).
      destruct (fold_left _ tl _) as [ls' cur'].
      rewrite IH, concat_snoc. now rewrite <- app_assoc.
    + cbv zeta.
      destruct (negb _ && truthy cur).
      * specialize (IH (ls ++ [cur]) [ch]).
        destruct (fold_left _ tl _) as [ls' cur'].
        rewrite IH, concat_snoc. now rewrite <- app_assoc.
      * specialize (IH ls (cur ++ [ch])).
        destruct (fold_left _ tl _) as [ls' cur'].
        rewrite IH. now rewrite <- app_assoc.
Qed.

Lemma safe_step_fits W mw fs f (text : str) :
  forall ls cur,
    Forall (fits_or_single W f fs mw) ls -> fits_or_single W f fs mw cur ->
    let (ls', cur') := fold_left (safe_step W mw fs f) text (ls, cur) in
    Forall (fits_or_single W f fs mw) ls' /\ fits_or_single W f fs mw cur'.
Proof.
  induction text as [|ch tl IH]; intros ls cur Hls Hcur.
  - simpl. auto.
  - cbn [fold_left]. unfold safe_step at 2.
    destruct (ch =? newline)%N.
    + apply IH.
      * apply Forall_app. split; [exact Hls | constructor; [exact Hcur | constructor]].
      * right. simpl. lia.
    + cbv zeta.
      destruct (Qle_bool _ _) eqn:E; cbn [negb andb].
      * apply IH; [exact Hls | left; exact E].
      * destruct cur as [|d cur]; cbn [truthy].
        -- apply IH; [exact Hls | right; simpl; lia].
        -- apply IH.
           ++ apply Forall_app. split; [exact Hls | constructor; [exact Hcur | constructor]].
           ++ right. simpl. lia.
Qed.

Lemma safe_step_some W mw fs f (text : str) :
  forall ls cur,
    (text <> [] \/ ls <> [] \/ cur <> []) ->
    let (ls', cur') := fold_left (safe_step W mw fs f) text (ls, cur) in
    ls' <> [] \/ cur' <> [].
Proof.
  induction text as [|ch tl IH]; intros ls cur H.
  - simpl. destruct H as [H|H]; [congruence | exact H].
  - cbn [fold_left]. unfold safe_step at 2.
    destruct (ch =? newline)%N; [|cbv zeta; destruct (negb _ && truthy cur)];
      apply IH; right.
    + left. now destruct ls.
    + left. now destruct ls.
    + right. now destruct cur.
Qed.

Lemma is_blank_false_nonempty (text : str) :
  is_blank text = false -> text <> [].
Proof. intros H ->. discriminate. Qed.

End OlderWraps.

(** ** The lines of the word wrap *)

Section WordWrapLines.

Import Py PyText Wrap.

Lemma no_space_snoc (cur : str) (c : char) :
  no_space cur = true -> isspace c = false -> no_space (cur ++ [c]) = true.
Proof.
  intros Hc Hs. unfold no_space in *. rewrite forallb_app, Hc. simpl.
  now rewrite Hs.
Qed.

Lemma split_ws_from_words (s : str) :
  forall cur,
    no_space cur = true ->
    Forall (fun w => no_space w = true /\ w <> []) (split_ws_from cur s).
Proof.
  induction s as [|c tl IH]; intros cur Hcur; cbn [split_ws_from].
  - destruct cur; cbn [truthy]; constructor; [|constructor].
    split; [exact Hcur | discriminate].
  - destruct (isspace c) eqn:Hs.
    + destruct cur as [|d cur]; cbn [truthy].
      * now apply IH.
      * constructor; [split; [exact Hcur | discriminate] | now apply IH].
    + apply IH. now apply no_space_snoc.
Qed.

Lemma split_ws_from_started (s : str) :
  forall cur, cur <> [] -> split_ws_from cur s <> [].
Proof.
  induction s as [|c tl IH]; intros cur Hcur; cbn [split_ws_from].
  - destruct cur; [congruence | discriminate].
  - destruct (isspace c).
    + destruct cur; [congruence | discriminate].
    + apply IH. now destruct cur.
Qed.

Lemma split_ws_from_not_blank (s : str) :
  forall cur, is_blank s = false -> split_ws_from cur s <> [].
Proof.
  induction s as [|c tl IH]; intros cur Hb; [discriminate|].
  cbn [split_ws_from]. unfold is_blank in Hb. cbn [forallb] in Hb.
  destruct (isspace c).
  - cbn [andb] in Hb. destruct cur; cbn [truthy]; [now apply IH | discriminate].
  - apply split_ws_from_started. now destruct cur.
Qed.

(** Every line closed by [add_word] fits or is one word. *)
Lemma add_word_fits W mw fs f ls cur w :
  Forall (fits_or_word W f fs mw) ls -> fits_or_word W f fs mw cur ->
  no_space w = true ->
  let (ls', cur') := add_word W mw fs f (ls, cur) w in
  Forall (fits_or_word W f fs mw) ls' /\ fits_or_word W f fs mw cur'.
Proof.
  intros Hls Hcur Hw. unfold add_word.
  destruct (Qle_bool _ _) eqn:E.
  - split; [exact Hls | left; exact E].
  - destruct (truthy cur).
    + split; [|right; exact Hw].
      apply Forall_app. split; [exact Hls | constructor; [exact Hcur | constructor]].
    + split; [|right; reflexivity].
      apply Forall_app. split; [exact Hls | constructor; [right; exact Hw | constructor]].
Qed.

Lemma add_words_fits W mw fs f (ws : list str) :
  Forall (fun w => no_space w = true /\ w <> []) ws ->
  forall ls cur,
    Forall (fits_or_word W f fs mw) ls -> fits_or_word W f fs mw cur ->
    let (ls', cur') := fold_left (add_word W mw fs f) ws (ls, cur) in
    Forall (fits_or_word W f fs mw) ls' /\ fits_or_word W f fs mw cur'.
Proof.
  induction 1 as [|w ws [Hw _] _ IH]; intros ls cur Hls Hcur.
  - simpl. auto.
  - cbn [fold_left].
    pose proof (add_word_fits W mw fs f ls cur w Hls Hcur Hw) as H.
    destruct (add_word _ _ _ _ _ _) as [ls1 cur1].
    destruct H. now apply IH.
Qed.

Lemma add_paragraph_fits W mw fs f ls p :
  Forall (fits_or_word W f fs mw) ls ->
  Forall (fits_or_word W f fs mw) (add_paragraph W mw fs f ls p).
Proof.
  intros Hls. unfold add_paragraph.
  destruct (is_blank p).
  - apply Forall_app. split; [exact Hls|].
    constructor; [right; reflexivity | constructor].
  - pose proof (add_words_fits W mw fs f (split_ws p)
                  (split_ws_from_words p [] eq_refl) ls [] Hls
                  (or_intror eq_refl)) as H.
    destruct (fold_left _ _ _) as [ls' cur]. destruct H as [H1 H2].
    destruct (truthy cur); [|exact H1].
    apply Forall_app. split; [exact H1 | constructor; [exact H2 | constructor]].
Qed.

Lemma add_paragraphs_fits W mw fs f (ps : list str) :
  forall ls,
    Forall (fits_or_word W f fs mw) ls ->
    Forall (fits_or_word W f fs mw)
      (fold_left (add_paragraph W mw fs f) ps ls).
Proof.
  induction ps as [|p ps IH]; intros ls Hls; [exact Hls|].
  cbn [fold_left]. apply IH. now apply add_paragraph_fits.
Qed.

Lemma add_word_in_hand W mw fs f s w :
  w <> [] ->
  (List.length (fst s) + 1 <= in_hand (add_word W mw fs f s w))%nat.
Proof.
  intros Hw. destruct s as [ls cur]. unfold add_word, in_hand.
  destruct (Qle_bool _ _); cbn [fst snd].
  - destruct cur as [|d cur]; cbn [truthy app].
    + destruct w; [congruence | cbn [truthy]; lia].
    + cbn [truthy]. lia.
  - destruct (truthy cur); cbn [fst snd]; rewrite length_app; simpl.
    + destruct w; [congruence | cbn [truthy]; lia].
    + lia.
Qed.

Lemma add_words_in_hand W mw fs f (ws : list str) :
  Forall (fun w => no_space w = true /\ w <> []) ws ->
  forall s,
    (in_hand s <= in_hand (fold_left (add_word W mw fs f) ws s))%nat.
Proof.
  induction 1 as [|w ws [_ Hw] _ IH]; intros s; [simpl; lia|].
  cbn [fold_left].
  pose proof (add_word_in_hand W mw fs f s w Hw) as H1.
  specialize (IH (add_word W mw fs f s w)).
  unfold in_hand at 1. destruct (truthy (snd s)); lia.
Qed.

Lemma add_paragraph_adds W mw fs f ls p :
  (List.length ls + 1 <= List.length (add_paragraph W mw fs f ls p))%nat.
Proof.
  unfold add_paragraph.
  destruct (is_blank p) eqn:Hb.
  - rewrite length_app. simpl. lia.
  - pose proof (split_ws_from_words p [] eq_refl) as Hws.
    pose proof (split_ws_from_not_blank p [] Hb) as Hne.
    fold (split_ws p) in Hws, Hne.
    destruct (split_ws p) as [|w ws]; [congruence|].
    cbn [fold_left].
    inversion Hws as [|? ? [_ Hw] Hws']; subst.
    pose proof (add_word_in_hand W mw fs f (ls, []) w Hw) as H1.
    pose proof (add_words_in_hand W mw fs f ws Hws'
                  (add_word W mw fs f (ls, []) w)) as H2.
    cbn [fst] in H1.
    destruct (fold_left _ _ _) as [ls' cur]. unfold in_hand at 2 in H2.
    cbn [fst snd] in H2.
    destruct (truthy cur); [rewrite length_app; simpl|]; lia.
Qed.

Lemma add_paragraphs_add W mw fs f (ps : list str) :
  forall ls,
    (List.length ls + List.length ps
     <= List.length (fold_left (add_paragraph W mw fs f) ps ls))%nat.
Proof.
  induction ps as [|p ps IH]; intros ls; [simpl; lia|].
  cbn [fold_left]. specialize (IH (add_paragraph W mw fs f ls p)).
  pose proof (add_paragraph_adds W mw fs f ls p). simpl. lia.
Qed.

Lemma split_on_length sep (s : str) :
  (1 <= List.length (split_on sep s))%nat.
Proof.
  pose proof (split_on_nonempty sep s). destruct (split_on sep s); [congruence|].
  simpl. lia.
Qed.

End WordWrapLines.

(** ** The character wrap on text without spaces *)

Section CharWrapNoSpaces.

Import Py PyText Wrap.

Lemma read_word_split (s : str) :
  fst (read_word s) ++ snd (read_word s) = s
  /\ without_newlines (fst (read_word s)) = fst (read_word s).
Proof.
  induction s as [|c tl [IH1 IH2]]; [now split|].
  cbn [read_word]. destruct (in_word c) eqn:Hw; [|now split].
  destruct (read_word tl) as [w r]. cbn [fst snd] in *.
  split; [cbn [app]; now rewrite IH1|].
  unfold without_newlines in *. cbn [filter].
  unfold in_word in Hw. apply andb_true_iff in Hw. destruct Hw as [Hs _].
  destruct (c =? newline)%N eqn:E.
  - apply N.eqb_eq in E. subst c. discriminate.
  - cbn [negb]. now rewrite IH2.
Qed.

(** One unit, a Korean character or a word, is placed or starts the
    next line: nothing is lost. *)
Lemma too_wide_keeps ch st u :
  unit_of ch st = Some u ->
  exists st',
    too_wide ch st = (st', false)
    /\ word st' = word st
    /\ List.concat (lines st') ++ current_line st'
       = List.concat (lines st) ++ current_line st ++
         (if truthy (current_line st) then u else u).
Proof.
  intros Hu. unfold too_wide. rewrite Hu.
  destruct (current_line st) as [|d cur] eqn:Hc; cbn [truthy].
  - eexists. split; [reflexivity|]. cbn [lines current_line word].
    split; [reflexivity|]. now rewrite concat_snoc, !app_nil_r.
  - eexists. split; [reflexivity|]. cbn [lines current_line word].
    split; [reflexivity|]. now rewrite concat_snoc, app_assoc.
Qed.

Lemma place_keeps W mw fs f ch u st :
  unit_of ch st = Some u ->
  exists st',
    place W mw fs f ch (current_line st ++ u) st = Some st'
    /\ word st' = word st
    /\ List.concat (lines st') ++ current_line st'
       = List.concat (lines st) ++ current_line st ++ u.
Proof.
  intros Hu.
  destruct (too_wide_keeps ch st u Hu) as (st1 & E1 & Hw1 & H1).
  assert (H1' : List.concat (lines st1) ++ current_line st1
                = List.concat (lines st) ++ current_line st ++ u)
    by (rewrite H1; now destruct (truthy _)).
  assert (Hk : List.concat (lines (keep (current_line st ++ u) st))
               ++ current_line (keep (current_line st ++ u) st)
               = List.concat (lines st) ++ current_line st ++ u)
    by reflexivity.
  assert (He : exists st',
             place_estimated mw fs ch (current_line st ++ u) st = Some st'
             /\ word st' = word st
             /\ List.concat (lines st') ++ current_line st'
                = List.concat (lines st) ++ current_line st ++ u).
  { unfold place_estimated. destruct (Qle_bool _ _).
    - eexists. split; [reflexivity|]. split; [reflexivity | exact Hk].
    - rewrite E1. eexists. split; [reflexivity|]. split; assumption. }
  unfold place.
  destruct (if image_new_ok W _ _ then _ else _) as [width|]; [|exact He].
  destruct (Qle_bool _ _).
  - eexists. split; [reflexivity|]. split; [reflexivity | exact Hk].
  - rewrite E1. eexists. split; [reflexivity|]. split; assumption.
Qed.

Lemma wrap_loop_keeps W mw fs f :
  forall fuel rest st,
    (List.length rest <= fuel)%nat ->
    (forall c, In c rest -> isspace c = true -> c = newline) ->
    exists st',
      wrap_loop W mw fs f fuel rest st = Done st'
      /\ List.concat (lines st') ++ current_line st'
         = List.concat (lines st) ++ current_line st ++ without_newlines rest.
Proof.
  induction fuel as [|fuel IH]; intros rest st Hlen Hb.
  - destruct rest; simpl in Hlen; [|lia].
    exists st. split; [reflexivity|]. cbn. now rewrite app_nil_r.
  - destruct rest as [|ch tl].
    { exists st. split; [reflexivity|]. cbn. now rewrite app_nil_r. }
    cbn [wrap_loop]. simpl in Hlen.
    assert (Hbt : forall c, In c tl -> isspace c = true -> c = newline)
      by (intros c Hc; apply Hb; now right).
    unfold without_newlines. cbn [filter]. fold (without_newlines tl).
    destruct (ch =? newline)%N eqn:Hn; cbn [negb].
    + destruct (IH tl {| lines := lines st ++ [current_line st];
                         current_line := []; word := word st |}
                  ltac:(lia) Hbt) as (st' & E & H).
      exists st'. split; [exact E|]. rewrite H. cbn [lines current_line].
      now rewrite concat_snoc, <- app_assoc.
    + destruct (_is_korean ch || isspace ch) eqn:Hk.
      * assert (Hkor : _is_korean ch = true).
        { destruct (_is_korean ch); [reflexivity|]. cbn [orb] in Hk.
          pose proof (Hb ch (or_introl eq_refl) Hk) as Hc. subst ch.
          discriminate. }
        assert (Hu : unit_of ch st = Some [ch])
          by (unfold unit_of; now rewrite Hkor).
        destruct (place_keeps W mw fs f ch [ch] st Hu) as (st1 & E1 & _ & H1).
        rewrite E1.
        destruct (IH tl st1 ltac:(lia) Hbt) as (st' & E & H).
        exists st'. split; [exact E|]. rewrite H, app_assoc, H1.
        now rewrite <- !app_assoc.
      * apply orb_false_iff in Hk. destruct Hk as [Hk Hs].
        pose proof (read_word_rest_length tl) as Hr.
        pose proof (read_word_split tl) as [Hsplit Hword].
        cbn [read_word]. unfold in_word. rewrite Hk, Hs. cbn [negb andb].
        destruct (read_word tl) as [w r]. cbn [fst snd] in *.
        set (st0 := {| lines := lines st; current_line := current_line st;
                       word := Some (ch :: w) |}).
        assert (Hu : unit_of ch st0 = Some (ch :: w))
          by (unfold unit_of; now rewrite Hk).
        destruct (place_keeps W mw fs f ch (ch :: w) st0 Hu)
          as (st1 & E1 & _ & H1).
        subst st0. cbn [current_line lines] in E1, H1.
        match goal with
        | |- context [match ?p with Some _ => _ | None => _ end] =>
            replace p with (Some st1) by (symmetry; exact E1)
        end.
        assert (Hbr : forall c, In c r -> isspace c = true -> c = newline).
        { intros c Hc. apply Hbt. rewrite <- Hsplit. apply in_or_app. now right. }
        destruct (IH r st1 ltac:(lia) Hbr) as (st' & E & H).
        exists st'. split; [exact E|]. rewrite H, app_assoc, H1.
        rewrite <- Hsplit. rewrite without_newlines_app, Hword.
        rewrite <- !app_assoc. reflexivity.
Qed.

Lemma breaks_only_spec (s : str) :
  breaks_only s = true ->
  forall c, In c s -> isspace c = true -> c = newline.
Proof.
  unfold breaks_only. intros H c Hin Hs.
  rewrite forallb_forall in H. specialize (H c Hin).
  rewrite Hs in H. cbn [negb orb] in H. now apply N.eqb_eq.
Qed.

Lemma breaks_only_blank (s : str) :
  (forall c, In c s -> isspace c = true -> c = newline) ->
  is_blank s = true -> without_newlines s = [].
Proof.
  induction s as [|c tl IH]; intros Hb Hbl; [reflexivity|].
  unfold is_blank in Hbl. cbn [forallb] in Hbl.
  apply andb_true_iff in Hbl. destruct Hbl as [Hc Htl].
  pose proof (Hb c (or_introl eq_refl) Hc) as ->.
  unfold without_newlines. cbn [filter]. rewrite N.eqb_refl. cbn [negb].
  apply IH; [|exact Htl]. intros c Hin. apply Hb. now right.
Qed.

End CharWrapNoSpaces.

(** ** Further properties of the wrapping engines *)

Section FurtherWrapping.

Import Py PyText Wrap Sample Canvas.

(** X1.  Both wrapping engines return at least one line for every text,
    width, size and font, so the line count by which the renderers
    divide is never zero. *)
Theorem wraps_never_empty W r text wrap_width font_size f fo :
  wrap_text_for_box W text wrap_width font_size f <> []
  /\ wrap_text_for_overlay_safe_word W text wrap_width font_size fo <> []
  /\ 1 <= BoxFit.count
            (BoxFit.value (BoxFit.wrap W r wrap_width font_size f)).
Proof.
  split; [apply wrap_text_for_box_nonempty|].
  split; [apply wrap_text_for_overlay_safe_word_nonempty|].
  unfold BoxFit.wrap, BoxFit.value, BoxFit.count. cbn [fst].
  destruct (String.eqb _ _).
  - pose proof (wrap_text_for_overlay_safe_word_nonempty W (Region.text r)
                  wrap_width font_size (Some f)) as H.
    destruct (wrap_text_for_overlay_safe_word _ _ _ _ _); [congruence|].
    cbn [List.length]. lia.
  - pose proof (wrap_text_for_box_nonempty W (Region.text r) wrap_width
                  font_size f) as H.
    destruct (wrap_text_for_box _ _ _ _ _); [congruence|].
    cbn [List.length]. lia.
Qed.

(** X2.  The word wrap neither drops, adds nor reorders a visible
    character: the characters of its lines that are not white space
    are those of the text, in order.  This holds for every text, also
    when the scratch image cannot be made and when a word is wider than
    the box. *)
Theorem word_wrap_keeps_characters W r text max_width font_size f fo :
  visible_chars
    (List.concat (wrap_text_for_overlay_safe_word W text max_width font_size fo))
  = visible_chars text
  /\ (Region.wrap_mode r = "word"%string ->
      visible_chars
        (List.concat
           (BoxFit.value (BoxFit.wrap W r max_width font_size f)))
      = visible_chars (Region.text r)).
Proof.
  split; [apply word_wrap_keeps_visible_chars|].
  intros Hm. unfold BoxFit.wrap, BoxFit.value. cbn [fst]. rewrite Hm.
  cbn. apply word_wrap_keeps_visible_chars.
Qed.

(** X3.  With a measure under which a line is at least as wide as each
    of its suffixes, the word wrap never needs more lines in a wider
    box. *)
Theorem word_wrap_wider_no_more_lines W text fo font_size w1 w2 :
  (forall pre s,
     (measured_width W
        (match fo with Some f => f | None => DefaultFont end)
        (Z.max 6 font_size) s
      <= measured_width W
           (match fo with Some f => f | None => DefaultFont end)
           (Z.max 6 font_size) (pre ++ s))%Q) ->
  image_new_ok W (Z.max 20 w1 * 2) (Z.max 6 font_size * 3) = true ->
  w1 <= w2 ->
  (List.length (wrap_text_for_overlay_safe_word W text w2 font_size fo)
   <= List.length
        (wrap_text_for_overlay_safe_word W text w1 font_size fo))%nat.
Proof. apply word_wrap_monotone. Qed.

Lemma word_wrap_wider_no_more_lines_witness :
  (forall pre s,
     (measured_width monospace DefaultFont (Z.max 6 10) s
      <= measured_width monospace DefaultFont (Z.max 6 10) (pre ++ s))%Q)
  /\ image_new_ok monospace (Z.max 20 20 * 2) (Z.max 6 10 * 3) = true
  /\ 20 <= 40
  /\ (List.length
        (wrap_text_for_overlay_safe_word monospace (lit "ab cd ef") 40 10
           (Some DefaultFont))
      <= List.length
           (wrap_text_for_overlay_safe_word monospace (lit "ab cd ef") 20 10
              (Some DefaultFont)))%nat.
Proof.
  assert (H1 : forall pre s,
             (measured_width monospace DefaultFont (Z.max 6 10) s
              <= measured_width monospace DefaultFont (Z.max 6 10)
                   (pre ++ s))%Q)
    by (intros pre s; apply monospace_narrower).
  assert (H3 : 20 <= 40) by (vm_compute; discriminate).
  split; [exact H1|]. split; [reflexivity|]. split; [exact H3|].
  exact (word_wrap_wider_no_more_lines monospace (lit "ab cd ef")
           (Some DefaultFont) 10 20 40 H1 eq_refl H3).
Defined.

(** X4.  Every line of the word wrap fits the width by the measure of
    the wrap, or holds no white space: a line is over the width only
    when it is one word that is too long by itself. *)
Theorem word_wrap_line_fits_or_is_word W text max_width font_size fo :
  is_blank text = false ->
  image_new_ok W (Z.max 20 max_width * 2) (Z.max 6 font_size * 3) = true ->
  Forall (fits_or_word W (match fo with Some f => f | None => DefaultFont end)
            (Z.max 6 font_size) (Z.max 20 max_width))
    (wrap_text_for_overlay_safe_word W text max_width font_size fo).
Proof.
  intros Hb Hi.
  unfold wrap_text_for_overlay_safe_word, wrap_text_for_overlay_safe_word_try.
  rewrite Hb. cbv zeta. rewrite Hi.
  pose proof (add_paragraphs_fits W (Z.max 20 max_width) (Z.max 6 font_size)
                (match fo with Some f => f | None => DefaultFont end)
                (split_on newline text) [] (Forall_nil _)) as H.
  pose proof (add_paragraphs_add W (Z.max 20 max_width) (Z.max 6 font_size)
                (match fo with Some f => f | None => DefaultFont end)
                (split_on newline text) []) as H0.
  pose proof (split_on_length newline text) as H1.
  destruct (fold_left _ _ _) as [|l ls]; [simpl in *; lia | exact H].
Qed.

Lemma word_wrap_line_fits_or_is_word_witness :
  is_blank (lit "ab cd") = false
  /\ image_new_ok monospace (Z.max 20 20 * 2) (Z.max 6 10 * 3) = true
  /\ Forall (fits_or_word monospace DefaultFont (Z.max 6 10) (Z.max 20 20))
       (wrap_text_for_overlay_safe_word monospace (lit "ab cd") 20 10
          (Some DefaultFont)).
Proof.
  split; [reflexivity|]. split; [reflexivity|].
  exact (word_wrap_line_fits_or_is_word monospace (lit "ab cd") 20 10
           (Some DefaultFont) eq_refl eq_refl).
Defined.

(** X5.  The word wrap keeps the line breaks of the user: it returns at
    least as many lines as the text has paragraphs. *)
Theorem word_wrap_keeps_line_breaks W text max_width font_size fo :
  is_blank text = false ->
  image_new_ok W (Z.max 20 max_width * 2) (Z.max 6 font_size * 3) = true ->
  (List.length (split_on newline text)
   <= List.length
        (wrap_text_for_overlay_safe_word W text max_width font_size fo))%nat.
Proof.
  intros Hb Hi.
  unfold wrap_text_for_overlay_safe_word, wrap_text_for_overlay_safe_word_try.
  rewrite Hb. cbv zeta. rewrite Hi.
  pose proof (add_paragraphs_add W (Z.max 20 max_width) (Z.max 6 font_size)
                (match fo with Some f => f | None => DefaultFont end)
                (split_on newline text) []) as H.
  pose proof (split_on_length newline text) as H1.
  destruct (fold_left _ _ _) as [|l ls]; simpl in *; lia.
Qed.

Lemma word_wrap_keeps_line_breaks_witness :
  is_blank (lit "ab" ++ newline :: lit "cd") = false
  /\ image_new_ok monospace (Z.max 20 200 * 2) (Z.max 6 10 * 3) = true
  /\ (List.length (split_on newline (lit "ab" ++ newline :: lit "cd"))
      <= List.length
           (wrap_text_for_overlay_safe_word monospace
              (lit "ab" ++ newline :: lit "cd") 200 10 (Some DefaultFont)))%nat.
Proof.
  split; [reflexivity|]. split; [reflexivity|].
  exact (word_wrap_keeps_line_breaks monospace
           (lit "ab" ++ newline :: lit "cd") 200 10 (Some DefaultFont)
           eq_refl eq_refl).
Defined.

(** X6.  On a text whose only white space is the line break, the
    character wrap loses nothing and repeats nothing: its lines, put
    end to end, are the text without its line breaks.  This covers
    text in Hangul and text of one word per line; with a space in the
    text the wrap can repeat a word. *)
Theorem char_wrap_keeps_unspaced_text W text max_width font_size f :
  breaks_only text = true ->
  List.concat (wrap_text_for_box W text max_width font_size f)
  = without_newlines text.
Proof.
  intros Hb. pose proof (breaks_only_spec text Hb) as Hb'. clear Hb.
  rename Hb' into Hb. unfold wrap_text_for_box, wrap_text_for_box_try.
  destruct (is_blank text) eqn:Hbl.
  - simpl. symmetry. now apply breaks_only_blank.
  - destruct (wrap_loop_keeps W max_width font_size f (List.length text) text
                start (le_n _) Hb) as (st & E & H).
    rewrite E. cbn [lines current_line start List.concat app] in H.
    destruct (current_line st) as [|d cur] eqn:Hc; cbn [truthy].
    + rewrite app_nil_r in H.
      destruct (lines st) as [|l ls] eqn:Hl; [|exact H].
      cbn [List.concat] in *. rewrite app_nil_r.
      (* a text that is not blank and has no other white space keeps a
         character *)
      exfalso. clear E Hc Hl.
      induction text as [|c tl IH]; [discriminate|].
      unfold without_newlines in H. cbn [filter] in H.
      destruct (c =? newline)%N eqn:En; cbn [negb] in H; [|discriminate].
      apply N.eqb_eq in En. subst c.
      apply IH; [intros c Hin; apply Hb; now right | | exact H].
      unfold is_blank in *. cbn [forallb] in Hbl.
      now rewrite andb_true_l in Hbl.
    + match goal with
      | |- context [match ?x with [] => _ | _ :: _ => _ end] =>
          destruct x eqn:E'
      end.
      * now apply app_eq_nil in E'.
      * rewrite <- E', concat_snoc. exact H.
Qed.

Lemma char_wrap_keeps_unspaced_text_witness :
  breaks_only ([44032; 45208]%N ++ newline :: lit "abcdef") = true
  /\ List.concat
       (wrap_text_for_box monospace
          ([44032; 45208]%N ++ newline :: lit "abcdef") 12 10 DefaultFont)
     = without_newlines ([44032; 45208]%N ++ newline :: lit "abcdef").
Proof.
  split; [reflexivity|].
  exact (char_wrap_keeps_unspaced_text monospace
           ([44032; 45208]%N ++ newline :: lit "abcdef") 12 10 DefaultFont
           eq_refl).
Defined.

(** X7.  The two wraps by character count of the canvas keep the text:
    their lines, put end to end, are the text without its line breaks,
    and no line is longer than the count per line, which is
    max(1, width // 8) for the width after the clamp to 20 ([wrap_text])
    or to 10 ([wrap_text_for_overlay]), and 100 // 8 for a width that is
    not positive. *)
Theorem count_wrap_keeps_text text max_width font_size :
  (List.concat (wrap_text text max_width font_size) = without_newlines text
   /\ Forall (fun l => len l
                       <= Z.max 1 ((if 0 <? max_width
                                    then Z.max 20 max_width else 100) / 8))
        (wrap_text text max_width font_size))
  /\ (List.concat (wrap_text_for_overlay text max_width font_size)
      = without_newlines text
      /\ Forall (fun l => len l
                          <= Z.max 1 ((if 0 <? max_width
                                       then Z.max 10 max_width else 100) / 8))
           (wrap_text_for_overlay text max_width font_size)).
Proof.
  split.
  - apply (wrap_by_count_spec 20).
  - apply (wrap_by_count_spec 10).
Qed.

(** X8.  The measured wrap by character of the canvas keeps the text,
    and each of its lines fits the width by the measure of the wrap or
    is a single character. *)
Theorem measured_char_wrap_keeps_text W text max_width font_size font_path :
  is_blank text = false ->
  image_new_ok W (Z.max 20 max_width * 2) (Z.max 6 font_size * 3) = true ->
  List.concat (wrap_text_for_overlay_safe W text max_width font_size font_path)
  = without_newlines text
  /\ Forall (fits_or_single W (safe_font W font_size font_path)
               (Z.max 6 font_size) (Z.max 20 max_width))
       (wrap_text_for_overlay_safe W text max_width font_size font_path).
Proof.
  intros Hb Hi. unfold wrap_text_for_overlay_safe, safe_font.
  rewrite Hb. cbv zeta. rewrite Hi.
  set (f := if truetype_ok W _ _ then _ else _).
  set (mw := Z.max 20 max_width). set (fs := Z.max 6 font_size).
  pose proof (safe_step_text W mw fs f text [] []) as Ht.
  pose proof (safe_step_fits W mw fs f text [] [] (Forall_nil _)
                ltac:(right; simpl; lia)) as Hl.
  pose proof (safe_step_some W mw fs f text [] []
                (or_introl (is_blank_false_nonempty text Hb))) as Hs.
  destruct (fold_left _ _ _) as [ls cur].
  destruct Hl as [Hls Hcur]. cbn [List.concat app] in Ht.
  destruct cur as [|d cur]; cbn [truthy].
  - destruct ls as [|l ls]; [destruct Hs; congruence|].
    rewrite app_nil_r in Ht. split; [exact Ht | exact Hls].
  - match goal with
    | |- context [match ?x with [] => _ | _ :: _ => _ end] =>
        destruct x eqn:E
    end.
    + now apply app_eq_nil in E.
    + rewrite <- E. rewrite concat_snoc. split; [exact Ht|].
      apply Forall_app. split; [exact Hls | constructor; [exact Hcur | constructor]].
Qed.

Lemma measured_char_wrap_keeps_text_witness :
  is_blank (lit "abcdef") = false
  /\ image_new_ok monospace (Z.max 20 20 * 2) (Z.max 6 10 * 3) = true
  /\ List.concat
       (wrap_text_for_overlay_safe monospace (lit "abcdef") 20 10
          "fonts/NanumGothic.ttf")
     = without_newlines (lit "abcdef")
  /\ Forall (fits_or_single monospace
               (safe_font monospace 10 "fonts/NanumGothic.ttf")
               (Z.max 6 10) (Z.max 20 20))
       (wrap_text_for_overlay_safe monospace (lit "abcdef") 20 10
          "fonts/NanumGothic.ttf").
Proof.
  split; [reflexivity|]. split; [reflexivity|].
  exact (measured_char_wrap_keeps_text monospace (lit "abcdef") 20 10
           "fonts/NanumGothic.ttf" eq_refl eq_refl).
Defined.

End FurtherWrapping.

(** ** Hit testing and editing *)

Section HitTesting.

Import Canvas.

Lemma scan_down_spec current_filename x y regs :
  forall n,
    (scan_down current_filename x y regs n = -1
     /\ forall j r, (j < n)%nat -> nth_error regs j = Some r ->
                    hit current_filename x y r = false)
    \/ (exists i r,
          scan_down current_filename x y regs n = Z.of_nat i
          /\ (i < n)%nat
          /\ nth_error regs i = Some r
          /\ hit current_filename x y r = true
          /\ forall j r', (i < j < n)%nat -> nth_error regs j = Some r' ->
                          hit current_filename x y r' = false).
Proof.
  induction n as [|n IH]; cbn [scan_down].
  - left. split; [reflexivity | intros; lia].
  - destruct (nth_error regs n) as [r|] eqn:En.
    + destruct (hit current_filename x y r) eqn:Eh.
      * right. exists n, r. repeat split; try assumption; try lia.
      * destruct IH as [[E H]|(i & r0 & E & Hi & Hn & Hh & H)].
        -- left. split; [exact E|]. intros j r' Hj Hr.
           destruct (Nat.eq_dec j n) as [->|Hne].
           ++ congruence.
           ++ apply (H j); [lia | exact Hr].
        -- right. exists i, r0. repeat split; try assumption; try lia.
           intros j r' Hj Hr.
           destruct (Nat.eq_dec j n) as [->|Hne].
           ++ congruence.
           ++ apply (H j); [lia | exact Hr].
    + destruct IH as [[E H]|(i & r0 & E & Hi & Hn & Hh & H)].
      * left. split; [exact E|]. intros j r' Hj Hr.
        destruct (Nat.eq_dec j n) as [->|Hne].
        -- congruence.
        -- apply (H j); [lia | exact Hr].
      * right. exists i, r0. repeat split; try assumption; try lia.
        intros j r' Hj Hr.
        destruct (Nat.eq_dec j n) as [->|Hne].
        -- congruence.
        -- apply (H j); [lia | exact Hr].
Qed.

Lemma get_text_at_position_topmost basename path regs x y :
  path <> ""%string ->
  (get_text_at_position basename (Some path) regs (x, y) = -1
   /\ forall r, In r regs -> hit (basename path) x y r = false)
  \/ (exists i r,
        get_text_at_position basename (Some path) regs (x, y) = Z.of_nat i
        /\ nth_error regs i = Some r
        /\ hit (basename path) x y r = true
        /\ forall j r', (i < j)%nat -> nth_error regs j = Some r' ->
                        hit (basename path) x y r' = false).
Proof.
  intros Hp. unfold get_text_at_position.
  apply String.eqb_neq in Hp. rewrite Hp.
  destruct (scan_down_spec (basename path) x y regs (List.length regs))
    as [[E H]|(i & r & E & Hi & Hn & Hh & H)].
  - left. split; [exact E|]. intros r Hin.
    apply In_nth_error in Hin. destruct Hin as [j Hj].
    apply (H j); [|exact Hj]. apply nth_error_Some. congruence.
  - right. exists i, r. repeat split; try assumption.
    intros j r' Hj Hr. apply (H j); [|exact Hr].
    split; [exact Hj|]. apply nth_error_Some. congruence.
Qed.

(** The box of a region that is hit holds the point. *)
Lemma hit_inside current_filename x y r :
  hit current_filename x y r = true ->
  Region.image_filename r = Some current_filename
  /\ Region.is_positioned r = true
  /\ exists x1 y1 x2 y2,
       Region.target_bbox r = Some (x1, y1, x2, y2)
       /\ x1 <= x <= x2 /\ y1 <= y <= y2.
Proof.
  unfold hit. intros H.
  apply andb_true_iff in H. destruct H as [H Hb].
  apply andb_true_iff in H. destruct H as [Hf Hp].
  split.
  { destruct (Region.image_filename r) as [n|]; [|discriminate].
    apply String.eqb_eq in Hf. now subst. }
  split; [exact Hp|].
  destruct (Region.target_bbox r) as [[[[x1 y1] x2] y2]|]; [|discriminate].
  exists x1, y1, x2, y2. split; [reflexivity|].
  repeat (apply andb_true_iff in Hb; destruct Hb as [Hb ?]).
  lia.
Qed.

Lemma handle_at_corners x1 y1 x2 y2 :
  20 < x2 - x1 -> 20 < y2 - y1 ->
  handle_at (x1, y1, x2, y2) (x2, y2) = Some Edit.SE
  /\ handle_at (x1, y1, x2, y2) (x2, y1) = Some Edit.NE
  /\ handle_at (x1, y1, x2, y2) (x1, y2) = Some Edit.SW
  /\ handle_at (x1, y1, x2, y2) (x1, y1) = Some Edit.NW.
Proof.
  intros Hw Hh. unfold handle_at, in_zone. cbv zeta.
  repeat split.
  - replace ((x2 - (15 + 5) <=? x2) && (x2 <=? x2) && (y2 - (15 + 5) <=? y2)
             && (y2 <=? y2)) with true; [reflexivity|].
    symmetry. repeat (apply andb_true_iff; split); lia.
  - replace ((x2 - (15 + 5) <=? x2) && (x2 <=? x2) && (y2 - (15 + 5) <=? y1)
             && (y1 <=? y2)) with false.
    2:{ symmetry. replace (y2 - (15 + 5) <=? y1) with false by lia.
        now rewrite andb_false_r. }
    replace ((x2 - (15 + 5) <=? x2) && (x2 <=? x2) && (y1 <=? y1)
             && (y1 <=? y1 + (15 + 5))) with true; [reflexivity|].
    symmetry. repeat (apply andb_true_iff; split); lia.
  - replace ((x2 - (15 + 5) <=? x1) && (x1 <=? x2) && (y2 - (15 + 5) <=? y2)
             && (y2 <=? y2)) with false.
    2:{ symmetry. replace (x2 - (15 + 5) <=? x1) with false by lia.
        reflexivity. }
    replace ((x2 - (15 + 5) <=? x1) && (x1 <=? x2) && (y1 <=? y2)
             && (y2 <=? y1 + (15 + 5))) with false.
    2:{ symmetry. replace (x2 - (15 + 5) <=? x1) with false by lia.
        reflexivity. }
    replace ((x1 <=? x1) && (x1 <=? x1 + (15 + 5)) && (y2 - (15 + 5) <=? y2)
             && (y2 <=? y2)) with true; [reflexivity|].
    symmetry. repeat (apply andb_true_iff; split); lia.
  - replace ((x2 - (15 + 5) <=? x1) && (x1 <=? x2) && (y2 - (15 + 5) <=? y1)
             && (y1 <=? y2)) with false.
    2:{ symmetry. replace (x2 - (15 + 5) <=? x1) with false by lia.
        reflexivity. }
    replace ((x2 - (15 + 5) <=? x1) && (x1 <=? x2) && (y1 <=? y1)
             && (y1 <=? y1 + (15 + 5))) with false.
    2:{ symmetry. replace (x2 - (15 + 5) <=? x1) with false by lia.
        reflexivity. }
    replace ((x1 <=? x1) && (x1 <=? x1 + (15 + 5)) && (y2 - (15 + 5) <=? y1)
             && (y1 <=? y2)) with false.
    2:{ symmetry. replace (y2 - (15 + 5) <=? y1) with false by lia.
        now rewrite andb_false_r. }
    replace ((x1 <=? x1) && (x1 <=? x1 + (15 + 5)) && (y1 <=? y1)
             && (y1 <=? y1 + (15 + 5))) with true; [reflexivity|].
    symmetry. repeat (apply andb_true_iff; split); lia.
Qed.

Lemma in_zone_iff x y a b c d :
  in_zone x y a b c d = true <-> a <= x <= c /\ b <= y <= d.
Proof.
  unfold in_zone. rewrite !andb_true_iff, !Z.leb_le. lia.
Qed.

Lemma in_zone_not x y a b c d :
  in_zone x y a b c d = false <-> ~ (a <= x <= c /\ b <= y <= d).
Proof.
  rewrite <- in_zone_iff.
  destruct (in_zone x y a b c d); split; intros H; try congruence;
    exfalso; now apply H.
Qed.

(** In a box of at most 40 by 40 every point is in a handle zone. *)
Lemma handle_at_small x1 y1 x2 y2 x y :
  x2 - x1 <= 40 -> y2 - y1 <= 40 ->
  x1 <= x <= x2 -> y1 <= y <= y2 ->
  handle_at (x1, y1, x2, y2) (x, y) <> None.
Proof.
  intros Hw Hh Hx Hy. unfold handle_at. cbv zeta.
  destruct (in_zone x y (x2 - (15 + 5)) (y2 - (15 + 5)) x2 y2) eqn:E1;
    [discriminate|].
  destruct (in_zone x y (x2 - (15 + 5)) y1 x2 (y1 + (15 + 5))) eqn:E2;
    [discriminate|].
  destruct (in_zone x y x1 (y2 - (15 + 5)) (x1 + (15 + 5)) y2) eqn:E3;
    [discriminate|].
  destruct (in_zone x y x1 y1 (x1 + (15 + 5)) (y1 + (15 + 5))) eqn:E4;
    [discriminate|].
  apply in_zone_not in E1, E2, E3, E4. lia.
Qed.

(** Away from the corners by more than 20 pixels no handle is hit. *)
Lemma handle_at_middle x1 y1 x2 y2 x y :
  x1 + 20 < x < x2 - 20 \/ y1 + 20 < y < y2 - 20 ->
  handle_at (x1, y1, x2, y2) (x, y) = None.
Proof.
  intros H. unfold handle_at. cbv zeta.
  destruct (in_zone x y (x2 - (15 + 5)) (y2 - (15 + 5)) x2 y2) eqn:E1;
    [apply in_zone_iff in E1; lia|].
  destruct (in_zone x y (x2 - (15 + 5)) y1 x2 (y1 + (15 + 5))) eqn:E2;
    [apply in_zone_iff in E2; lia|].
  destruct (in_zone x y x1 (y2 - (15 + 5)) (x1 + (15 + 5)) y2) eqn:E3;
    [apply in_zone_iff in E3; lia|].
  destruct (in_zone x y x1 y1 (x1 + (15 + 5)) (y1 + (15 + 5))) eqn:E4;
    [apply in_zone_iff in E4; lia|].
  reflexivity.
Qed.

Lemma get_resize_handle_at basename path regs pos i r b :
  path <> ""%string ->
  nth_error regs i = Some r ->
  Region.is_positioned r = true ->
  Region.target_bbox r = Some b ->
  Region.image_filename r = Some (basename path) ->
  get_resize_handle basename (Some path) regs pos (Z.of_nat i)
  = handle_at b pos.
Proof.
  intros Hp Hn Hpos Hb Hf. unfold get_resize_handle.
  assert (Hi : (i < List.length regs)%nat)
    by (apply nth_error_Some; congruence).
  replace (Z.of_nat i <? 0) with false by lia.
  replace (Z.of_nat (List.length regs) <=? Z.of_nat i) with false by lia.
  cbn [orb]. rewrite Nat2Z.id, Hn, Hpos, Hb, Hf. cbn [negb].
  apply String.eqb_neq in Hp. rewrite Hp. now rewrite String.eqb_refl.
Qed.

Lemma press_grabs basename path regs x y k g :
  path <> ""%string ->
  mousePressEvent basename (Some path) regs (Some (x, y)) = Some (k, g) ->
  exists i r x1 y1 x2 y2,
    k = Z.of_nat i
    /\ nth_error regs i = Some r
    /\ Region.image_filename r = Some (basename path)
    /\ Region.target_bbox r = Some (x1, y1, x2, y2)
    /\ x1 <= x <= x2 /\ y1 <= y <= y2
    /\ (forall j r', (i < j)%nat -> nth_error regs j = Some r' ->
                     hit (basename path) x y r' = false)
    /\ g = match handle_at (x1, y1, x2, y2) (x, y) with
           | Some h => Resizing h
           | None => Moving
           end.
Proof.
  intros Hp. unfold mousePressEvent.
  destruct (get_text_at_position_topmost basename path regs x y Hp)
    as [[E _]|(i & r & E & Hn & Hh & Htop)]; rewrite E.
  - discriminate.
  - replace (0 <=? Z.of_nat i) with true by lia.
    destruct (hit_inside _ _ _ _ Hh)
      as (Hf & Hpos & x1 & y1 & x2 & y2 & Hb & Hx & Hy).
    rewrite (get_resize_handle_at basename path regs (x, y) i r _ Hp Hn Hpos
               Hb Hf).
    intros H. exists i, r, x1, y1, x2, y2.
    repeat split; try assumption; try lia.
    + destruct (handle_at _ _); congruence.
    + destruct (handle_at _ _); congruence.
Qed.

End HitTesting.

Section Editing.

Import Edit.

Lemma move_text_box_at_far_edge img_h img_w x1 y1 x2 y2 dx dy :
  (dx, dy) <> (0, 0) ->
  2 <= x2 - x1 <= img_w -> 2 <= y2 - y1 <= img_h ->
  img_w - x2 <= dx -> img_h - y2 <= dy ->
  move_text_box (img_h, img_w) (img_h, img_w) (x1, y1, x2, y2) dx dy
  = Some (img_w - (x2 - x1), img_h - (y2 - y1), img_w - 1, img_h - 1).
Proof.
  intros Hd Hx Hy Hx1 Hy1. unfold move_text_box, safe_clamp.
  destruct ((dx =? 0) && (dy =? 0)) eqn:E.
  - apply andb_true_iff in E. destruct E as [E1 E2].
    apply Z.eqb_eq in E1, E2. subst. congruence.
  - cbv zeta. apply f_equal.
    repeat match goal with |- (_, _) = (_, _) => apply f_equal2 end; lia.
Qed.

(** With room for it, the clamp leaves the first corner alone and
    keeps the least size. *)
Lemma safe_clamp_roomy img_h img_w a1 b1 a2 b2 :
  0 <= a1 -> a1 + min_size <= a2 -> a1 + min_size <= img_w - 1 ->
  0 <= b1 -> b1 + min_size <= b2 -> b1 + min_size <= img_h - 1 ->
  safe_clamp (img_h, img_w) (a1, b1, a2, b2)
  = (a1, b1, Z.min a2 (img_w - 1), Z.min b2 (img_h - 1)).
Proof.
  unfold safe_clamp, min_size. intros.
  repeat match goal with |- (_, _) = (_, _) => apply f_equal2 end; lia.
Qed.

Lemma resize_corner_room img_h img_w h x1 y1 x2 y2 dx dy :
  within (img_h, img_w) (x1, y1, x2, y2) ->
  min_size <= x2 - x1 -> min_size <= y2 - y1 ->
  let '(nx1, ny1, nx2, ny2) :=
    resize_corner (img_h, img_w) h (x1, y1, x2, y2) dx dy in
  0 <= nx1 /\ nx1 + min_size <= nx2 /\ nx1 + min_size <= img_w - 1
  /\ 0 <= ny1 /\ ny1 + min_size <= ny2 /\ ny1 + min_size <= img_h - 1
  /\ match h with
     | SE => nx1 = x1 /\ ny1 = y1
     | NE => nx1 = x1 /\ ny2 = y2
     | SW => nx2 = x2 /\ ny1 = y1
     | NW => nx2 = x2 /\ ny2 = y2
     end.
Proof.
  unfold within, min_size. intros Hw Hx Hy.
  destruct h; unfold resize_corner, min_size; cbv zeta.
  - repeat split; lia.
  - repeat split; lia.
  - repeat split; lia.
  - repeat split; lia.
Qed.

End Editing.

Section Keyboard.

Import Tool.

Lemma nudged_size jp_image b dx dy :
  Edit.width (nudged jp_image b dx dy) = Edit.width b
  /\ Edit.height (nudged jp_image b dx dy) = Edit.height b.
Proof.
  destruct b as [[[x1 y1] x2] y2]. unfold nudged.
  destruct jp_image as [[img_h img_w]|]; cbn; lia.
Qed.

Lemma nudged_inside img_h img_w x1 y1 x2 y2 dx dy :
  0 <= x2 - x1 <= img_w -> 0 <= y2 - y1 <= img_h ->
  let '(nx1, ny1, nx2, ny2) :=
    nudged (Some (img_h, img_w)) (x1, y1, x2, y2) dx dy in
  0 <= nx1 /\ nx2 <= img_w /\ 0 <= ny1 /\ ny2 <= img_h
  /\ (0 <= x1 + dx -> x2 + dx <= img_w -> nx1 = x1 + dx)
  /\ (0 <= y1 + dy -> y2 + dy <= img_h -> ny1 = y1 + dy).
Proof.
  intros Hx Hy. unfold nudged. cbv zeta. lia.
Qed.

End Keyboard.

(** ** The renderers compared *)

Section Rendering.

Import Py BoxFit SaveScreen.

Lemma clamp_box_fixes img_h img_w b :
  Edit.within (img_h, img_w) b ->
  2 <= Edit.width b -> 2 <= Edit.height b ->
  clamp_box img_w img_h b = b.
Proof.
  destruct b as [[[x1 y1] x2] y2]. unfold Edit.within, Edit.width, Edit.height,
    clamp_box. intros Hw Hx Hy.
  repeat match goal with |- (_, _) = (_, _) => apply f_equal2 end; lia.
Qed.

Lemma size_guard img_width img_height b :
  let '(x1, y1, x2, y2) := clamp_box img_width img_height b in
  (x2 - x1 <? 2) || (y2 - y1 <? 2) = false.
Proof.
  pose proof (clamp_box_size img_width img_height b) as H.
  destruct (clamp_box _ _ _) as [[[x1 y1] x2] y2].
  apply orb_false_iff. split; apply Z.ltb_ge; lia.
Qed.

Lemma draw_line_screen_eq W r f font_size text_x1 text_x2 text_y2 start_y
    line_height line_idx line_text :
  draw_line_screen W r f font_size text_x1 text_x2 text_y2 start_y
    line_height line_idx line_text
  = draw_line W r f font_size text_x1 text_x2 text_y2 start_y line_height
      line_idx line_text.
Proof.
  unfold draw_line_screen, draw_line. cbv zeta.
  destruct (is_blank line_text); [reflexivity|].
  destruct (within_tolerance _ _ _ _ _ _ _); [|reflexivity].
  destruct (overflows _ _ _ _) eqn:E; cbn [negb]; [|reflexivity].
  pose proof (truncate_over W f font_size text_x1 text_x2 line_text
                (List.length line_text)
                (aligned r text_x1 text_x2
                   (line_width W f font_size line_text))) as Ht.
  destruct (truncate _ _ _ _ _ _ _ _ _) as [n x]. cbn [fst] in Ht.
  subst n. reflexivity.
Qed.

Lemma draw_lines_ext (d1 d2 : Z -> str -> list draw_op) :
  (forall i l, d1 i l = d2 i l) ->
  forall ls i, draw_lines d1 i ls = draw_lines d2 i ls.
Proof.
  intros H. induction ls as [|l ls IH]; intros i; [reflexivity|].
  cbn [draw_lines]. now rewrite H, IH.
Qed.

Lemma fit_height_hires_plain W cf r wrap_width available_height font_size f
    ls :
  Region.bold r = false ->
  fit_height_hires W cf r wrap_width available_height font_size font_size f
    ls
  = fit_height W cf r wrap_width available_height font_size f ls.
Proof.
  intros Hb. unfold fit_height_hires, fit_height. rewrite Hb.
  cbv zeta.
  destruct (available_height <? _); [|reflexivity].
  destruct (available_height <? _); [|reflexivity].
  unfold bind, ret, load_font_for_overlay, wrap. reflexivity.
Qed.

Lemma base_paths_none W font_family bold_level :
  Fonts.base_paths W font_family = [] ->
  Fonts.candidate_paths W font_family bold_level = [].
Proof.
  unfold Fonts.candidate_paths, Fonts.extra_paths, Fonts.bold_paths,
    Fonts.base_paths.
  repeat (destruct (Fonts.mem font_family _); [discriminate|]).
  intros _. now destruct (2 <=? bold_level), (1 <=? bold_level).
Qed.

Lemma bold_loader_plain W cf font_family font_size bold_level :
  Fonts.base_paths W font_family = [] ->
  Fonts._load_pil_font_with_bold W cf font_family font_size bold_level
  = Fonts.load_font_for_overlay W font_family font_size cf.
Proof.
  intros H. unfold Fonts._load_pil_font_with_bold.
  now rewrite (base_paths_none W font_family bold_level H).
Qed.

Lemma screen_region_skips W cf shape r :
  value (screen_region W cf shape r) = Nothing
  <-> Region.visible r = false \/ Region.is_positioned r = false
      \/ Region.target_bbox r = None.
Proof.
  destruct shape as [img_height img_width]. unfold screen_region.
  destruct (Region.visible r); cbn [negb]; [|now split; auto].
  destruct (Region.target_bbox r) as [b|]; [|now split; auto].
  destruct (Region.is_positioned r); cbn [negb]; [|now split; auto].
  pose proof (size_guard img_width img_height b) as Hg.
  destruct (clamp_box img_width img_height b) as [[[x1 y1] x2] y2].
  rewrite Hg.
  destruct (text_rect _ _ _) as [[[tx1 ty1] tx2] ty2].
  unfold bind, ret, wrap, _load_pil_font_with_bold, value.
  destruct (fit_height_hires _ _ _ _ _ _ _ _ _) as [fit t]. cbn [fst].
  split; [discriminate|]. intros [H|[H|H]]; discriminate.
Qed.

Lemma hires_region_skips W cf shape r :
  value (hires_region W cf shape r) = Nothing
  <-> Region.is_positioned r = false \/ Region.target_bbox r = None.
Proof.
  destruct shape as [img_height img_width]. unfold hires_region. cbv zeta.
  destruct (Region.target_bbox r) as [b|]; [|now split; auto].
  destruct (Region.is_positioned r); cbn [negb]; [|now split; auto].
  pose proof (size_guard (img_width * 2) (img_height * 2) (Edit.scaled 2 b))
    as Hg.
  destruct (clamp_box _ _ _) as [[[x1 y1] x2] y2].
  rewrite Hg.
  destruct (text_rect _ _ _) as [[[tx1 ty1] tx2] ty2].
  unfold bind, ret, wrap, _load_pil_font_with_bold, value.
  destruct (fit_height_hires _ _ _ _ _ _ _ _ _) as [fit t]. cbn [fst].
  split; [discriminate|]. intros [H|H]; discriminate.
Qed.

Lemma preview_always_lays_out W cf shape pil show r b :
  (pil = true ->
   exists l,
     value (draw_korean_text_optimized W cf shape pil show r b) = Laid l)
  /\ (pil = false ->
      let '(x1, y1, _, _) := clamp_box (snd shape) (fst shape) b in
      value (draw_korean_text_optimized W cf shape pil show r b)
      = Basic [PutText (Region.text r) (x1 + 5) (y1 + 20)]).
Proof.
  destruct shape as [img_height img_width]. cbn [fst snd].
  unfold draw_korean_text_optimized.
  pose proof (size_guard img_width img_height b) as Hg.
  destruct (clamp_box img_width img_height b) as [[[x1 y1] x2] y2].
  rewrite Hg. split; intros ->; cbn [negb]; [|reflexivity].
  destruct (text_rect _ _ _) as [[[tx1 ty1] tx2] ty2].
  unfold bind, ret, wrap, load_font_for_overlay, value.
  destruct (Region.bold r);
    destruct (fit_height _ _ _ _ _ _ _ _) as [fit t]; cbn [fst];
    eexists; reflexivity.
Qed.

End Rendering.

(** ** What the renderers ask for *)

Section Calls.

Import Py BoxFit SaveScreen.

Lemma wrap_width_of_least text_x1 text_x2 margin :
  10 <= wrap_width_of text_x1 text_x2 margin.
Proof.
  unfold wrap_width_of. cbv zeta. destruct (margin <? 0) eqn:E; [|lia].
  apply Z.ltb_lt in E. lia.
Qed.

Lemma bold_size_least font_size :
  8 <= font_size -> 8 <= int (inject_Z font_size * (11 # 10)).
Proof.
  intros H. rewrite int_scaled by lia.
  apply Z.div_le_lower_bound; lia.
Qed.

Lemma extra_bold_size_least font_size :
  8 <= font_size -> 8 <= int (inject_Z font_size * (115 # 100)).
Proof.
  intros H. rewrite int_scaled by lia.
  apply Z.div_le_lower_bound; lia.
Qed.

Lemma fit_height_calls W cf r wrap_width available_height font_size f ls :
  10 <= wrap_width ->
  Forall sane_call
    (calls (fit_height W cf r wrap_width available_height font_size f ls)).
Proof.
  intros Hw. unfold fit_height, calls. cbv zeta.
  destruct (available_height <? _); [|constructor].
  destruct (available_height <? _); [|constructor].
  unfold bind, ret, load_font_for_overlay, wrap. cbn [snd app].
  repeat constructor; cbn [sane_call]; lia.
Qed.

Lemma fit_height_hires_calls W cf r wrap_width available_height font_size
    eff f ls :
  10 <= wrap_width ->
  Forall sane_call
    (calls (fit_height_hires W cf r wrap_width available_height font_size eff
              f ls)).
Proof.
  intros Hw. unfold fit_height_hires, calls. cbv zeta.
  destruct (available_height <? _); [|constructor].
  destruct (available_height <? _); [|constructor].
  unfold bind, ret, load_font_for_overlay, wrap.
  destruct (Region.bold r); cbn [snd app];
    repeat constructor; cbn [sane_call]; try lia.
  apply bold_size_least. lia.
Qed.

Lemma calls_bind {A B : Type} (m : M A) (k : A -> M B) :
  calls (bind m k) = calls m ++ calls (k (value m)).
Proof.
  unfold bind, calls, value. destruct m as [a t1]. cbn [fst snd].
  now destruct (k a).
Qed.

Lemma effective_size_least bold_level font_size :
  8 <= font_size ->
  8 <= (if 2 <=? bold_level
        then int (inject_Z (if 1 <=? bold_level
                            then int (inject_Z font_size * (11 # 10))
                            else font_size) * (115 # 100))
        else if 1 <=? bold_level
             then int (inject_Z font_size * (11 # 10))
             else font_size).
Proof.
  intros H. pose proof (bold_size_least font_size H).
  destruct (2 <=? bold_level), (1 <=? bold_level); try assumption;
    apply extra_bold_size_least; assumption.
Qed.

Lemma preview_calls W cf shape pil show r b :
  Forall sane_call (calls (draw_korean_text_optimized W cf shape pil show r b)).
Proof.
  destruct shape as [img_height img_width].
  unfold draw_korean_text_optimized.
  destruct (clamp_box img_width img_height b) as [[[x1 y1] x2] y2].
  destruct (_ || _); [constructor|].
  destruct pil; cbn [negb]; [|constructor].
  pose proof (proj1 (box_font_size_bounds (y2 - y1) (Region.font_size r)))
    as Hs.
  destruct (text_rect _ _ _) as [[[tx1 ty1] tx2] ty2].
  pose proof (wrap_width_of_least tx1 tx2 (Region.margin r)) as Hw.
  rewrite !calls_bind.
  repeat (apply Forall_app; split).
  - repeat constructor. exact Hs.
  - destruct (Region.bold r); [|constructor].
    repeat constructor. cbn [sane_call]. now apply bold_size_least.
  - repeat constructor; assumption.
  - now apply fit_height_calls.
  - constructor.
Qed.

Lemma legacy_calls W cf shape r b :
  Forall sane_call (calls (draw_korean_text W cf shape r b)).
Proof.
  destruct shape as [img_height img_width].
  unfold draw_korean_text.
  destruct (clamp_box img_width img_height b) as [[[x1 y1] x2] y2].
  destruct (_ || _); [constructor|].
  pose proof (proj1 (box_font_size_bounds (y2 - y1) (Region.font_size r)))
    as Hs.
  destruct (text_rect _ _ _) as [[[tx1 ty1] tx2] ty2].
  pose proof (wrap_width_of_least tx1 tx2 (Region.margin r)) as Hw.
  rewrite !calls_bind.
  repeat (apply Forall_app; split).
  - repeat constructor. exact Hs.
  - repeat constructor; assumption.
  - now apply fit_height_calls.
  - constructor.
Qed.

Lemma screen_calls W cf shape r :
  Forall sane_call (calls (screen_region W cf shape r)).
Proof.
  destruct shape as [img_height img_width].
  unfold screen_region.
  destruct (Region.visible r); cbn [negb]; [|constructor].
  destruct (Region.target_bbox r) as [b|]; [|constructor].
  destruct (Region.is_positioned r); cbn [negb]; [|constructor].
  destruct (clamp_box img_width img_height b) as [[[x1 y1] x2] y2].
  destruct (_ || _); [constructor|].
  pose proof (proj1 (box_font_size_bounds (y2 - y1) (Region.font_size r)))
    as Hs.
  destruct (text_rect _ _ _) as [[[tx1 ty1] tx2] ty2].
  pose proof (wrap_width_of_least tx1 tx2 (Region.margin r)) as Hw.
  cbv zeta. rewrite !calls_bind.
  repeat (apply Forall_app; split).
  - repeat constructor. cbn [sane_call].
    now apply effective_size_least.
  - repeat constructor; assumption.
  - now apply fit_height_hires_calls.
  - constructor.
Qed.

Lemma hires_calls W cf shape r :
  Forall sane_call (calls (hires_region W cf shape r)).
Proof.
  destruct shape as [img_height img_width].
  unfold hires_region. cbv zeta.
  destruct (Region.target_bbox r) as [b|]; [|constructor].
  destruct (Region.is_positioned r); cbn [negb]; [|constructor].
  destruct (clamp_box _ _ _) as [[[x1 y1] x2] y2].
  destruct (_ || _); [constructor|].
  pose proof (proj1 (box_font_size_bounds (y2 - y1) (Region.font_size r * 2)))
    as Hs.
  destruct (text_rect _ _ _) as [[[tx1 ty1] tx2] ty2].
  pose proof (wrap_width_of_least tx1 tx2 (Region.margin r * 2)) as Hw.
  rewrite !calls_bind.
  repeat (apply Forall_app; split).
  - repeat constructor. cbn [sane_call].
    now apply effective_size_least.
  - repeat constructor; assumption.
  - now apply fit_height_hires_calls.
  - constructor.
Qed.

(** The total height is the line count times the line height. *)
Lemma fit_height_total W cf r wrap_width available_height font_size f ls :
  let fit :=
    value (fit_height W cf r wrap_width available_height font_size f ls) in
  fit_total fit = count (fit_lines fit) * fit_line_height fit.
Proof.
  unfold fit_height, value. cbv zeta.
  destruct (available_height <? _); [|reflexivity].
  destruct (available_height <? _); reflexivity.
Qed.

Lemma preview_centred W cf img_h img_w show r b l c :
  draw_korean_text_optimized W cf (img_h, img_w) true show r b = (Laid l, c) ->
  let '(x1, y1, x2, y2) := clamp_box img_w img_h b in
  let '(_, text_y1, _, text_y2) :=
    text_rect (x1, y1, x2, y2) (Region.margin r)
      (box_font_size (y2 - y1) (Region.font_size r)) in
  let above := start_y l - text_y1 in
  let below :=
    text_y2 - (start_y l + count (text_lines l) * line_height l) in
  above <= below <= above + 1.
Proof.
  unfold draw_korean_text_optimized.
  destruct (clamp_box img_w img_h b) as [[[x1 y1] x2] y2].
  destruct (_ || _); [discriminate|]. cbn [negb].
  destruct (text_rect _ _ _) as [[[tx1 ty1] tx2] ty2].
  unfold bind, load_font_for_overlay, wrap, ret.
  destruct (Region.bold r);
    match goal with
    | |- context [fit_height ?a ?b ?c ?d ?e ?f ?g ?h] =>
        pose proof (fit_height_total a b c d e f g h) as Hf;
        unfold value in Hf; cbv zeta in Hf;
        destruct (fit_height a b c d e f g h) as [fit t]
    end;
    cbn [fst] in Hf;
    intros H; injection H as H _; subst l;
    cbn [start_y text_lines line_height]; rewrite <- Hf;
    pose proof (Z.div_mod (ty2 - ty1 - fit_total fit) 2 ltac:(lia));
    pose proof (Z.mod_pos_bound (ty2 - ty1 - fit_total fit) 2 ltac:(lia));
    lia.
Qed.

End Calls.

Section FontsSized.

Lemma first_loadable_sized W size :
  forall cands,
    Chain.first_loadable W cands size = DefaultFont
    \/ exists tested opened,
         In (tested, opened) cands
         /\ path_exists W tested = true
         /\ truetype_ok W opened size = true
         /\ Chain.first_loadable W cands size = FreeTypeFont opened size.
Proof.
  induction cands as [|[tested opened] rest IH]; [now left|].
  cbn [Chain.first_loadable].
  destruct (path_exists W tested && truetype_ok W opened size) eqn:E.
  - right. apply andb_true_iff in E. destruct E.
    exists tested, opened. repeat split; try assumption. now left.
  - destruct IH as [IH|(t & o & Hin & H1 & H2 & H3)]; [now left|].
    right. exists t, o. repeat split; try assumption. now right.
Qed.

Lemma loaders_sized W cf font_family font_size bold_level f :
  f = Fonts.load_font_for_overlay W font_family font_size cf
  \/ f = Fonts._load_pil_font_with_bold W cf font_family font_size bold_level ->
  f = DefaultFont
  \/ exists p, f = FreeTypeFont p font_size
               /\ truetype_ok W p font_size = true.
Proof.
  intros [->| ->].
  - rewrite load_font_for_overlay_chain.
    destruct (first_loadable_sized W font_size
                (Chain.plain_chain W font_family cf))
      as [H|(t & o & _ & _ & H2 & H3)]; [now left|].
    right. now exists o.
  - rewrite load_pil_font_with_bold_chain.
    destruct (first_loadable_sized W font_size
                (Chain.bold_chain W font_family bold_level cf))
      as [H|(t & o & _ & _ & H2 & H3)]; [now left|].
    right. now exists o.
Qed.

End FontsSized.

(** ** Stripping, and the lines of the OCR *)

Section Strip.

Import Py PyText Sample.

Lemma lstrip_split (s : str) :
  exists a, s = a ++ lstrip s /\ is_blank a = true
            /\ match lstrip s with
               | [] => True
               | c :: _ => isspace c = false
               end.
Proof.
  induction s as [|c tl (a & E & Ha & Hh)].
  - exists []. now repeat split.
  - cbn [lstrip]. destruct (isspace c) eqn:Hc.
    + exists (c :: a). repeat split.
      * cbn [app]. now rewrite <- E.
      * unfold is_blank in *. cbn [forallb]. now rewrite Hc, Ha.
      * exact Hh.
    + exists []. repeat split. exact Hc.
Qed.

Lemma is_blank_rev (s : str) : is_blank (rev s) = is_blank s.
Proof.
  unfold is_blank. induction s as [|c tl IH]; [reflexivity|].
  cbn [rev forallb]. rewrite forallb_app, IH. cbn [forallb].
  rewrite andb_true_r. apply andb_comm.
Qed.

Lemma is_blank_app (a b : str) :
  is_blank (a ++ b) = is_blank a && is_blank b.
Proof. apply forallb_app. Qed.

Lemma lstrip_head (s : str) (c : char) :
  isspace c = false -> lstrip (c :: s) = c :: s.
Proof. intros H. cbn [lstrip]. now rewrite H. Qed.

(** [strip] cuts a blank prefix and a blank suffix, and what is left
    neither starts nor ends with white space. *)
Lemma strip_split (s : str) :
  exists a b,
    s = a ++ strip s ++ b
    /\ is_blank a = true /\ is_blank b = true
    /\ match strip s with
       | [] => True
       | c :: _ => isspace c = false
       end
    /\ match rev (strip s) with
       | [] => True
       | c :: _ => isspace c = false
       end.
Proof.
  destruct (lstrip_split s) as (a & Ea & Ha & Hh).
  unfold strip, rstrip.
  destruct (lstrip_split (rev (lstrip s))) as (b & Eb & Hb & Hl).
  exists a, (rev b).
  assert (E : lstrip s = rev (lstrip (rev (lstrip s))) ++ rev b).
  { rewrite <- rev_app_distr, <- Eb. now rewrite rev_involutive. }
  repeat split.
  - rewrite <- E. exact Ea.
  - exact Ha.
  - now rewrite is_blank_rev.
  - destruct (lstrip (rev (lstrip s))) as [|d m] eqn:Em; [exact I|].
    (* the head of the stripped text is the head of [lstrip s] *)
    rewrite E in Hh. cbn [rev] in *.
    destruct (rev m) as [|e m'] eqn:Er; cbn [app] in *; [|exact Hh].
    exact Hl.
  - rewrite rev_involutive. exact Hl.
Qed.

Lemma strip_blank (s : str) : truthy (strip s) = negb (is_blank s).
Proof.
  destruct (strip_split s) as (a & b & E & Ha & Hb & Hh & _).
  destruct (strip s) as [|c m] eqn:Es.
  - cbn [truthy]. rewrite E. rewrite !is_blank_app, Ha, Hb. reflexivity.
  - cbn [truthy]. rewrite E. rewrite !is_blank_app.
    unfold is_blank at 2. cbn [forallb]. rewrite Hh.
    now rewrite andb_false_r.
Qed.

Lemma visible_chars_strip (s : str) :
  visible_chars (strip s) = visible_chars s.
Proof.
  destruct (strip_split s) as (a & b & E & Ha & Hb & _).
  rewrite E at 2. rewrite !visible_chars_app.
  rewrite (visible_chars_blank a Ha), (visible_chars_blank b Hb).
  now rewrite app_nil_r.
Qed.

Lemma rstrip_last (s : str) (c : char) :
  isspace c = false -> rstrip (s ++ [c]) = s ++ [c].
Proof.
  intros H. unfold rstrip. rewrite rev_app_distr. cbn [rev app].
  rewrite (lstrip_head _ _ H). cbn [rev]. now rewrite rev_involutive.
Qed.

Lemma strip_strip (s : str) : strip (strip s) = strip s.
Proof.
  destruct (strip_split s) as (_ & _ & _ & _ & _ & Hh & Hl).
  destruct (strip s) as [|c m] eqn:Es; [reflexivity|].
  unfold strip at 1. rewrite (lstrip_head m c Hh).
  destruct (rev (c :: m)) as [|d m'] eqn:Er.
  - apply (f_equal (@rev char)) in Er. rewrite rev_involutive in Er.
    discriminate.
  - apply (f_equal (@rev char)) in Er. rewrite rev_involutive in Er.
    cbn [rev] in Er. rewrite Er. now apply rstrip_last.
Qed.

Lemma strip_no_newline (s : str) :
  ~ In newline s -> ~ In newline (strip s).
Proof.
  destruct (strip_split s) as (a & b & E & _).
  intros H Hin. apply H. rewrite E. apply in_or_app. right.
  apply in_or_app. now left.
Qed.

Lemma split_on_pieces sep (s : str) :
  Forall (fun p => ~ In sep p) (split_on sep s).
Proof.
  induction s as [|c tl IH]; cbn [split_on].
  - constructor; [intros []|constructor].
  - destruct (c =? sep)%N eqn:E.
    + constructor; [intros []|exact IH].
    + destruct (split_on sep tl) as [|p ps].
      * constructor; [|constructor]. intros [H|[]]. subst.
        now rewrite N.eqb_refl in E.
      * inversion IH as [|? ? Hp Hps]; subst.
        constructor; [|exact Hps]. intros [H|H]; [|now apply Hp].
        subst. now rewrite N.eqb_refl in E.
Qed.

End Strip.

Section OcrLines.

Import Py PyText Sample Ocr.

Lemma text_lines_clean (full_text : str) :
  Forall (fun l => l <> [] /\ strip l = l /\ ~ In newline l)
    (text_lines full_text).
Proof.
  unfold text_lines.
  pose proof (split_on_pieces newline full_text) as H.
  induction H as [|p ps Hp _ IH]; [constructor|].
  cbn [filter]. destruct (truthy (strip p)) eqn:E; [|exact IH].
  cbn [map]. constructor; [|exact IH].
  repeat split.
  - intros H0. rewrite H0 in E. discriminate.
  - apply strip_strip.
  - now apply strip_no_newline.
Qed.

Lemma text_lines_visible (full_text : str) :
  visible_chars (List.concat (text_lines full_text))
  = visible_chars full_text.
Proof.
  rewrite <- (visible_chars_split_on_newline full_text).
  unfold text_lines.
  induction (split_on newline full_text) as [|p ps IH]; [reflexivity|].
  cbn [filter List.concat]. rewrite visible_chars_app, <- IH.
  destruct (truthy (strip p)) eqn:E.
  - cbn [map List.concat]. now rewrite visible_chars_app, visible_chars_strip.
  - rewrite strip_blank in E. apply negb_false_iff in E.
    now rewrite (visible_chars_blank p E).
Qed.

End OcrLines.

(** ** The list of regions *)

Section Regions.

Import Py PyText Canvas Tool.

Lemma assign_length {A : Type} (l : list A) :
  forall i a, List.length (assign l i a) = List.length l.
Proof.
  induction l as [|x tl IH]; intros [|i] a; cbn [assign List.length];
    try reflexivity. now rewrite IH.
Qed.

Lemma assign_same {A : Type} (l : list A) :
  forall i a, (i < List.length l)%nat -> nth_error (assign l i a) i = Some a.
Proof.
  induction l as [|x tl IH]; intros [|i] a H; cbn [List.length] in H;
    try lia; cbn [assign nth_error]; [reflexivity|].
  apply IH. lia.
Qed.

Lemma assign_other {A : Type} (l : list A) :
  forall i j a, i <> j -> nth_error (assign l i a) j = nth_error l j.
Proof.
  induction l as [|x tl IH]; intros [|i] [|j] a H; cbn [assign nth_error];
    try reflexivity; try congruence.
  apply IH. congruence.
Qed.

(** The scan looks at the regions through [hit] only. *)
Lemma scan_down_ext current_filename x y regs regs' :
  forall n,
    (forall j, (j < n)%nat ->
       match nth_error regs j, nth_error regs' j with
       | Some r, Some r' =>
           hit current_filename x y r = hit current_filename x y r'
       | None, None => True
       | Some r, None => hit current_filename x y r = false
       | None, Some r' => hit current_filename x y r' = false
       end) ->
    scan_down current_filename x y regs n
    = scan_down current_filename x y regs' n.
Proof.
  induction n as [|n IH]; intros H; [reflexivity|].
  cbn [scan_down]. pose proof (H n ltac:(lia)) as Hn.
  assert (E : scan_down current_filename x y regs n
              = scan_down current_filename x y regs' n)
    by (apply IH; intros j Hj; apply H; lia).
  destruct (nth_error regs n) as [r|], (nth_error regs' n) as [r'|].
  - rewrite Hn. now rewrite E.
  - now rewrite Hn.
  - now rewrite Hn.
  - exact E.
Qed.

Lemma unplaced_not_hit current_filename x y r :
  unplaced r -> hit current_filename x y r = false.
Proof.
  intros (H1 & _ & _). unfold hit. rewrite H1. now rewrite andb_false_r.
Qed.

Lemma scan_down_over_unplaced current_filename x y regs news :
  Forall unplaced news ->
  forall n,
    (n <= List.length news)%nat ->
    scan_down current_filename x y (regs ++ news) (List.length regs + n)
    = scan_down current_filename x y regs (List.length regs).
Proof.
  intros Hn. induction n as [|n IH]; intros Hle.
  - rewrite Nat.add_0_r. apply scan_down_ext. intros j Hj.
    rewrite nth_error_app1 by exact Hj.
    destruct (nth_error regs j); [reflexivity | exact I].
  - rewrite Nat.add_succ_r. cbn [scan_down].
    rewrite nth_error_app2 by lia.
    replace (List.length regs + n - List.length regs)%nat with n by lia.
    destruct (nth_error news n) as [r|] eqn:E.
    + assert (Hr : unplaced r).
      { rewrite Forall_forall in Hn. apply Hn. eapply nth_error_In. exact E. }
      rewrite (unplaced_not_hit _ _ _ _ Hr). apply IH. lia.
    + apply IH. lia.
Qed.

Lemma get_text_at_position_over_unplaced basename jp regs news pos :
  Forall unplaced news ->
  get_text_at_position basename jp (regs ++ news) pos
  = get_text_at_position basename jp regs pos.
Proof.
  intros Hn. unfold get_text_at_position.
  destruct jp as [path|]; [|reflexivity].
  destruct (String.eqb path ""); [reflexivity|].
  destruct pos as [x y]. rewrite length_app.
  now apply scan_down_over_unplaced.
Qed.

Lemma on_vision_ocr_completed_appends fs color fam (lines : list str) :
  forall regs,
    exists news,
      on_vision_ocr_completed fs color fam regs lines = regs ++ news
      /\ map Region.text news
         = map strip (filter (fun l => truthy (strip l)) lines)
      /\ Forall unplaced news
      /\ Forall (fun r => Region.font_size r = fs
                          /\ Region.font_family r = fam
                          /\ Region.color r = color
                          /\ Region.margin r = 2) news.
Proof.
  unfold on_vision_ocr_completed.
  induction lines as [|l ls IH]; intros regs.
  - exists []. cbn. rewrite app_nil_r. repeat split; constructor.
  - cbn [fold_left filter].
    destruct (truthy (strip l)).
    + destruct (IH (regs ++ [placed (TextRegion (strip l) fs color fam 2)
                               None false None]))
        as (news & E & Ht & Hu & Hf).
      eexists (_ :: news). rewrite E, <- app_assoc. split; [reflexivity|].
      cbn [map]. rewrite Ht. repeat split.
      * constructor; [now repeat split | exact Hu].
      * constructor; [now repeat split | exact Hf].
    + apply IH.
Qed.

Lemma text_lines_again (full_text : str) :
  map strip (filter (fun l => truthy (strip l)) (Ocr.text_lines full_text))
  = Ocr.text_lines full_text.
Proof.
  pose proof (text_lines_clean full_text) as H.
  induction H as [|l ls (Hne & Hs & _) _ IH]; [reflexivity|].
  cbn [filter]. rewrite Hs.
  destruct l as [|c m]; [congruence|]. cbn [truthy map].
  now rewrite Hs, IH.
Qed.

Lemma texts_of_some (full_text : str) :
  Ocr.texts_of (Some full_text) = Ocr.text_lines full_text.
Proof.
  unfold Ocr.texts_of. destruct full_text; reflexivity.
Qed.

Lemma hit_placed current_filename x y r x1 y1 x2 y2 :
  x1 <= x <= x2 -> y1 <= y <= y2 ->
  hit current_filename x y
    (placed r (Some (x1, y1, x2, y2)) true (Some current_filename)) = true.
Proof.
  intros Hx Hy. unfold hit, placed. cbn.
  rewrite String.eqb_refl. cbn [andb].
  repeat (apply andb_true_iff; split); lia.
Qed.

Lemma reset_text_position_spec regs k reply :
  List.length (reset_text_position regs k reply) = List.length regs
  /\ forall j, Z.of_nat j <> k ->
       nth_error (reset_text_position regs k reply) j = nth_error regs j.
Proof.
  unfold reset_text_position.
  destruct (_ || _) eqn:E; [now split|].
  apply orb_false_iff in E. destruct E as [E _]. apply Z.ltb_ge in E.
  destruct (nth_error regs (Z.to_nat k)) as [r|]; [|now split].
  destruct (negb _); [now split|].
  destruct reply; [|now split].
  split; [apply assign_length|].
  intros j Hj. apply assign_other. lia.
Qed.

Lemma reset_row_unplaced regs k r' :
  0 <= k ->
  nth_error (reset_text_position regs k true) (Z.to_nat k) = Some r' ->
  Region.is_positioned r' = false.
Proof.
  intros Hk. unfold reset_text_position.
  destruct (_ || _) eqn:E.
  { apply orb_true_iff in E. destruct E as [E|E]; [lia|].
    apply Z.leb_le in E. intros H.
    assert (Z.to_nat k < List.length regs)%nat
      by (apply nth_error_Some; congruence).
    lia. }
  apply orb_false_iff in E. destruct E as [_ E]. apply Z.leb_gt in E.
  destruct (nth_error regs (Z.to_nat k)) as [r|] eqn:En; [|congruence].
  destruct (Region.is_positioned r) eqn:Ep; cbn [negb].
  - rewrite assign_same by lia. intros H. injection H as <-. reflexivity.
  - rewrite En. intros H. injection H as <-. exact Ep.
Qed.

Lemma reset_text_out_of_reach basename jp regs k pos :
  0 <= k ->
  get_text_at_position basename jp (reset_text_position regs k true) pos <> k.
Proof.
  intros Hk. unfold get_text_at_position.
  destruct jp as [path|]; [|lia].
  destruct (String.eqb path "") eqn:Ep; [lia|].
  destruct pos as [x y].
  destruct (scan_down_spec (basename path) x y
              (reset_text_position regs k true)
              (List.length (reset_text_position regs k true)))
    as [[E _]|(i & r & E & _ & Hn & Hh & _)]; rewrite E; [lia|].
  intros Hik. subst k.
  pose proof (reset_row_unplaced regs (Z.of_nat i) r Hk) as H.
  rewrite Nat2Z.id in H. specialize (H Hn).
  unfold hit in Hh. rewrite H in Hh. now rewrite andb_false_r in Hh.
Qed.

Lemma move_selected_text_box_spec basename jp_image_path jp_image regs k dx dy :
  List.length
    (move_selected_text_box basename jp_image_path jp_image regs k dx dy)
  = List.length regs
  /\ forall j r',
       nth_error
         (move_selected_text_box basename jp_image_path jp_image regs k dx dy)
         j = Some r' ->
       exists r,
         nth_error regs j = Some r
         /\ Region.text r' = Region.text r
         /\ (r' = r
             \/ (Z.of_nat j = k
                 /\ exists b,
                      Region.target_bbox r = Some b
                      /\ Region.target_bbox r'
                         = Some (nudged jp_image b dx dy))).
Proof.
  unfold move_selected_text_box.
  assert (Hsame : List.length regs = List.length regs
                  /\ forall j r', nth_error regs j = Some r' ->
                       exists r, nth_error regs j = Some r
                                 /\ Region.text r' = Region.text r
                                 /\ (r' = r
                                     \/ (Z.of_nat j = k
                                         /\ exists b,
                                              Region.target_bbox r = Some b
                                              /\ Region.target_bbox r'
                                                 = Some (nudged jp_image b
                                                           dx dy))))
    by (split; [reflexivity | intros j r' H; exists r'; auto]).
  destruct (_ || _) eqn:E; [exact Hsame|].
  apply orb_false_iff in E. destruct E as [E1 E2].
  apply Z.ltb_ge in E1. apply Z.leb_gt in E2.
  destruct (nth_error regs (Z.to_nat k)) as [r|] eqn:En; [|exact Hsame].
  destruct (negb _); [exact Hsame|].
  destruct (Region.target_bbox r) as [b|] eqn:Eb; [|exact Hsame].
  destruct jp_image_path as [path|]; [|exact Hsame].
  destruct (String.eqb path ""); [exact Hsame|].
  destruct (Region.image_filename r) as [n|]; [|exact Hsame].
  destruct (String.eqb n (basename path)); [|exact Hsame].
  split; [apply assign_length|].
  intros j r' Hj.
  destruct (Nat.eq_dec (Z.to_nat k) j) as [<-|Hne].
  - rewrite assign_same in Hj by lia. injection Hj as <-.
    exists r. split; [exact En|]. split; [reflexivity|].
    right. split; [lia|]. exists b. now split.
  - rewrite assign_other in Hj by exact Hne.
    exists r'. auto.
Qed.

End Regions.

Section ImagePosition.

Import Py Canvas.

Lemma int_quotient (a c : Z) :
  0 <= a -> 0 < c -> int (inject_Z a / inject_Z c) = a / c.
Proof.
  intros Ha Hc. destruct c as [|c|c]; try lia.
  rewrite int_nonneg.
  - unfold Qfloor, Qdiv, Qmult, Qinv, inject_Z. simpl.
    now rewrite Z.mul_1_r.
  - unfold Qle, Qdiv, Qmult, Qinv, inject_Z. simpl. nia.
Qed.

Lemma scaled_in_range (p n m : Z) :
  0 <= p < m -> 0 < n -> 0 <= p * n / m < n.
Proof.
  intros Hp Hn. split.
  - apply Z.div_pos; nia.
  - apply Z.div_lt_upper_bound; nia.
Qed.

Lemma get_image_position_on_pixmap img_h img_w pw ph lw lh wx wy :
  0 < img_h -> 0 < img_w ->
  let px := wx - Z.max 0 ((lw - pw) / 2) in
  let py := wy - Z.max 0 ((lh - ph) / 2) in
  _get_image_position (Some (img_h, img_w)) (Some (pw, ph)) (lw, lh) (wx, wy)
  = if (0 <=? px) && (px <? pw) && (0 <=? py) && (py <? ph)
    then Some (px * img_w / pw, py * img_h / ph)
    else None.
Proof.
  intros Hh Hw px py. unfold _get_image_position. cbv zeta.
  fold px. fold py.
  destruct ((0 <=? px) && (px <? pw) && (0 <=? py) && (py <? ph)) eqn:E;
    [|reflexivity].
  repeat (apply andb_true_iff in E; destruct E as [E ?]).
  assert (Hpx : 0 <= px < pw) by lia.
  assert (Hpy : 0 <= py < ph) by lia.
  rewrite !int_quotient by nia.
  pose proof (scaled_in_range px img_w pw Hpx Hw).
  pose proof (scaled_in_range py img_h ph Hpy Hh).
  replace (0 <=? px * img_w / pw) with true by lia.
  replace (px * img_w / pw <? img_w) with true by lia.
  replace (0 <=? py * img_h / ph) with true by lia.
  replace (py * img_h / ph <? img_h) with true by lia.
  reflexivity.
Qed.

End ImagePosition.

(** ** Further properties of hit testing and editing *)

Section FurtherEditing.

Import Py Canvas Edit Tool Fixture.

(** X9.  With an image open, [get_text_at_position] returns the index
    of the topmost region under the point: the region at that index is
    placed on the open image with the point in its box, and no region
    at a higher index is.  It returns -1 exactly when no region of the
    list is under the point. *)
Theorem hit_test_returns_topmost basename path regs x y :
  path <> ""%string ->
  (get_text_at_position basename (Some path) regs (x, y) = -1
   /\ forall r, In r regs -> hit (basename path) x y r = false)
  \/ (exists i r x1 y1 x2 y2,
        get_text_at_position basename (Some path) regs (x, y) = Z.of_nat i
        /\ nth_error regs i = Some r
        /\ Region.image_filename r = Some (basename path)
        /\ Region.is_positioned r = true
        /\ Region.target_bbox r = Some (x1, y1, x2, y2)
        /\ x1 <= x <= x2 /\ y1 <= y <= y2
        /\ forall j r', (i < j)%nat -> nth_error regs j = Some r' ->
                        hit (basename path) x y r' = false).
Proof.
  intros Hp.
  destruct (get_text_at_position_topmost basename path regs x y Hp)
    as [H|(i & r & E & Hn & Hh & Htop)]; [now left|].
  right.
  destruct (hit_inside _ _ _ _ Hh)
    as (Hf & Hpos & x1 & y1 & x2 & y2 & Hb & Hx & Hy).
  exists i, r, x1, y1, x2, y2. repeat split; try assumption; lia.
Qed.

Lemma hit_test_returns_topmost_witness :
  page <> ""%string
  /\ ((get_text_at_position basename (Some page) [loose_note; note] (15, 15)
       = -1
       /\ forall r, In r [loose_note; note] ->
                    hit (basename page) 15 15 r = false)
      \/ (exists i r x1 y1 x2 y2,
            get_text_at_position basename (Some page) [loose_note; note]
              (15, 15) = Z.of_nat i
            /\ nth_error [loose_note; note] i = Some r
            /\ Region.image_filename r = Some (basename page)
            /\ Region.is_positioned r = true
            /\ Region.target_bbox r = Some (x1, y1, x2, y2)
            /\ x1 <= 15 <= x2 /\ y1 <= 15 <= y2
            /\ forall j r', (i < j)%nat ->
                            nth_error [loose_note; note] j = Some r' ->
                            hit (basename page) 15 15 r' = false)).
Proof.
  assert (H : page <> ""%string) by (intros H; discriminate H).
  split; [exact H|].
  exact (hit_test_returns_topmost basename page [loose_note; note] 15 15 H).
Defined.

(** X10.  A press of the left button that selects a region selects one
    whose box holds the point.  When that box is at most 40 pixels wide
    and 40 pixels high, the press always starts a resize, never a move:
    the four handle zones of 20 pixels cover the box.  When the point
    is more than 20 pixels away from both ends of the box along one
    axis, the press starts a move. *)
Theorem press_grab_by_box_size basename path regs x y k g :
  path <> ""%string ->
  mousePressEvent basename (Some path) regs (Some (x, y)) = Some (k, g) ->
  exists r x1 y1 x2 y2,
    nth_error regs (Z.to_nat k) = Some r
    /\ Region.target_bbox r = Some (x1, y1, x2, y2)
    /\ x1 <= x <= x2 /\ y1 <= y <= y2
    /\ (x2 - x1 <= 40 -> y2 - y1 <= 40 -> exists h, g = Resizing h)
    /\ (x1 + 20 < x < x2 - 20 \/ y1 + 20 < y < y2 - 20 -> g = Moving).
Proof.
  intros Hp H.
  destruct (press_grabs basename path regs x y k g Hp H)
    as (i & r & x1 & y1 & x2 & y2 & -> & Hn & _ & Hb & Hx & Hy & _ & Hg).
  exists r, x1, y1, x2, y2. rewrite Nat2Z.id.
  repeat split; try assumption; try lia.
  - intros Hw Hh.
    pose proof (handle_at_small x1 y1 x2 y2 x y Hw Hh Hx Hy) as Hs.
    destruct (handle_at (x1, y1, x2, y2) (x, y)) as [h|]; [|congruence].
    now exists h.
  - intros Hm. now rewrite (handle_at_middle x1 y1 x2 y2 x y Hm) in Hg.
Qed.

Lemma press_grab_by_box_size_witness :
  page <> ""%string
  /\ mousePressEvent basename (Some page) [note] (Some (25, 25))
     = Some (0, Resizing SE)
  /\ exists r x1 y1 x2 y2,
       nth_error [note] (Z.to_nat 0) = Some r
       /\ Region.target_bbox r = Some (x1, y1, x2, y2)
       /\ x1 <= 25 <= x2 /\ y1 <= 25 <= y2
       /\ (x2 - x1 <= 40 -> y2 - y1 <= 40 ->
           exists h, Resizing SE = Resizing h)
       /\ (x1 + 20 < 25 < x2 - 20 \/ y1 + 20 < 25 < y2 - 20 ->
           Resizing SE = Moving).
Proof.
  assert (H : page <> ""%string) by (intros H; discriminate H).
  split; [exact H|]. split; [reflexivity|].
  exact (press_grab_by_box_size basename page [note] 25 25 0 (Resizing SE) H
           eq_refl).
Defined.

(** X11.  For a region placed on the open image whose box is more than
    20 pixels wide and high, [get_resize_handle] at each corner of the
    box returns the handle of that corner. *)
Theorem resize_handle_at_corners basename path regs i r x1 y1 x2 y2 :
  path <> ""%string ->
  nth_error regs i = Some r ->
  Region.is_positioned r = true ->
  Region.target_bbox r = Some (x1, y1, x2, y2) ->
  Region.image_filename r = Some (basename path) ->
  20 < x2 - x1 -> 20 < y2 - y1 ->
  get_resize_handle basename (Some path) regs (x2, y2) (Z.of_nat i) = Some SE
  /\ get_resize_handle basename (Some path) regs (x2, y1) (Z.of_nat i)
     = Some NE
  /\ get_resize_handle basename (Some path) regs (x1, y2) (Z.of_nat i)
     = Some SW
  /\ get_resize_handle basename (Some path) regs (x1, y1) (Z.of_nat i)
     = Some NW.
Proof.
  intros Hp Hn Hpos Hb Hf Hw Hh.
  rewrite !(get_resize_handle_at basename path regs _ i r _ Hp Hn Hpos Hb Hf).
  now apply handle_at_corners.
Qed.

Lemma resize_handle_at_corners_witness :
  page <> ""%string
  /\ nth_error [note] 0 = Some note
  /\ Region.is_positioned note = true
  /\ Region.target_bbox note = Some (10, 10, 40, 40)
  /\ Region.image_filename note = Some (basename page)
  /\ 20 < 40 - 10 /\ 20 < 40 - 10
  /\ get_resize_handle basename (Some page) [note] (40, 40) (Z.of_nat 0)
     = Some SE
  /\ get_resize_handle basename (Some page) [note] (40, 10) (Z.of_nat 0)
     = Some NE
  /\ get_resize_handle basename (Some page) [note] (10, 40) (Z.of_nat 0)
     = Some SW
  /\ get_resize_handle basename (Some page) [note] (10, 10) (Z.of_nat 0)
     = Some NW.
Proof.
  assert (H : page <> ""%string) by (intros H; discriminate H).
  assert (H1 : 20 < 40 - 10) by reflexivity.
  split; [exact H|]. do 4 (split; [reflexivity|]).
  split; [exact H1|]. split; [exact H1|].
  exact (resize_handle_at_corners basename page [note] 0%nat note 10 10 40 40
           H eq_refl eq_refl eq_refl eq_refl H1 H1).
Defined.

(** X12.  With an image of positive size shown, [_get_image_position]
    maps every point of the pixmap to a pixel of the image, by the
    scale of the image to the pixmap rounded down, and returns nothing
    for a point beside the pixmap: the test of the image bounds that
    follows the conversion never fails. *)
Theorem image_position_on_pixmap img_h img_w pw ph lw lh wx wy :
  0 < img_h -> 0 < img_w ->
  let px := wx - Z.max 0 ((lw - pw) / 2) in
  let py := wy - Z.max 0 ((lh - ph) / 2) in
  _get_image_position (Some (img_h, img_w)) (Some (pw, ph)) (lw, lh) (wx, wy)
  = (if (0 <=? px) && (px <? pw) && (0 <=? py) && (py <? ph)
     then Some (px * img_w / pw, py * img_h / ph)
     else None)
  /\ forall x y,
       _get_image_position (Some (img_h, img_w)) (Some (pw, ph)) (lw, lh)
         (wx, wy) = Some (x, y) ->
       0 <= x < img_w /\ 0 <= y < img_h.
Proof.
  intros Hh Hw px py.
  pose proof (get_image_position_on_pixmap img_h img_w pw ph lw lh wx wy
                Hh Hw) as E.
  cbv zeta in E. fold px in E. fold py in E.
  split; [exact E|]. intros x y. rewrite E.
  destruct ((0 <=? px) && (px <? pw) && (0 <=? py) && (py <? ph)) eqn:Eb;
    [|discriminate].
  repeat (apply andb_true_iff in Eb; destruct Eb as [Eb ?]).
  intros H'. injection H' as <- <-.
  split; apply scaled_in_range; lia.
Qed.

Lemma image_position_on_pixmap_witness :
  0 < 100 /\ 0 < 200
  /\ _get_image_position (Some (100, 200)) (Some (400, 200)) (500, 200)
       (55, 7) = Some (2, 3).
Proof.
  assert (H1 : 0 < 100) by reflexivity.
  assert (H2 : 0 < 200) by reflexivity.
  split; [exact H1|]. split; [exact H2|].
  exact (proj1 (image_position_on_pixmap 100 200 400 200 500 200 55 7 H1 H2)).
Defined.

(** X13.  A drag that leaves the box on the pixels of the image moves
    it by exactly the distance of the drag: [move_text_box] is a
    translation as long as the moved box stays between 0 and the last
    pixel. *)
Theorem move_is_translation_inside img_h img_w x1 y1 x2 y2 dx dy :
  (dx, dy) <> (0, 0) ->
  x1 < x2 -> y1 < y2 ->
  0 <= x1 + dx -> x2 + dx <= img_w - 1 ->
  0 <= y1 + dy -> y2 + dy <= img_h - 1 ->
  move_text_box (img_h, img_w) (img_h, img_w) (x1, y1, x2, y2) dx dy
  = Some (x1 + dx, y1 + dy, x2 + dx, y2 + dy).
Proof.
  intros Hd Hx Hy Hx1 Hx2 Hy1 Hy2. unfold move_text_box, safe_clamp.
  destruct ((dx =? 0) && (dy =? 0)) eqn:E.
  - apply andb_true_iff in E. destruct E as [E1 E2].
    apply Z.eqb_eq in E1, E2. subst. congruence.
  - cbv zeta. apply f_equal.
    repeat match goal with |- (_, _) = (_, _) => apply f_equal2 end; lia.
Qed.

Lemma move_is_translation_inside_witness :
  (5, 0) <> (0, 0)
  /\ 10 < 40 /\ 10 < 40
  /\ 0 <= 10 + 5 /\ 40 + 5 <= 200 - 1
  /\ 0 <= 10 + 0 /\ 40 + 0 <= 100 - 1
  /\ move_text_box (100, 200) (100, 200) (10, 10, 40, 40) 5 0
     = Some (10 + 5, 10 + 0, 40 + 5, 40 + 0).
Proof.
  assert (H0 : (5, 0) <> (0, 0)) by (intros H; discriminate H).
  assert (H1 : 10 < 40) by reflexivity.
  assert (H2 : 0 <= 10 + 5) by (vm_compute; discriminate).
  assert (H3 : 40 + 5 <= 200 - 1) by (vm_compute; discriminate).
  assert (H4 : 0 <= 10 + 0) by (vm_compute; discriminate).
  assert (H5 : 40 + 0 <= 100 - 1) by (vm_compute; discriminate).
  split; [exact H0|]. split; [exact H1|]. split; [exact H1|].
  split; [exact H2|]. split; [exact H3|]. split; [exact H4|].
  split; [exact H5|].
  exact (move_is_translation_inside 100 200 10 10 40 40 5 0 H0 H1 H1 H2 H3
           H4 H5).
Defined.

(** X14.  A box of two pixels or more each way that is dragged to or
    past the right and the bottom edge ends one pixel narrower and one
    pixel less high than it was: the move stops it with its far corner at
    the size of the image, and the clamp that follows pulls that corner
    back to the last pixel. *)
Theorem move_to_far_edge_loses_pixel img_h img_w x1 y1 x2 y2 dx dy :
  (dx, dy) <> (0, 0) ->
  2 <= x2 - x1 <= img_w -> 2 <= y2 - y1 <= img_h ->
  img_w - x2 <= dx -> img_h - y2 <= dy ->
  exists b,
    move_text_box (img_h, img_w) (img_h, img_w) (x1, y1, x2, y2) dx dy
    = Some b
    /\ b = (img_w - (x2 - x1), img_h - (y2 - y1), img_w - 1, img_h - 1)
    /\ width b = x2 - x1 - 1
    /\ height b = y2 - y1 - 1.
Proof.
  intros Hd Hx Hy Hdx Hdy. eexists. split.
  - now apply move_text_box_at_far_edge.
  - split; [reflexivity|]. unfold width, height. lia.
Qed.

Lemma move_to_far_edge_loses_pixel_witness :
  (500, 500) <> (0, 0)
  /\ 2 <= 40 - 10 <= 200 /\ 2 <= 40 - 10 <= 100
  /\ 200 - 40 <= 500 /\ 100 - 40 <= 500
  /\ exists b,
       move_text_box (100, 200) (100, 200) (10, 10, 40, 40) 500 500 = Some b
       /\ b = (200 - (40 - 10), 100 - (40 - 10), 200 - 1, 100 - 1)
       /\ width b = 40 - 10 - 1
       /\ height b = 40 - 10 - 1.
Proof.
  assert (H0 : (500, 500) <> (0, 0)) by (intros H; discriminate H).
  assert (H1 : 2 <= 40 - 10 <= 200)
    by (split; vm_compute; discriminate).
  assert (H2 : 2 <= 40 - 10 <= 100)
    by (split; vm_compute; discriminate).
  assert (H3 : 200 - 40 <= 500) by (vm_compute; discriminate).
  assert (H4 : 100 - 40 <= 500) by (vm_compute; discriminate).
  split; [exact H0|]. split; [exact H1|]. split; [exact H2|].
  split; [exact H3|]. split; [exact H4|].
  exact (move_to_far_edge_loses_pixel 100 200 10 10 40 40 500 500 H0 H1 H2
           H3 H4).
Defined.

(** X15.  A resize of a box that lies on the image and is at least 30
    pixels each way leaves the corner opposite the handle where it was,
    and gives a box that lies on the image and is at least 30 pixels
    each way, whatever the distance of the drag. *)
Theorem resize_keeps_anchor_and_min_size img_h img_w h x1 y1 x2 y2 dx dy :
  (dx, dy) <> (0, 0) ->
  within (img_h, img_w) (x1, y1, x2, y2) ->
  min_size <= x2 - x1 -> min_size <= y2 - y1 ->
  exists nx1 ny1 nx2 ny2,
    resize_text_box (img_h, img_w) (img_h, img_w) h (x1, y1, x2, y2) dx dy
    = Some (nx1, ny1, nx2, ny2)
    /\ within (img_h, img_w) (nx1, ny1, nx2, ny2)
    /\ min_size <= nx2 - nx1 /\ min_size <= ny2 - ny1
    /\ match h with
       | SE => nx1 = x1 /\ ny1 = y1
       | NE => nx1 = x1 /\ ny2 = y2
       | SW => nx2 = x2 /\ ny1 = y1
       | NW => nx2 = x2 /\ ny2 = y2
       end.
Proof.
  intros Hd Hw Hx Hy. unfold resize_text_box.
  destruct ((dx =? 0) && (dy =? 0)) eqn:E.
  { apply andb_true_iff in E. destruct E as [E1 E2].
    apply Z.eqb_eq in E1, E2. subst. congruence. }
  pose proof (resize_corner_room img_h img_w h x1 y1 x2 y2 dx dy Hw Hx Hy)
    as Hr.
  destruct (resize_corner _ _ _ _ _) as [[[a1 b1] a2] b2].
  destruct Hr as (H1 & H2 & H3 & H4 & H5 & H6 & Ha).
  rewrite (safe_clamp_roomy img_h img_w a1 b1 a2 b2 H1 H2 H3 H4 H5 H6).
  eexists _, _, _, _. split; [reflexivity|].
  unfold within, min_size in *.
  destruct h; lia.
Qed.

Lemma resize_keeps_anchor_and_min_size_witness :
  (-500, -500) <> (0, 0)
  /\ within (100, 200) (10, 10, 40, 40)
  /\ min_size <= 40 - 10 /\ min_size <= 40 - 10
  /\ exists nx1 ny1 nx2 ny2,
       resize_text_box (100, 200) (100, 200) SE (10, 10, 40, 40) (-500) (-500)
       = Some (nx1, ny1, nx2, ny2)
       /\ within (100, 200) (nx1, ny1, nx2, ny2)
       /\ min_size <= nx2 - nx1 /\ min_size <= ny2 - ny1
       /\ (nx1 = 10 /\ ny1 = 10).
Proof.
  assert (H0 : (-500, -500) <> (0, 0)) by (intros H; discriminate H).
  assert (H1 : within (100, 200) (10, 10, 40, 40))
    by (repeat split; vm_compute; discriminate || reflexivity).
  assert (H2 : min_size <= 40 - 10) by (vm_compute; discriminate).
  split; [exact H0|]. split; [exact H1|]. split; [exact H2|].
  split; [exact H2|].
  exact (resize_keeps_anchor_and_min_size 100 200 SE 10 10 40 40 (-500)
           (-500) H0 H1 H2 H2).
Defined.

(** X16.  A move by the arrow keys changes at most the box of the
    selected region: the list keeps its length, every other region and
    every text stay as they were, and the box of the selected region
    keeps its width and its height.  With an image loaded and a box no
    larger than the image, the moved box stays between 0 and the size
    of the image. *)
Theorem keyboard_move_keeps_size basename jp_image_path jp_image regs k dx dy :
  List.length
    (move_selected_text_box basename jp_image_path jp_image regs k dx dy)
  = List.length regs
  /\ (forall j r',
        nth_error
          (move_selected_text_box basename jp_image_path jp_image regs k
             dx dy) j = Some r' ->
        exists r,
          nth_error regs j = Some r
          /\ Region.text r' = Region.text r
          /\ (r' = r
              \/ (Z.of_nat j = k
                  /\ exists b b',
                       Region.target_bbox r = Some b
                       /\ Region.target_bbox r' = Some b'
                       /\ b' = nudged jp_image b dx dy
                       /\ width b' = width b
                       /\ height b' = height b)))
  /\ (forall img_h img_w x1 y1 x2 y2,
        0 <= x2 - x1 <= img_w -> 0 <= y2 - y1 <= img_h ->
        let '(nx1, ny1, nx2, ny2) :=
          nudged (Some (img_h, img_w)) (x1, y1, x2, y2) dx dy in
        0 <= nx1 /\ nx2 <= img_w /\ 0 <= ny1 /\ ny2 <= img_h).
Proof.
  destruct (move_selected_text_box_spec basename jp_image_path jp_image regs
              k dx dy) as [Hl Hs].
  split; [exact Hl|]. split.
  - intros j r' Hj. destruct (Hs j r' Hj) as (r & Hn & Ht & [->|(Hk & b & Hb & Hb')]).
    + exists r. repeat split; auto.
    + exists r. repeat split; try assumption. right. split; [exact Hk|].
      exists b, (nudged jp_image b dx dy).
      destruct (nudged_size jp_image b dx dy) as [Hw Hh].
      now repeat split.
  - intros img_h img_w x1 y1 x2 y2 Hx Hy.
    pose proof (nudged_inside img_h img_w x1 y1 x2 y2 dx dy Hx Hy) as H.
    destruct (nudged _ _ _ _) as [[[nx1 ny1] nx2] ny2]. tauto.
Qed.

(** X17.  A box that a move or a resize has left, when it is at least
    two pixels wide and high, is rendered where it is: the clamp of the
    renderers does not change it. *)
Theorem edited_box_rendered_in_place img_h img_w b :
  2 <= img_h -> 2 <= img_w ->
  2 <= width (safe_clamp (img_h, img_w) b) ->
  2 <= height (safe_clamp (img_h, img_w) b) ->
  BoxFit.clamp_box img_w img_h (safe_clamp (img_h, img_w) b)
  = safe_clamp (img_h, img_w) b.
Proof.
  intros Hh Hw Hx Hy.
  apply clamp_box_fixes; try assumption.
  now apply safe_clamp_within.
Qed.

Lemma edited_box_rendered_in_place_witness :
  2 <= 100 /\ 2 <= 200
  /\ 2 <= width (safe_clamp (100, 200) (180, 90, 260, 130))
  /\ 2 <= height (safe_clamp (100, 200) (180, 90, 260, 130))
  /\ BoxFit.clamp_box 200 100 (safe_clamp (100, 200) (180, 90, 260, 130))
     = safe_clamp (100, 200) (180, 90, 260, 130).
Proof.
  assert (H1 : 2 <= 100) by (vm_compute; discriminate).
  assert (H2 : 2 <= 200) by (vm_compute; discriminate).
  assert (H3 : 2 <= width (safe_clamp (100, 200) (180, 90, 260, 130)))
    by (vm_compute; discriminate).
  assert (H4 : 2 <= height (safe_clamp (100, 200) (180, 90, 260, 130)))
    by (vm_compute; discriminate).
  split; [exact H1|]. split; [exact H2|]. split; [exact H3|].
  split; [exact H4|].
  exact (edited_box_rendered_in_place 100 200 (180, 90, 260, 130) H1 H2 H3
           H4).
Defined.

End FurtherEditing.

(** ** Further properties of rendering, fonts and regions *)

Section FurtherRendering.

Import Py PyText BoxFit SaveScreen Sample Canvas Tool Fixture.

(** X18.  The test of the box size that follows the clamp of the
    preview renderer never fails: for every box, also one that lies
    outside the image, the renderer lays the text out when it has a
    Pillow image, and writes the text at the top left corner of the
    clamped box when it has none. *)
Theorem size_guard_never_fires W cf shape pil show r b :
  (pil = true ->
   exists l,
     value (draw_korean_text_optimized W cf shape pil show r b) = Laid l)
  /\ (pil = false ->
      let '(x1, y1, _, _) := clamp_box (snd shape) (fst shape) b in
      value (draw_korean_text_optimized W cf shape pil show r b)
      = Basic [PutText (Region.text r) (x1 + 5) (y1 + 20)]).
Proof. apply preview_always_lays_out. Qed.

(** X19.  The export at the resolution of the screen leaves out exactly
    the regions that are hidden or not placed.  The export at twice the
    resolution leaves out exactly the regions that are not placed: it
    does not look at [visible], so it draws a placed region that is
    hidden. *)
Theorem exports_skip_unplaced_regions W cf shape r :
  (value (screen_region W cf shape r) = Nothing
   <-> Region.visible r = false \/ Region.is_positioned r = false
       \/ Region.target_bbox r = None)
  /\ (value (hires_region W cf shape r) = Nothing
      <-> Region.is_positioned r = false \/ Region.target_bbox r = None).
Proof.
  split; [apply screen_region_skips | apply hires_region_skips].
Qed.

(** X20.  Whatever the region and the box, no renderer asks the font
    loader for a size below 8, and none wraps to a width below 10 or
    with a size below 8. *)
Theorem renderers_ask_sane_sizes W cf shape pil show r b :
  Forall sane_call (calls (draw_korean_text W cf shape r b))
  /\ Forall sane_call
       (calls (draw_korean_text_optimized W cf shape pil show r b))
  /\ Forall sane_call (calls (screen_region W cf shape r))
  /\ Forall sane_call (calls (hires_region W cf shape r)).
Proof.
  split; [apply legacy_calls|]. split; [apply preview_calls|].
  split; [apply screen_calls | apply hires_calls].
Qed.

(** X21.  On a region that is not bold, the renderer kept beside the
    optimized one and the renderer of the live preview agree on the
    font, the font size, the lines, the line height and the first line
    position, and draw the same text; the preview draws the background
    of the region under it. *)
Theorem legacy_matches_preview_when_not_bold W cf shape r b :
  Region.bold r = false ->
  exists l l',
    value (draw_korean_text W cf shape r b) = Laid l
    /\ value (draw_korean_text_optimized W cf shape true false r b) = Laid l'
    /\ font_used l' = font_used l
    /\ font_size_used l' = font_size_used l
    /\ text_lines l' = text_lines l
    /\ line_height l' = line_height l
    /\ start_y l' = start_y l
    /\ ops l'
       = background r (clamp_box (snd shape) (fst shape) b) ++ ops l.
Proof.
  intros Hb. destruct shape as [img_height img_width]. cbn [fst snd].
  unfold draw_korean_text, draw_korean_text_optimized.
  pose proof (size_guard img_width img_height b) as Hg.
  destruct (clamp_box img_width img_height b) as [[[x1 y1] x2] y2].
  rewrite Hg, Hb. cbn [negb].
  destruct (text_rect _ _ _) as [[[tx1 ty1] tx2] ty2].
  unfold bind, ret, wrap, load_font_for_overlay, value.
  destruct (fit_height _ _ _ _ _ _ _ _) as [fit t].
  cbn [fst]. eexists _, _. split; [reflexivity|]. split; [reflexivity|].
  cbn [font_used font_size_used text_lines line_height start_y ops].
  repeat split. now rewrite app_nil_r.
Qed.

Lemma legacy_matches_preview_when_not_bold_witness :
  Region.bold five_lines = false
  /\ exists l l',
       value (draw_korean_text monospace None (100, 200) five_lines
                (0, 0, 200, 40)) = Laid l
       /\ value (draw_korean_text_optimized monospace None (100, 200) true
                   false five_lines (0, 0, 200, 40)) = Laid l'
       /\ font_used l' = font_used l
       /\ font_size_used l' = font_size_used l
       /\ text_lines l' = text_lines l
       /\ line_height l' = line_height l
       /\ start_y l' = start_y l
       /\ ops l'
          = background five_lines
              (clamp_box (snd (100, 200)) (fst (100, 200)) (0, 0, 200, 40))
            ++ ops l.
Proof.
  split; [reflexivity|].
  exact (legacy_matches_preview_when_not_bold monospace None (100, 200)
           five_lines (0, 0, 200, 40) eq_refl).
Defined.

(** X22.  For a region that is not bold and whose font family has no
    file in the table of weights, the export at the resolution of the
    screen decides what the live preview decides: the same font, size,
    lines, line height, first line position and drawing operations,
    and it leaves out the regions that the preview leaves out. *)
Theorem screen_export_matches_preview W cf shape r :
  Region.bold r = false ->
  Region.bold_level r = 0 ->
  Fonts.base_paths W (Region.font_family r) = [] ->
  value (screen_region W cf shape r)
  = value (preview_region W cf shape true false r).
Proof.
  intros Hb Hl Hp. destruct shape as [img_height img_width].
  unfold screen_region, preview_region.
  destruct (Region.visible r); cbn [negb]; [|reflexivity].
  destruct (Region.target_bbox r) as [b|];
    [|destruct (Region.is_positioned r); reflexivity].
  destruct (Region.is_positioned r); cbn [negb]; [|reflexivity].
  unfold draw_korean_text_optimized.
  destruct (clamp_box img_width img_height b) as [[[x1 y1] x2] y2].
  destruct ((x2 - x1 <? 2) || (y2 - y1 <? 2)); [reflexivity|].
  cbn [negb]. rewrite Hl, Hb. cbv zeta.
  change (1 <=? 0) with false. change (2 <=? 0) with false. cbv iota.
  destruct (text_rect _ _ _) as [[[tx1 ty1] tx2] ty2].
  unfold _load_pil_font_with_bold, load_font_for_overlay.
  rewrite (bold_loader_plain W cf _ _ 0 Hp).
  unfold bind, ret, wrap, value.
  rewrite (fit_height_hires_plain W cf r _ _ _ _ _ Hb).
  destruct (fit_height _ _ _ _ _ _ _ _) as [fit t].
  cbn [fst]. f_equal. f_equal. rewrite app_nil_r. f_equal.
  apply draw_lines_ext. intros i l. apply draw_line_screen_eq.
Qed.

Lemma screen_export_matches_preview_witness :
  Region.bold note = false
  /\ Region.bold_level note = 0
  /\ Fonts.base_paths monospace (Region.font_family note) = []
  /\ value (screen_region monospace None (100, 200) note)
     = value (preview_region monospace None (100, 200) true false note).
Proof.
  split; [reflexivity|]. split; [reflexivity|]. split; [reflexivity|].
  exact (screen_export_matches_preview monospace None (100, 200) note
           eq_refl eq_refl eq_refl).
Defined.

(** X23.  The preview centres the block of lines in the text
    rectangle: the room above the first line and the room under the
    last line differ by one pixel at most, the extra pixel going
    under. *)
Theorem preview_block_centred W cf img_h img_w show r b :
  let '(x1, y1, x2, y2) := clamp_box img_w img_h b in
  let '(_, text_y1, _, text_y2) :=
    text_rect (x1, y1, x2, y2) (Region.margin r)
      (box_font_size (y2 - y1) (Region.font_size r)) in
  match
    value (draw_korean_text_optimized W cf (img_h, img_w) true show r b)
  with
  | Laid l =>
      let above := start_y l - text_y1 in
      let below :=
        text_y2 - (start_y l + count (text_lines l) * line_height l) in
      above <= below <= above + 1
  | _ => False
  end.
Proof.
  pose proof (preview_centred W cf img_h img_w show r b) as H.
  destruct (proj1 (preview_always_lays_out W cf (img_h, img_w) true show r b)
              eq_refl) as [l Hl].
  rewrite Hl.
  destruct (draw_korean_text_optimized W cf (img_h, img_w) true show r b)
    as [v c]. unfold value in Hl. cbn [fst] in Hl. subst v.
  specialize (H l c eq_refl).
  destruct (clamp_box img_w img_h b) as [[[x1 y1] x2] y2].
  destruct (text_rect _ _ _) as [[[tx1 ty1] tx2] ty2]. exact H.
Qed.

(** X24.  A font that a loader returns from a file is opened at exactly
    the size asked for, from a file that Pillow can open at that size;
    otherwise the loader returns the built-in font. *)
Theorem loaders_open_requested_size W cf font_family font_size bold_level :
  (forall p s,
     Fonts.load_font_for_overlay W font_family font_size cf
     = FreeTypeFont p s ->
     s = font_size /\ truetype_ok W p font_size = true)
  /\ (forall p s,
        Fonts._load_pil_font_with_bold W cf font_family font_size bold_level
        = FreeTypeFont p s ->
        s = font_size /\ truetype_ok W p font_size = true).
Proof.
  split; intros p s H.
  - destruct (loaders_sized W cf font_family font_size bold_level _
                (or_introl eq_refl)) as [E|(q & E & Hq)];
      rewrite H in E; [discriminate|].
    injection E as -> ->. now split.
  - destruct (loaders_sized W cf font_family font_size bold_level _
                (or_intror eq_refl)) as [E|(q & E & Hq)];
      rewrite H in E; [discriminate|].
    injection E as -> ->. now split.
Qed.

(** X25.  For a font family that the table of weights does not list,
    the loader that knows about bold returns, at every weight, what the
    plain loader returns. *)
Theorem bold_loader_plain_outside_table W cf font_family font_size
    bold_level :
  Fonts.base_paths W font_family = [] ->
  Fonts._load_pil_font_with_bold W cf font_family font_size bold_level
  = Fonts.load_font_for_overlay W font_family font_size cf.
Proof. apply bold_loader_plain. Qed.

Lemma bold_loader_plain_outside_table_witness :
  Fonts.base_paths with_arial "Courier New" = []
  /\ Fonts._load_pil_font_with_bold with_arial (Some registry) "Courier New"
       12 2
     = Fonts.load_font_for_overlay with_arial "Courier New" 12
         (Some registry).
Proof.
  split; [reflexivity|].
  exact (bold_loader_plain_outside_table with_arial (Some registry)
           "Courier New" 12 2 eq_refl).
Defined.

(** X26.  The lines that the OCR returns for a full text are clean and
    complete: no line is empty, starts or ends with white space or
    holds a line break, and the characters of the lines that are not
    white space are those of the full text, in order. *)
Theorem ocr_lines_clean_and_complete full_text :
  Forall (fun l => l <> [] /\ strip l = l /\ ~ In newline l)
    (Ocr.text_lines full_text)
  /\ visible_chars (List.concat (Ocr.text_lines full_text))
     = visible_chars full_text
  /\ Ocr.texts_of (Some full_text) = Ocr.text_lines full_text.
Proof.
  split; [apply text_lines_clean|].
  split; [apply text_lines_visible | apply texts_of_some].
Qed.

(** X27.  When the OCR completes, one region is appended for each of
    its lines, in order and with the line as its text; the regions that
    were there stay as they were, and the new ones have no box, no
    image and are not placed. *)
Theorem ocr_lines_become_unplaced_regions default_font_size current_color
    default_font_family regs full_text :
  exists news,
    on_vision_ocr_completed default_font_size current_color
      default_font_family regs (Ocr.texts_of (Some full_text))
    = regs ++ news
    /\ map Region.text news = Ocr.text_lines full_text
    /\ Forall unplaced news.
Proof.
  rewrite texts_of_some.
  destruct (on_vision_ocr_completed_appends default_font_size current_color
              default_font_family (Ocr.text_lines full_text) regs)
    as (news & E & Ht & Hu & _).
  exists news. rewrite text_lines_again in Ht. now repeat split.
Qed.

(** X28.  The regions that a completed OCR appends are out of reach of
    the pointer: for every list of lines, the hit test on the longer
    list answers what it answered before. *)
Theorem ocr_keeps_hit_test basename jp_image_path default_font_size
    current_color default_font_family regs lines pos :
  get_text_at_position basename jp_image_path
    (on_vision_ocr_completed default_font_size current_color
       default_font_family regs lines) pos
  = get_text_at_position basename jp_image_path regs pos.
Proof.
  destruct (on_vision_ocr_completed_appends default_font_size current_color
              default_font_family lines regs) as (news & E & _ & Hu & _).
  rewrite E. now apply get_text_at_position_over_unplaced.
Qed.

(** X29.  A text dropped on the open image can be picked up again: on
    every point of the box it was given, the hit test returns its index
    or the index of a region above it. *)
Theorem dropped_text_can_be_picked basename path regs i r x1 y1 x2 y2 x y :
  path <> ""%string ->
  nth_error regs i = Some r ->
  x1 <= x <= x2 -> y1 <= y <= y2 ->
  Z.of_nat i
  <= get_text_at_position basename (Some path)
       (on_text_dropped basename (Some path) regs (Z.of_nat i)
          (Some (x1, y1, x2, y2)))
       (x, y)
  < Z.of_nat (List.length regs).
Proof.
  intros Hp Hn Hx Hy.
  assert (Hi : (i < List.length regs)%nat)
    by (apply nth_error_Some; congruence).
  unfold on_text_dropped.
  replace (0 <=? Z.of_nat i) with true by lia.
  replace (Z.of_nat i <? Z.of_nat (List.length regs)) with true by lia.
  cbn [andb]. rewrite Nat2Z.id, Hn.
  pose proof Hp as Hp'. apply String.eqb_neq in Hp'. rewrite Hp'.
  set (regs' := assign regs i _).
  assert (Hi' : nth_error regs' i
                = Some (placed r (Some (x1, y1, x2, y2)) true
                          (Some (basename path))))
    by (apply assign_same; exact Hi).
  destruct (get_text_at_position_topmost basename path regs' x y Hp)
    as [[_ H]|(k & r' & E & Hk & Hh & Htop)].
  - exfalso. apply nth_error_In in Hi'. apply H in Hi'.
    now rewrite hit_placed in Hi'.
  - rewrite E.
    assert (Hkl : (k < List.length regs)%nat).
    { unfold regs' in Hk. rewrite <- (assign_length regs i
        (placed r (Some (x1, y1, x2, y2)) true (Some (basename path)))).
      apply nth_error_Some. congruence. }
    destruct (Nat.lt_ge_cases k i) as [Hlt|Hge]; [|lia].
    exfalso. pose proof (Htop i _ Hlt Hi') as Hc.
    now rewrite hit_placed in Hc.
Qed.

Lemma dropped_text_can_be_picked_witness :
  page <> ""%string
  /\ nth_error [note; loose_note] 1 = Some loose_note
  /\ 50 <= 60 <= 90 /\ 20 <= 25 <= 60
  /\ Z.of_nat 1
     <= get_text_at_position basename (Some page)
          (on_text_dropped basename (Some page) [note; loose_note]
             (Z.of_nat 1) (Some (50, 20, 90, 60)))
          (60, 25)
     < Z.of_nat (List.length [note; loose_note]).
Proof.
  assert (H : page <> ""%string) by (intros H; discriminate H).
  assert (H1 : 50 <= 60 <= 90) by (split; vm_compute; discriminate).
  assert (H2 : 20 <= 25 <= 60) by (split; vm_compute; discriminate).
  split; [exact H|]. split; [reflexivity|]. split; [exact H1|].
  split; [exact H2|].
  exact (dropped_text_can_be_picked basename page [note; loose_note] 1%nat
           loose_note 50 20 90 60 60 25 H eq_refl H1 H2).
Defined.

(** X30.  After the position of a row has been reset, the row is out of
    reach and out of the exports: the hit test never returns it, and
    neither export draws it.  The list keeps its length and the other
    rows stay as they were. *)
Theorem reset_text_is_out_of_reach W cf shape basename jp_image_path regs k
    pos :
  0 <= k ->
  get_text_at_position basename jp_image_path
    (reset_text_position regs k true) pos <> k
  /\ (forall r',
        nth_error (reset_text_position regs k true) (Z.to_nat k) = Some r' ->
        value (screen_region W cf shape r') = Nothing
        /\ value (hires_region W cf shape r') = Nothing)
  /\ List.length (reset_text_position regs k true) = List.length regs
  /\ (forall j, Z.of_nat j <> k ->
        nth_error (reset_text_position regs k true) j = nth_error regs j).
Proof.
  intros Hk. split; [now apply reset_text_out_of_reach|]. split.
  - intros r' Hr. pose proof (reset_row_unplaced regs k r' Hk Hr) as Hp.
    split.
    + apply screen_region_skips. auto.
    + apply hires_region_skips. auto.
  - apply reset_text_position_spec.
Qed.

Lemma reset_text_is_out_of_reach_witness :
  0 <= 0
  /\ get_text_at_position basename (Some page)
       (reset_text_position [note] 0 true) (15, 15) <> 0
  /\ (forall r',
        nth_error (reset_text_position [note] 0 true) (Z.to_nat 0)
        = Some r' ->
        value (screen_region monospace None (100, 200) r') = Nothing
        /\ value (hires_region monospace None (100, 200) r') = Nothing)
  /\ List.length (reset_text_position [note] 0 true) = List.length [note]
  /\ (forall j, Z.of_nat j <> 0 ->
        nth_error (reset_text_position [note] 0 true) j
        = nth_error [note] j).
Proof.
  assert (H : 0 <= 0) by (vm_compute; discriminate).
  split; [exact H|].
  exact (reset_text_is_out_of_reach monospace None (100, 200) basename
           (Some page) [note] 0 (15, 15) H).
Defined.

End FurtherRendering.
